(** * Payroll calculator and text analyzer: a shallow embedding

    The development follows the source modules of [Payroll_calculator]:
    - [employee.py]           (the [EmployeeType] enum and the [Employee] class),
    - [payslip.py]            (the [PaySlip] class),
    - [payroll_processor.py]  (the rate table and [PayrollProcessor]),
    and [text_analyzer.py] of [Text_analyzer] ([TextReader], [WordCounter]
    and [StatisticsReport]).

    All money in the source is a [decimal.Decimal] computed under Python's
    default arithmetic context, so the first part of the file is a model of
    that arithmetic on finite decimals. *)

From Stdlib Require Import ZArith List String Ascii Bool Lia Reals Lra Sorted Permutation.
Import ListNotations.

Local Open Scope Z_scope.

(** ** Exceptions and results *)

(** The exceptions the payroll code can raise.  [ValueError] is raised by
    [calculate_gross_pay] itself, with one of two messages; the two others
    are the signals of the decimal module that the default context traps,
    and [KeyError] is what indexing a dictionary raises on a missing key. *)
Inductive value_error : Type :=
| HoursExceeded          (* "PART_TIME employees cannot exceed 120 hours/month" *)
| UnknownEmployeeType.   (* "Unknown employee type: ..." *)

Inductive exn : Type :=
| ValueError (why : value_error)
| KeyError
| InvalidOperation
| Overflow.

Inductive result (A : Type) : Type :=
| Ok (a : A)
| Raise (e : exn).

Arguments Ok {A} a.
Arguments Raise {A} e.

Definition rbind {A B : Type} (r : result A) (k : A -> result B) : result B :=
  match r with
  | Ok a => k a
  | Raise e => Raise e
  end.

(** ** Finite decimals *)

Module Dec.

(** A finite [Decimal] is a coefficient and an exponent and stands for
    [coef * 10 ^ expo].  The coefficient carries the sign, so the two zeros
    [0] and [-0] of the decimal module (which compare equal) are one value
    here.  NaN and the infinities are not represented. *)
Record Decimal : Type := mk { coef : Z; expo : Z }.

(** The default context: [Context(prec=28, rounding=ROUND_HALF_EVEN,
    Emin=-999999, Emax=999999, clamp=0,
    traps=[InvalidOperation, DivisionByZero, Overflow])]. *)
Definition prec : Z := 28.
Definition Emax : Z := 999999.
Definition Emin : Z := -999999.
Definition Etiny : Z := Emin - prec + 1.
Definition Etop : Z := Emax - prec + 1.

Inductive rounding : Type := ROUND_HALF_EVEN | ROUND_HALF_UP.

(** [ndigits n] is [len(str(abs(n)))]: the number of decimal digits of the
    coefficient, 1 for zero. *)
Fixpoint digits_fuel (fuel : nat) (n : Z) : Z :=
  match fuel with
  | O => 1
  | S f => if n <? 10 then 1 else 1 + digits_fuel f (n / 10)
  end.

Definition ndigits (n : Z) : Z :=
  digits_fuel (Z.to_nat (Z.log2 (Z.abs n))) (Z.abs n).

(** [round_div mode n d] divides [n] by [d > 0] and rounds to the nearest
    integer.  As in the decimal module the decision is taken on the
    magnitude: the discarded part below one half rounds down, above one
    half rounds up, and exactly one half rounds up ([ROUND_HALF_UP], away
    from zero) or to the even neighbour ([ROUND_HALF_EVEN]). *)
Definition round_div (mode : rounding) (n d : Z) : Z :=
  let q := Z.abs n / d in
  let r := Z.abs n mod d in
  let up :=
    match 2 * r ?= d with
    | Lt => false
    | Gt => true
    | Eq => match mode with
            | ROUND_HALF_UP => true
            | ROUND_HALF_EVEN => Z.odd q
            end
    end in
  Z.sgn n * (if up then q + 1 else q).

(** [Decimal._rescale(exp, rounding)]: the same number at exponent [exp],
    padded with zeros when [exp] is not above the current exponent and
    rounded otherwise. *)
Definition _rescale (mode : rounding) (x : Decimal) (exp : Z) : Decimal :=
  if coef x =? 0 then mk 0 exp
  else if exp <=? expo x then mk (coef x * 10 ^ (expo x - exp)) exp
  else mk (round_div mode (coef x) (10 ^ (exp - expo x))) exp.

(** [Decimal._fix(context)]: what every arithmetic operation applies to its
    exact result.  A zero keeps its exponent within [Etiny, Emax]; a
    coefficient of more than [prec] digits is rounded half-even to [prec]
    digits (to exponent [Etiny] for a subnormal); a result above [Emax]
    signals [Overflow], which the context traps. *)
Definition _fix (x : Decimal) : result Decimal :=
  if coef x =? 0 then Ok (mk 0 (Z.min (Z.max (expo x) Etiny) Emax))
  else
    let exp_min := ndigits (coef x) + expo x - prec in
    if Etop <? exp_min then Raise Overflow
    else
      let exp_min := Z.max exp_min Etiny in
      if expo x <? exp_min then
        let c := round_div ROUND_HALF_EVEN (coef x) (10 ^ (exp_min - expo x)) in
        let '(c, exp_min) :=
          if prec <? ndigits c then (c / 10, exp_min + 1) else (c, exp_min) in
        if Etop <? exp_min then Raise Overflow else Ok (mk c exp_min)
      else Ok x.

(** [x + y], [x - y], [x * y]: the exact result, then [_fix]. *)
Definition add (x y : Decimal) : result Decimal :=
  let exp := Z.min (expo x) (expo y) in
  _fix (mk (coef x * 10 ^ (expo x - exp) + coef y * 10 ^ (expo y - exp)) exp).

Definition neg (x : Decimal) : Decimal := mk (- coef x) (expo x).

Definition sub (x y : Decimal) : result Decimal := add x (neg y).

Definition mul (x y : Decimal) : result Decimal :=
  _fix (mk (coef x * coef y) (expo x + expo y)).

(** Comparisons are exact: both coefficients are taken to the smaller
    exponent. *)
Definition cmp (x y : Decimal) : comparison :=
  let exp := Z.min (expo x) (expo y) in
  coef x * 10 ^ (expo x - exp) ?= coef y * 10 ^ (expo y - exp).

Definition leb (x y : Decimal) : bool :=
  match cmp x y with Gt => false | _ => true end.

Definition gtb (x y : Decimal) : bool :=
  match cmp x y with Gt => true | _ => false end.

Definition eqb (x y : Decimal) : bool :=
  match cmp x y with Eq => true | _ => false end.

(** [x.quantize(exp, rounding)]: [x] rounded to the exponent of [exp].
    Unlike the arithmetic operations, [quantize] signals [InvalidOperation]
    when the coefficient of the result would have more than [prec] digits. *)
Definition quantize (x exp : Decimal) (mode : rounding) : result Decimal :=
  if negb ((Etiny <=? expo exp) && (expo exp <=? Emax)) then Raise InvalidOperation
  else if coef x =? 0 then _fix (mk 0 (expo exp))
  else
    let adjusted := ndigits (coef x) + expo x - 1 in
    if Emax <? adjusted then Raise InvalidOperation
    else if prec <? adjusted - expo exp + 1 then Raise InvalidOperation
    else
      let ans := _rescale mode x (expo exp) in
      if Emax <? ndigits (coef ans) + expo ans - 1 then Raise InvalidOperation
      else if prec <? ndigits (coef ans) then Raise InvalidOperation
      else _fix ans.

(** [Decimal(n)] for an integer literal such as [Decimal("1000")]. *)
Definition of_Z (n : Z) : Decimal := mk n 0.

End Dec.

Import Dec.

(** ** Python dictionaries

    A [dict] keeps its keys in insertion order and holds each key once;
    [sum(d.values())] and the printing of a payslip follow that order. *)

Class KeyEq (K : Type) : Type := key_eqb : K -> K -> bool.

#[export] Instance string_KeyEq : KeyEq string := String.eqb.

Definition dict (K V : Type) : Type := list (K * V).

Section Dict.
Context {K V : Type} `{KeyEq K}.

Fixpoint dict_get (d : dict K V) (k : K) : option V :=
  match d with
  | [] => None
  | (k', v) :: d' => if key_eqb k' k then Some v else dict_get d' k
  end.

(** [k in d] *)
Definition dict_mem (d : dict K V) (k : K) : bool :=
  match dict_get d k with Some _ => true | None => false end.

(** [d[k] = v] *)
Fixpoint dict_set (d : dict K V) (k : K) (v : V) : dict K V :=
  match d with
  | [] => [(k, v)]
  | (k', v') :: d' =>
      if key_eqb k' k then (k', v) :: d' else (k', v') :: dict_set d' k v
  end.

(** [d.keys()], [d.values()] *)
Definition dict_keys (d : dict K V) : list K := map fst d.
Definition dict_values (d : dict K V) : list V := map snd d.
End Dict.

(** ** employee.py *)

Inductive EmployeeType : Type := FULL_TIME | PART_TIME | CONTRACTOR.

Definition EmployeeType_eqb (a b : EmployeeType) : bool :=
  match a, b with
  | FULL_TIME, FULL_TIME | PART_TIME, PART_TIME | CONTRACTOR, CONTRACTOR => true
  | _, _ => false
  end.

(** [id: Union[str, int]] *)
Inductive EmployeeId : Type :=
| IntId (n : Z)
| StrId (s : string).

#[export] Instance EmployeeId_KeyEq : KeyEq EmployeeId :=
  fun a b =>
    match a, b with
    | IntId n, IntId m => n =? m
    | StrId s, StrId t => String.eqb s t
    | _, _ => false
    end.

(** The attributes [Employee.__init__] sets.  [pay_rate] is already the
    [Decimal(str(pay_rate))] the constructor stores.  The constructor does
    not check [employee_type]: [None] stands for a value that is not a
    member of the enum. *)
Record Employee : Type := {
  id : EmployeeId;
  name : string;
  employee_type : option EmployeeType;
  pay_rate : Decimal;
  is_union_member : bool;
  has_retirement : bool
}.

Definition MAX_PART_TIME_HOURS : Z := 120.

(** [employee.employee_type == EmployeeType.X] *)
Definition type_is (t : option EmployeeType) (x : EmployeeType) : bool :=
  match t with
  | Some t' => EmployeeType_eqb t' x
  | None => false
  end.

(** ** The object store

    Employees are objects: the processor receives references to them and a
    payslip keeps the reference it was built from.  The store maps each
    reference to the current attributes of its object, and every method
    that is handed an employee is a computation over the store. *)

Definition ref : Type := nat.
Definition Store : Type := ref -> Employee.

Definition M (A : Type) : Type := Store -> Store * result A.

Definition ret {A : Type} (a : A) : M A := fun st => (st, Ok a).

Definition raise {A : Type} (e : exn) : M A := fun st => (st, Raise e).

Definition bind {A B : Type} (m : M A) (k : A -> M B) : M B :=
  fun st =>
    match m st with
    | (st', Ok a) => k a st'
    | (st', Raise e) => (st', Raise e)
    end.

(** A decimal computation, which does not touch the store. *)
Definition lift {A : Type} (r : result A) : M A := fun st => (st, r).

(** [employee.attr] *)
Definition getattr {A : Type} (attr : Employee -> A) (employee : ref) : M A :=
  fun st => (st, Ok (attr (st employee))).

Declare Scope monad_scope.
Delimit Scope monad_scope with monad.
Notation "x <- m ;; k" := (bind m (fun x => k))
  (at level 61, m at next level, right associativity) : monad_scope.
Notation "x <-- r ;; k" := (rbind r (fun x => k))
  (at level 61, r at next level, right associativity) : monad_scope.

Local Open Scope monad_scope.

(** ** payslip.py *)

Record PaySlip : Type := {
  employee : ref;
  gross_pay : Decimal;
  tax_amount : Decimal;
  deductions : dict string Decimal;
  net_pay : Decimal
}.

(** The builtin [sum] over decimals: it starts from the integer [0] and
    adds from left to right. *)
Definition py_sum (l : list Decimal) : result Decimal :=
  fold_left (fun acc v => a <-- acc ;; add a v) l (Ok (of_Z 0)).

(** [PaySlip.total_deductions] *)
Definition total_deductions (p : PaySlip) : result Decimal :=
  py_sum (dict_values (deductions p)).

(** ** payroll_processor.py *)

(** *** The rate table *)
Definition TAX_BRACKET_1_MAX : Decimal := of_Z 1000.
Definition TAX_BRACKET_2_MAX : Decimal := of_Z 3000.
Definition TAX_BRACKET_3_MAX : Decimal := of_Z 5000.

Definition HEALTH_INSURANCE : Decimal := of_Z 150.
Definition RETIREMENT_RATE : Decimal := mk 5 (-2).
Definition UNION_DUES : Decimal := of_Z 50.

(** *** PayrollProcessor *)

(** [_round_currency].  [Decimal(str(value))] gives back [value]. *)
Definition _round_currency (value : Decimal) : result Decimal :=
  quantize value (mk 1 (-2)) ROUND_HALF_UP.

(** [hours_or_days] is the [Decimal(str(hours_or_days))] of the first line
    of the method. *)
Definition calculate_gross_pay (employee : ref) (hours_or_days : Decimal) : M Decimal :=
  pay_rate <- getattr pay_rate employee ;;
  gross <- (t <- getattr employee_type employee ;;
            if type_is t FULL_TIME then ret pay_rate
            else
              t <- getattr employee_type employee ;;
              if type_is t PART_TIME then
                if gtb hours_or_days (of_Z MAX_PART_TIME_HOURS)
                then raise (ValueError HoursExceeded)
                else lift (mul pay_rate hours_or_days)
              else
                t <- getattr employee_type employee ;;
                if type_is t CONTRACTOR then lift (mul pay_rate hours_or_days)
                else raise (ValueError UnknownEmployeeType)) ;;
  lift (_round_currency gross).

(** [gross_pay] is the [Decimal(str(gross_pay))] of the first line. *)
Definition calculate_tax (gross : Decimal) : result Decimal :=
  tax <-- (if leb gross TAX_BRACKET_1_MAX then Ok (of_Z 0)
           else if leb gross TAX_BRACKET_2_MAX then
             d <-- sub gross TAX_BRACKET_1_MAX ;;
             mul d (mk 10 (-2))
           else if leb gross TAX_BRACKET_3_MAX then
             w <-- sub TAX_BRACKET_2_MAX TAX_BRACKET_1_MAX ;;
             tax <-- mul w (mk 10 (-2)) ;;
             d <-- sub gross TAX_BRACKET_2_MAX ;;
             t <-- mul d (mk 20 (-2)) ;;
             add tax t
           else
             w <-- sub TAX_BRACKET_2_MAX TAX_BRACKET_1_MAX ;;
             tax <-- mul w (mk 10 (-2)) ;;
             w <-- sub TAX_BRACKET_3_MAX TAX_BRACKET_2_MAX ;;
             t <-- mul w (mk 20 (-2)) ;;
             tax <-- add tax t ;;
             d <-- sub gross TAX_BRACKET_3_MAX ;;
             t <-- mul d (mk 30 (-2)) ;;
             add tax t) ;;
  _round_currency tax.

Definition calculate_deductions (employee : ref) (gross : Decimal)
  : M (dict string Decimal) :=
  let deductions : dict string Decimal := [] in
  t <- getattr employee_type employee ;;
  deductions <- (if type_is t FULL_TIME
                 then ret (dict_set deductions "health_insurance"%string HEALTH_INSURANCE)
                 else ret deductions) ;;
  r <- getattr has_retirement employee ;;
  deductions <- (if r : bool
                 then v <- lift (p <-- mul gross RETIREMENT_RATE ;; _round_currency p) ;;
                      ret (dict_set deductions "retirement"%string v)
                 else ret deductions) ;;
  u <- getattr is_union_member employee ;;
  deductions <- (if u : bool
                 then ret (dict_set deductions "union_dues"%string UNION_DUES)
                 else ret deductions) ;;
  ret deductions.

Definition generate_pay_slip (employee : ref) (hours_or_days : Decimal) : M PaySlip :=
  gross_pay <- calculate_gross_pay employee hours_or_days ;;
  tax_amount <- lift (calculate_tax gross_pay) ;;
  deductions <- calculate_deductions employee gross_pay ;;
  total_deductions <- lift (py_sum (dict_values deductions)) ;;
  net_pay <- lift (d <-- sub gross_pay tax_amount ;;
                   d <-- sub d total_deductions ;;
                   _round_currency d) ;;
  ret {| employee := employee;
         gross_pay := gross_pay;
         tax_amount := tax_amount;
         deductions := deductions;
         net_pay := net_pay |}.

(** The body of the [for] loop of [process_monthly_payroll]: the worked
    units of one employee. *)
Definition hours_or_days_of (hours_or_days_map : dict EmployeeId Decimal)
    (employee : ref) : M Decimal :=
  i <- getattr id employee ;;
  if dict_mem hours_or_days_map i then
    i <- getattr id employee ;;
    match dict_get hours_or_days_map i with
    | Some h => ret h
    | None => raise KeyError
    end
  else
    t <- getattr employee_type employee ;;
    if type_is t PART_TIME then ret (of_Z 80)
    else
      t <- getattr employee_type employee ;;
      if type_is t CONTRACTOR then ret (of_Z 20)
      else ret (of_Z 0).

(** The [for] loop, with the list [payslips] it appends to. *)
Fixpoint payroll_loop (hours_or_days_map : dict EmployeeId Decimal)
    (employee_list : list ref) (payslips : list PaySlip) : M (list PaySlip) :=
  match employee_list with
  | [] => ret payslips
  | employee :: rest =>
      h_or_d <- hours_or_days_of hours_or_days_map employee ;;
      payslip <- generate_pay_slip employee h_or_d ;;
      payroll_loop hours_or_days_map rest (payslips ++ [payslip])
  end.

Definition process_monthly_payroll (employee_list : list ref)
    (hours_or_days_map : option (dict EmployeeId Decimal)) : M (list PaySlip) :=
  let hours_or_days_map :=
    match hours_or_days_map with
    | None => []
    | Some m => m
    end in
  payroll_loop hours_or_days_map employee_list [].

(** ** The unit tests of [test_payroll.py] and the demo of [main.py] *)

Definition dec (c e : Z) : Decimal := mk c e.

Definition emp (i : Z) (n : string) (t : EmployeeType) (rate : Decimal)
    (union retirement : bool) : Employee :=
  {| id := IntId i; name := n; employee_type := Some t; pay_rate := rate;
     is_union_member := union; has_retirement := retirement |}.

(** A store whose objects are the employees of a list, in order. *)
Definition store_of (l : list Employee) : Store :=
  fun r => nth r l (emp 0 "" FULL_TIME (of_Z 0) false false).

Definition run {A : Type} (m : M A) (st : Store) : result A := snd (m st).

Definition demo : list Employee :=
  [ emp 101 "Alice Smith" FULL_TIME (dec 35000 (-1)) false false;
    emp 102 "Bob Johnson" FULL_TIME (dec 45000 (-1)) false true;
    emp 103 "Carol Williams" FULL_TIME (dec 60000 (-1)) true true;
    emp 104 "David Brown" PART_TIME (dec 285 (-1)) false false;
    emp 105 "Eva Martinez" PART_TIME (dec 320 (-1)) true true;
    emp 106 "Frank Chen" CONTRACTOR (dec 2500 (-1)) true false ]%string.

Definition demo_hours : dict EmployeeId Decimal :=
  [ (IntId 101, of_Z 0); (IntId 102, of_Z 0); (IntId 103, of_Z 0);
    (IntId 104, of_Z 100); (IntId 105, of_Z 80); (IntId 106, of_Z 18) ].

(** * Text analyzer: [text_analyzer.py]

    A Python [str] is a [string] here: a sequence of characters whose code
    points are below 256, which is what an [ascii] holds.  On such text
    [str.lower], [str.isspace], the classes of the regular expressions and
    the comparison of strings are the functions below.  Integers are [Z].
    The methods that read or write files, [get_average_word_length] (a
    float) and [generate_report] (formatting) are not modelled. *)

(** ** Characters and the builtins *)

Definition code (c : ascii) : Z := Z.of_N (N_of_ascii c).

(** [c.isspace()], also the class [\s] of a [str] pattern, the separators
    of [str.split()] and what [str.strip()] removes: the code points 9 to
    13, 28 to 32, 133 and 160. *)
Definition isspace (c : ascii) : bool :=
  let n := code c in
  ((9 <=? n) && (n <=? 13)) || ((28 <=? n) && (n <=? 32)) || (n =? 133) || (n =? 160).

(** The class [[a-z0-9]]. *)
Definition is_a_z_0_9 (c : ascii) : bool :=
  let n := code c in
  ((97 <=? n) && (n <=? 122)) || ((48 <=? n) && (n <=? 57)).

(** [c.lower()]: A to Z, and the capital letters of Latin-1 (192 to 222
    but the multiplication sign 215), are 32 below their small letter. *)
Definition lower_char (c : ascii) : ascii :=
  let n := code c in
  if ((65 <=? n) && (n <=? 90)) || ((192 <=? n) && (n <=? 222) && negb (n =? 215))
  then ascii_of_N (Z.to_N (n + 32))
  else c.

Fixpoint map_chars (f : ascii -> ascii) (s : string) : string :=
  match s with
  | EmptyString => EmptyString
  | String c s' => String (f c) (map_chars f s')
  end.

(** [s.lower()] *)
Definition lower (s : string) : string := map_chars lower_char s.

(** [len(s)] and [len(l)] *)
Definition len (s : string) : Z := Z.of_nat (String.length s).
Definition len_list {A : Type} (l : list A) : Z := Z.of_nat (List.length l).

(** [re.sub(r'[^a-z0-9\s]', ' ', s)] *)
Definition sub_other_by_space (s : string) : string :=
  map_chars (fun c => if is_a_z_0_9 c || isspace c then c else " "%char) s.

(** [re.sub(r'\s+', ' ', s)]: each maximal run of whitespace becomes one
    space.  [in_run] tells that the character before belonged to a run. *)
Fixpoint sub_runs_by_space (in_run : bool) (s : string) : string :=
  match s with
  | EmptyString => EmptyString
  | String c s' =>
      if isspace c then
        if in_run then sub_runs_by_space true s'
        else String " " (sub_runs_by_space true s')
      else String c (sub_runs_by_space false s')
  end.

(** [s.lstrip()], [s.rstrip()], [s.strip()] *)
Fixpoint lstrip (s : string) : string :=
  match s with
  | EmptyString => EmptyString
  | String c s' => if isspace c then lstrip s' else s
  end.

Fixpoint rstrip (s : string) : string :=
  match s with
  | EmptyString => EmptyString
  | String c s' =>
      match rstrip s' with
      | EmptyString => if isspace c then EmptyString else String c EmptyString
      | r => String c r
      end
  end.

Definition strip (s : string) : string := rstrip (lstrip s).

(** [s.split()]: the maximal runs of characters that are not whitespace.
    [word] is the run being read. *)
Fixpoint split_from (word : string) (s : string) : list string :=
  match s with
  | EmptyString => match word with EmptyString => [] | _ => [word] end
  | String c s' =>
      if isspace c then
        match word with
        | EmptyString => split_from EmptyString s'
        | _ => word :: split_from EmptyString s'
        end
      else split_from (word ++ String c EmptyString) s'
  end.

Definition split (s : string) : list string := split_from EmptyString s.

(** [x in s] for a set of strings. *)
Definition in_set (x : string) (s : list string) : bool := existsb (String.eqb x) s.

(** [Counter(l)]: each element in turn gets [mapping.get(elem, 0) + 1]; a
    new element goes after the ones already seen. *)
Definition Counter (l : list string) : dict string Z :=
  fold_left
    (fun mapping elem =>
       dict_set mapping elem
         (match dict_get mapping elem with Some n => n | None => 0 end + 1))
    l [].

(** [max(l, key=key)]: the first element whose key no other exceeds.
    [None] is the [ValueError] of an empty sequence. *)
Fixpoint max_from {A : Type} (key : A -> Z) (best : A) (l : list A) : A :=
  match l with
  | [] => best
  | x :: l' => max_from key (if key best <? key x then x else best) l'
  end.

Definition py_max {A : Type} (key : A -> Z) (l : list A) : option A :=
  match l with
  | [] => None
  | x :: l' => Some (max_from key x l')
  end.

(** [sorted(l, key=...)], by the order [lt] of the keys.  [sorted] is
    stable, and every stable sort returns the same list: this one inserts
    each element before the first one that is not smaller. *)
Fixpoint insert_sorted {A : Type} (lt : A -> A -> bool) (x : A) (l : list A) : list A :=
  match l with
  | [] => [x]
  | y :: l' => if lt y x then y :: insert_sorted lt x l' else x :: l
  end.

Fixpoint sorted {A : Type} (lt : A -> A -> bool) (l : list A) : list A :=
  match l with
  | [] => []
  | x :: l' => insert_sorted lt x (sorted lt l')
  end.

(** [l[:n]]: the first [n] elements, all but the last [-n] when [n] is
    negative. *)
Definition slice_to {A : Type} (l : list A) (n : Z) : list A :=
  if n <? 0 then firstn (Z.to_nat (len_list l + n)) l
  else firstn (Z.to_nat n) l.

(** ** [TextReader] *)

Module TextReader.

Record t : Type := {
  file_path : string;
  raw_content : string;
  normalized_content : string
}.

(** [TextReader(file_path)] *)
Definition init (file_path : string) : t :=
  {| file_path := file_path; raw_content := ""; normalized_content := "" |}.

(** [normalize_text]: the object after the call, and the string returned. *)
Definition normalize_text (self : t) (text : string) : t * string :=
  let text := lower text in
  let text := sub_other_by_space text in
  let text := sub_runs_by_space false text in
  let text := strip text in
  ({| file_path := file_path self;
      raw_content := raw_content self;
      normalized_content := text |}, text).

End TextReader.

(** ** [WordCounter] *)

Module WordCounter.

Definition STOP_WORDS : list string :=
  [ "the"; "and"; "is"; "at"; "which"; "on"; "a"; "an"; "as"; "are";
    "was"; "were"; "been"; "be"; "have"; "has"; "had"; "do"; "does";
    "did"; "of"; "to"; "in"; "for"; "it"; "with"; "that"; "this";
    "by"; "from"; "or"; "but" ]%string.

Record t : Type := {
  text : string;
  words : list string;
  word_frequencies : dict string Z
}.

(** [WordCounter(text)] *)
Definition init (text : string) : t :=
  {| text := text; words := []; word_frequencies := [] |}.

Definition tokenize (self : t) : t * list string :=
  let all_words := split (text self) in
  let words :=
    filter (fun word => (3 <=? len word) && negb (in_set word STOP_WORDS)) all_words in
  ({| text := text self; words := words; word_frequencies := word_frequencies self |},
   words).

Definition count_frequencies (self : t) : t * dict string Z :=
  let self := match words self with [] => fst (tokenize self) | _ => self end in
  let frequencies := Counter (words self) in
  ({| text := text self; words := words self; word_frequencies := frequencies |},
   frequencies).

Definition get_word_frequencies (self : t) : t * dict string Z :=
  let self :=
    match word_frequencies self with
    | [] => fst (count_frequencies self)
    | _ => self
    end in
  (self, word_frequencies self).

End WordCounter.

(** ** [StatisticsReport] *)

Module StatisticsReport.

Record t : Type := {
  word_counter : WordCounter.t;
  word_frequencies : dict string Z;
  all_words : list string
}.

(** [StatisticsReport(word_counter)]: the call of [get_word_frequencies]
    may change the counter; the report refers to the counter as it is after
    the call. *)
Definition init (word_counter : WordCounter.t) : t :=
  let (word_counter, frequencies) := WordCounter.get_word_frequencies word_counter in
  {| word_counter := word_counter;
     word_frequencies := frequencies;
     all_words := WordCounter.words word_counter |}.

Definition get_total_word_count (self : t) : Z := len_list (all_words self).

Definition get_unique_word_count (self : t) : Z := len_list (word_frequencies self).

Definition get_longest_word (self : t) : option string :=
  match all_words self with
  | [] => Some ""%string
  | _ => py_max len (all_words self)
  end.

Definition get_most_frequent_word (self : t) : option (string * Z) :=
  match word_frequencies self with
  | [] => Some (""%string, 0)
  | _ => py_max snd (word_frequencies self)
  end.

(** The order of the keys [(-x[1], x[0])]: tuples compare by their first
    components that differ. *)
Definition top_key_lt (x y : string * Z) : bool :=
  if - snd x =? - snd y then String.ltb (fst x) (fst y) else - snd x <? - snd y.

Definition get_top_n_words (self : t) (n : Z) : list (string * Z) :=
  let sorted_words := sorted top_key_lt (word_frequencies self) in
  slice_to sorted_words n.

Definition get_words_starting_with (self : t) (prefix : string) : list string :=
  let prefix := lower prefix in
  let matching_words :=
    filter (fun word => String.prefix prefix word) (dict_keys (word_frequencies self)) in
  sorted String.ltb matching_words.

End StatisticsReport.

(** The sequence of [analyze_text_file] on a text already read: normalize,
    tokenize, count, report. *)
Definition analyze_text (content : string) : StatisticsReport.t :=
  let normalized_text := snd (TextReader.normalize_text (TextReader.init "") content) in
  let counter := WordCounter.init normalized_text in
  let counter := fst (WordCounter.tokenize counter) in
  let counter := fst (WordCounter.count_frequencies counter) in
  StatisticsReport.init counter.

(** * Definitions for the statements *)

(** ** Decimals as real numbers *)

Section RealValues.
Local Open Scope R_scope.

(** The real number a decimal stands for. *)
Definition pow10 (k : Z) : R := powerRZ 10 k.

Definition val (x : Decimal) : R := IZR (coef x) * pow10 (expo x).

(** [rounds_to mode k v w]: [w] is the multiple of [10 ^ k] nearest to [v],
    a tie being resolved by [mode]. *)
Definition rounds_to (mode : rounding) (k : Z) (v w : R) : Prop :=
  (exists q : Z, w = IZR q * pow10 k) /\
  Rabs (w - v) <= pow10 k / 2 /\
  (Rabs (w - v) = pow10 k / 2 ->
     match mode with
     | ROUND_HALF_EVEN => forall q : Z, w = IZR q * pow10 k -> Z.even q = true
     | ROUND_HALF_UP => Rabs v < Rabs w
     end).

(** [fl v w]: [w] is [v] rounded half-even to 28 significant digits, or to
    a multiple of [10 ^ Etiny] when [v] is that small.  This is what [_fix]
    computes. *)
Definition fl (v w : R) : Prop :=
  exists k : Z,
    (Etiny <= k)%Z /\
    (k = Etiny \/ pow10 (k + 27) <= Rabs v) /\
    Rabs v < pow10 (k + 28) /\
    rounds_to ROUND_HALF_EVEN k v w.

(** The sum of the values of a list of decimals. *)
Definition sum_val (l : list Decimal) : R := fold_right Rplus 0%R (map val l).

End RealValues.

(** ** Amounts of money as the specification words them *)

(** The exact sum of two decimals. *)
Definition exact_add (x y : Decimal) : Decimal :=
  let exp := Z.min (expo x) (expo y) in
  mk (coef x * 10 ^ (expo x - exp) + coef y * 10 ^ (expo y - exp)) exp.

(** [x] rounded to two decimal places, round-half-up (ties away from zero),
    in cents. *)
Definition round_cents (x : Decimal) : Z :=
  if -2 <=? expo x then coef x * 10 ^ (expo x + 2)
  else round_div ROUND_HALF_UP (coef x) (10 ^ (-2 - expo x)).

(** The rounded amount as a decimal with two places.  The decimal context
    holds 28 digits, so there is such a decimal only below [10 ^ 26]. *)
Definition half_up_2 (x : Decimal) : result Decimal :=
  if Z.abs (round_cents x) <? 10 ^ 28 then Ok (mk (round_cents x) (-2))
  else Raise InvalidOperation.

(** The exact product of two decimals. *)
Definition exact_mul (x y : Decimal) : Decimal :=
  mk (coef x * coef y) (expo x + expo y).

(** A decimal that the context holds without rounding. *)
Definition representable (x : Decimal) : Prop :=
  Z.abs (coef x) < 10 ^ 28 /\ Etiny <= expo x <= Etop.

(** A value with no digit after the second decimal, and that value in
    cents. *)
Definition two_decimals (x : Decimal) : bool := -2 <=? expo x.

Definition cents (x : Decimal) : Z := coef x * 10 ^ (expo x + 2).

Definition sum_cents (l : list Decimal) : Z := fold_right Z.add 0 (map cents l).

(** ** The store and the deductions dictionary *)

(** A computation that leaves the store as it found it. *)
Definition read_only {A : Type} (m : M A) : Prop := forall st, fst (m st) = st.

Section Entries.
Variable st : Store.
Variable e : ref.

(** The three entries of the deductions dictionary, in insertion order. *)
Definition health_entry : dict string Decimal :=
  if type_is (employee_type (st e)) FULL_TIME
  then [("health_insurance"%string, HEALTH_INSURANCE)] else [].

Definition retirement_entry (v : Decimal) : dict string Decimal :=
  if has_retirement (st e) then [("retirement"%string, v)] else [].

Definition union_entry : dict string Decimal :=
  if is_union_member (st e) then [("union_dues"%string, UNION_DUES)] else [].

End Entries.

(** ** The batch runner as the specification words it *)

(** The default worked units of a category.  An employee whose type is not
    a member of the enum falls in the last [else] of the loop, like
    [FULL_TIME]. *)
Definition default_units (t : option EmployeeType) : Decimal :=
  match t with
  | Some PART_TIME => of_Z 80
  | Some CONTRACTOR => of_Z 20
  | Some FULL_TIME | None => of_Z 0
  end.

(** The worked units of an employee: the value of the mapping when the
    employee's id is a key, the default of the category otherwise. *)
Definition spec_units (hours_or_days_map : option (dict EmployeeId Decimal))
    (e : Employee) : Decimal :=
  let m := match hours_or_days_map with None => [] | Some m => m end in
  match dict_get m (id e) with
  | Some h => h
  | None => default_units (employee_type e)
  end.

(** Applying a fallible function to each element in order; the first
    failure is the failure of the whole. *)
Fixpoint map_result {A B : Type} (f : A -> result B) (l : list A) : result (list B) :=
  match l with
  | [] => Ok []
  | a :: l' => b <-- f a ;; bs <-- map_result f l' ;; Ok (b :: bs)
  end.

(** The payslips of the demonstration. *)
Definition demo_payslips : list PaySlip :=
  Eval vm_compute in
    match run (process_monthly_payroll [0; 1; 2; 3; 4; 5]%nat (Some demo_hours))
              (store_of demo) with
    | Ok l => l
    | Raise _ => []
    end.

(** Carol Williams of the demonstration: 6000.00 gross, 900.00 tax, 150 +
    300.00 + 50 deducted, 4600.00 net. *)
Definition carol_payslip : PaySlip :=
  {| employee := 2%nat;
     gross_pay := dec 600000 (-2);
     tax_amount := dec 90000 (-2);
     deductions := [("health_insurance"%string, of_Z 150);
                    ("retirement"%string, dec 30000 (-2));
                    ("union_dues"%string, of_Z 50)];
     net_pay := dec 460000 (-2) |}.

(** ** The tax schedule on any decimal *)

(** [x - y] exactly. *)
Definition exact_sub (x y : Decimal) : Decimal := exact_add x (neg y).

(** The smaller and the larger of two decimals. *)
Definition dmin (x y : Decimal) : Decimal := if leb x y then x else y.
Definition dmax (x y : Decimal) : Decimal := if leb x y then y else x.

(** The part of a gross pay that lies between [lo] and [hi], and the part
    above [lo], exactly. *)
Definition part_between (lo hi gross : Decimal) : Decimal :=
  dmax (of_Z 0) (exact_sub (dmin gross hi) lo).

Definition part_above (lo gross : Decimal) : Decimal :=
  dmax (of_Z 0) (exact_sub gross lo).

(** The progressive schedule on a gross pay with any number of decimals:
    10% of the part between 1000 and 3000, 20% of the part between 3000 and
    5000 and 30% of the part above 5000, exactly, with no rounding. *)
Definition schedule (gross : Decimal) : Decimal :=
  exact_add
    (exact_add
       (exact_mul (mk 10 (-2)) (part_between (of_Z 1000) (of_Z 3000) gross))
       (exact_mul (mk 20 (-2)) (part_between (of_Z 3000) (of_Z 5000) gross)))
    (exact_mul (mk 30 (-2)) (part_above (of_Z 5000) gross)).

(** The same schedule on the real numbers. *)
Definition progressive (v : R) : R :=
  (/ 10 * Rmax 0 (Rmin v 3000 - 1000)
   + 2 / 10 * Rmax 0 (Rmin v 5000 - 3000)
   + 3 / 10 * Rmax 0 (v - 5000))%R.

(** The digits of [x] written out with no exponent above zero: its
    coefficient at the exponent [min (expo x) 0]. *)
Definition plain_coef (x : Decimal) : Z := coef x * 10 ^ (expo x - Z.min (expo x) 0).

(** ** Exceptions *)

(** The two signals of the decimal module that the context traps. *)
Definition arithmetic (e : exn) : Prop := e = InvalidOperation \/ e = Overflow.

(** ** The tax schedule *)

(** The part of an amount [c] that falls between [lo] and [hi]. *)
Definition amount_between (lo hi c : Z) : Z := Z.max 0 (Z.min c hi - lo).

(** The progressive schedule on a gross pay of [c] cents: 10% of what falls
    between 1000 and 3000, 20% of what falls between 3000 and 5000 and 30% of
    what lies above 5000, as a decimal with four places, not yet rounded. *)
Definition schedule_tax (c : Z) : Decimal :=
  mk (10 * amount_between 100000 300000 c
      + 20 * amount_between 300000 500000 c
      + 30 * Z.max 0 (c - 500000)) (-4).

(** The tax as [calculate_tax] has it before [_round_currency]. *)
Definition tax_before_rounding (gross : Decimal) : result Decimal :=
  if leb gross TAX_BRACKET_1_MAX then Ok (of_Z 0)
  else if leb gross TAX_BRACKET_2_MAX then
    d <-- sub gross TAX_BRACKET_1_MAX ;;
    mul d (mk 10 (-2))
  else if leb gross TAX_BRACKET_3_MAX then
    d <-- sub gross TAX_BRACKET_2_MAX ;;
    t <-- mul d (mk 20 (-2)) ;;
    add (mk 20000 (-2)) t
  else
    d <-- sub gross TAX_BRACKET_3_MAX ;;
    t <-- mul d (mk 30 (-2)) ;;
    add (mk 60000 (-2)) t.

(** The three taxed brackets as [calculate_tax] computes them. *)
Definition bracket_2 (gross : Decimal) : result Decimal :=
  d <-- sub gross TAX_BRACKET_1_MAX ;; mul d (mk 10 (-2)).

Definition bracket_3 (gross : Decimal) : result Decimal :=
  d <-- sub gross TAX_BRACKET_2_MAX ;; t <-- mul d (mk 20 (-2)) ;; add (mk 20000 (-2)) t.

Definition bracket_4 (gross : Decimal) : result Decimal :=
  d <-- sub gross TAX_BRACKET_3_MAX ;; t <-- mul d (mk 30 (-2)) ;; add (mk 60000 (-2)) t.

(** ** Text: characters, counts and orders *)

(** The characters of a string. *)
Definition chars (s : string) : list ascii := list_ascii_of_string s.

(** [clean prev_space s]: every character of [s] is in [[a-z0-9]] or is a
    space, and no space follows a space, nor comes first when [prev_space]
    is set. *)
Fixpoint clean (prev_space : bool) (s : string) : bool :=
  match s with
  | EmptyString => true
  | String c s' =>
      if is_a_z_0_9 c then clean false s'
      else Ascii.eqb c " " && negb prev_space && clean true s'
  end.

(** The last character is a space. *)
Fixpoint ends_with_space (s : string) : bool :=
  match s with
  | EmptyString => false
  | String c EmptyString => Ascii.eqb c " "
  | String _ s' => ends_with_space s'
  end.

(** How many times [w] occurs in [l]. *)
Fixpoint occurrences (w : string) (l : list string) : Z :=
  match l with
  | [] => 0
  | x :: l' => (if String.eqb x w then 1 else 0) + occurrences w l'
  end.

(** The elements of [l] in the order of their first occurrence, after the
    elements [seen]. *)
Definition first_occurrences_after (seen l : list string) : list string :=
  fold_left (fun acc w => if in_set w acc then acc else acc ++ [w]) l seen.

Definition first_occurrences (l : list string) : list string :=
  first_occurrences_after [] l.

(** The sum of the values of a dictionary. *)
Definition sum_values (d : dict string Z) : Z := fold_right Z.add 0 (dict_values d).

(** The words [tokenize] keeps. *)
Definition kept (word : string) : bool :=
  (3 <=? len word) && negb (in_set word WordCounter.STOP_WORDS).

(** [weave words seps]: each word followed by its separator, one after the
    other. *)
Fixpoint weave (words seps : list string) : string :=
  match words, seps with
  | w :: words', sep :: seps' => w ++ sep ++ weave words' seps'
  | _, _ => EmptyString
  end.

(** A string of whitespace only, and a string with no whitespace. *)
Definition whitespace (s : string) : Prop := Forall (fun c => isspace c = true) (chars s).
Definition no_whitespace (s : string) : Prop := Forall (fun c => isspace c = false) (chars s).

(** [runs_of text runs]: [runs] are the maximal runs of characters of
    [text] that are not whitespace, in the order of the text.  The text is
    whitespace, then each run followed by whitespace; the runs are not
    empty and hold no whitespace, and the whitespace between two runs is
    not empty. *)
Definition runs_of (text : string) (runs : list string) : Prop :=
  exists (sep0 : string) (seps : list string),
    text = (sep0 ++ weave runs seps)%string /\
    List.length seps = List.length runs /\
    whitespace sep0 /\
    Forall whitespace seps /\
    Forall (fun sep => sep <> EmptyString) (removelast seps) /\
    Forall (fun w => w <> EmptyString /\ no_whitespace w) runs.

(** A list in which no element is smaller than the one before. *)
Definition ascending {A : Type} (lt : A -> A -> bool) (l : list A) : Prop :=
  forall l1 x y l2, l = l1 ++ x :: y :: l2 -> lt y x = false.

(** * Facts about the decimal arithmetic *)

(** ** Digits *)

Lemma digits_fuel_spec (fuel : nat) :
  forall n, 0 <= n < 10 ^ (Z.of_nat fuel + 1) ->
    1 <= digits_fuel fuel n /\
    n < 10 ^ digits_fuel fuel n /\
    (0 < n -> 10 ^ (digits_fuel fuel n - 1) <= n).
Proof.
  induction fuel as [|fuel IH]; intros n Hn.
  - simpl in *. change (10 ^ 1) with 10 in *. change (10 ^ (1 - 1)) with 1. lia.
  - cbn [digits_fuel]. destruct (Z.ltb_spec n 10) as [Hlt|Hge].
    + change (10 ^ 1) with 10. change (10 ^ (1 - 1)) with 1. lia.
    + assert (Hq : 0 <= n / 10 < 10 ^ (Z.of_nat fuel + 1)).
      { split; [apply Z.div_pos; lia|].
        apply Z.div_lt_upper_bound; [lia|].
        replace (Z.of_nat (S fuel) + 1) with (Z.succ (Z.of_nat fuel + 1)) in Hn by lia.
        rewrite Z.pow_succ_r in Hn by lia. lia. }
      destruct (IH _ Hq) as (H1 & H2 & H3).
      set (d := digits_fuel fuel (n / 10)) in *.
      assert (Hdm := Z.div_mod n 10 ltac:(lia)).
      assert (Hmod := Z.mod_pos_bound n 10 ltac:(lia)).
      split; [lia|]. split.
      * replace (1 + d) with (Z.succ d) by lia. rewrite Z.pow_succ_r by lia. lia.
      * intros _. replace (1 + d - 1) with (Z.succ (d - 1)) by lia.
        rewrite Z.pow_succ_r by lia.
        assert (0 < n / 10) by (apply Z.div_str_pos; lia). lia.
Qed.

Lemma ndigits_fuel_enough (n : Z) :
  0 <= Z.abs n < 10 ^ (Z.of_nat (Z.to_nat (Z.log2 (Z.abs n))) + 1).
Proof.
  split; [lia|].
  rewrite Z2Nat.id by apply Z.log2_nonneg.
  destruct (Z.eq_dec (Z.abs n) 0) as [->|Hnz].
  - change (Z.log2 0) with 0. change (10 ^ (0 + 1)) with 10. lia.
  - assert (Hpos : 0 < Z.abs n) by lia.
    destruct (Z.log2_spec _ Hpos) as [_ Hup].
    eapply Z.lt_le_trans; [exact Hup|].
    replace (Z.succ (Z.log2 (Z.abs n))) with (Z.log2 (Z.abs n) + 1) by lia.
    apply Z.pow_le_mono_l. lia.
Qed.

Lemma ndigits_pos (n : Z) : 1 <= ndigits n.
Proof. apply (digits_fuel_spec _ _ (ndigits_fuel_enough n)). Qed.

Lemma ndigits_upper (n : Z) : Z.abs n < 10 ^ ndigits n.
Proof. apply (digits_fuel_spec _ _ (ndigits_fuel_enough n)). Qed.

Lemma ndigits_lower (n : Z) : n <> 0 -> 10 ^ (ndigits n - 1) <= Z.abs n.
Proof.
  intros Hn. apply (digits_fuel_spec _ _ (ndigits_fuel_enough n)). lia.
Qed.

Lemma ndigits_le (n k : Z) : 1 <= k -> Z.abs n < 10 ^ k -> ndigits n <= k.
Proof.
  intros Hk Hn.
  destruct (Z.eq_dec n 0) as [->|Hnz]; [change (ndigits 0) with 1; lia|].
  assert (H := ndigits_lower n Hnz).
  assert (Hlt : 10 ^ (ndigits n - 1) < 10 ^ k) by lia.
  apply Z.pow_lt_mono_r_iff in Hlt; lia.
Qed.

Lemma ndigits_gt (n k : Z) : 0 <= k -> 10 ^ k <= Z.abs n -> k < ndigits n.
Proof.
  intros Hk Hn.
  assert (H := ndigits_upper n). assert (Hp := ndigits_pos n).
  assert (Hlt : 10 ^ k < 10 ^ ndigits n) by lia.
  apply Z.pow_lt_mono_r_iff in Hlt; lia.
Qed.

(** ** Rounding of a quotient *)

Lemma round_div_spec (mode : rounding) (n d : Z) :
  0 < d ->
  let q := round_div mode n d in
  2 * Z.abs (n - q * d) <= d /\
  (0 <= n -> 0 <= q) /\
  (n <= 0 -> q <= 0) /\
  (2 * Z.abs (n - q * d) = d ->
     match mode with
     | ROUND_HALF_EVEN => Z.even q = true
     | ROUND_HALF_UP => Z.abs n < Z.abs (q * d)
     end).
Proof.
  intros Hd. unfold round_div. cbv zeta.
  assert (Hdm := Z.div_mod (Z.abs n) d ltac:(lia)).
  assert (Hmod := Z.mod_pos_bound (Z.abs n) d Hd).
  assert (Hq0 : 0 <= Z.abs n / d) by (apply Z.div_pos; lia).
  set (q0 := Z.abs n / d) in *. set (r := Z.abs n mod d) in *.
  destruct (Z.compare_spec (2 * r) d) as [Heq|Hlt|Hgt].
  - destruct mode.
    + destruct (Z.odd q0) eqn:Hodd.
      * assert (Hev : Z.even (q0 + 1) = true).
        { rewrite Z.even_add, <- Z.negb_odd, Hodd. reflexivity. }
        destruct (Z.sgn_spec n) as [[Hs ->]|[[Hs ->]|[Hs ->]]].
        -- repeat split; try nia. intros _. rewrite Z.mul_1_l. exact Hev.
        -- repeat split; nia.
        -- repeat split; try nia. intros _.
           replace (-1 * (q0 + 1)) with (- (q0 + 1)) by lia.
           rewrite Z.even_opp. exact Hev.
      * assert (Hev : Z.even q0 = true) by (rewrite <- Z.negb_odd, Hodd; reflexivity).
        destruct (Z.sgn_spec n) as [[Hs ->]|[[Hs ->]|[Hs ->]]].
        -- repeat split; try nia. intros _. rewrite Z.mul_1_l. exact Hev.
        -- repeat split; nia.
        -- repeat split; try nia. intros _.
           replace (-1 * q0) with (- q0) by lia.
           rewrite Z.even_opp. exact Hev.
    + destruct (Z.sgn_spec n) as [[Hs ->]|[[Hs ->]|[Hs ->]]]; repeat split; nia.
  - destruct (Z.sgn_spec n) as [[Hs ->]|[[Hs ->]|[Hs ->]]];
      (repeat split; [nia|nia|nia|]); intros Habs; exfalso; nia.
  - destruct (Z.sgn_spec n) as [[Hs ->]|[[Hs ->]|[Hs ->]]];
      (repeat split; [nia|nia|nia|]); intros Habs; exfalso; nia.
Qed.

(** ** The real number a decimal stands for *)

Section Values.
Local Open Scope R_scope.

Lemma pow10_pos (k : Z) : 0 < pow10 k.
Proof. apply powerRZ_lt. lra. Qed.

Lemma pow10_add (a b : Z) : pow10 (a + b) = pow10 a * pow10 b.
Proof. apply powerRZ_add. lra. Qed.

Lemma pow10_IZR (k : Z) : (0 <= k)%Z -> IZR (10 ^ k) = pow10 k.
Proof.
  intros Hk. unfold pow10.
  rewrite <- (Z2Nat.id k Hk), <- pow_IZR, <- pow_powerRZ. reflexivity.
Qed.

Lemma pow10_ge_1 (k : Z) : (0 <= k)%Z -> 1 <= pow10 k.
Proof.
  intros Hk. rewrite <- pow10_IZR by exact Hk.
  apply IZR_le. assert (0 < 10 ^ k)%Z by (apply Z.pow_pos_nonneg; lia). lia.
Qed.

Lemma pow10_le (a b : Z) : (a <= b)%Z -> pow10 a <= pow10 b.
Proof.
  intros Hab. replace b with (a + (b - a))%Z by lia. rewrite pow10_add.
  assert (H1 := pow10_ge_1 (b - a) ltac:(lia)). assert (H2 := pow10_pos a). nra.
Qed.

Lemma pow10_lt (a b : Z) : (a < b)%Z -> pow10 a < pow10 b.
Proof.
  intros Hab. replace b with (a + 1 + (b - a - 1))%Z by lia.
  rewrite !pow10_add.
  assert (H1 := pow10_ge_1 (b - a - 1) ltac:(lia)). assert (H2 := pow10_pos a).
  change (pow10 1) with (10 * 1). nra.
Qed.

Lemma pow10_lt_inv (a b : Z) : pow10 a < pow10 b -> (a < b)%Z.
Proof.
  intros H. destruct (Z.lt_ge_cases a b) as [Hlt|Hge]; [exact Hlt|].
  apply pow10_le in Hge. lra.
Qed.

Lemma val_scale (x : Decimal) (m : Z) :
  (m <= expo x)%Z -> val x = IZR (coef x * 10 ^ (expo x - m)) * pow10 m.
Proof.
  intros Hm. unfold val. rewrite mult_IZR, pow10_IZR by lia.
  replace (expo x) with ((expo x - m) + m)%Z at 1 by lia.
  rewrite pow10_add. ring.
Qed.

Lemma cmp_val (x y : Decimal) :
  match cmp x y with
  | Lt => val x < val y
  | Eq => val x = val y
  | Gt => val y < val x
  end.
Proof.
  unfold cmp. set (m := Z.min (expo x) (expo y)).
  rewrite (val_scale x m), (val_scale y m) by lia.
  assert (Hp := pow10_pos m).
  destruct (Z.compare_spec (coef x * 10 ^ (expo x - m)) (coef y * 10 ^ (expo y - m)))
    as [Heq|Hlt|Hgt].
  - rewrite Heq. reflexivity.
  - apply IZR_lt in Hlt. nra.
  - apply IZR_lt in Hgt. nra.
Qed.

Lemma leb_val (x y : Decimal) : leb x y = true <-> val x <= val y.
Proof.
  unfold leb. assert (H := cmp_val x y).
  destruct (cmp x y); split; intros; try reflexivity; try lra; discriminate.
Qed.

Lemma gtb_val (x y : Decimal) : gtb x y = true <-> val y < val x.
Proof.
  unfold gtb. assert (H := cmp_val x y).
  destruct (cmp x y); split; intros; try reflexivity; try lra; discriminate.
Qed.

Lemma val_of_Z (n : Z) : val (of_Z n) = IZR n.
Proof. unfold val, of_Z, pow10. simpl. ring. Qed.

Lemma val_cents (c : Z) : val (mk c (-2)) = IZR c / 100.
Proof. unfold val, pow10. simpl. field. Qed.

(** The position of the leading digit. *)
Lemma val_magnitude (x : Decimal) :
  coef x <> 0%Z ->
  pow10 (ndigits (coef x) + expo x - 1) <= Rabs (val x) < pow10 (ndigits (coef x) + expo x).
Proof.
  intros Hnz. unfold val. rewrite Rabs_mult, (Rabs_pos_eq (pow10 _)) by (left; apply pow10_pos).
  rewrite <- abs_IZR.
  assert (Hp := pow10_pos (expo x)).
  assert (Hd := ndigits_pos (coef x)).
  split.
  - replace (ndigits (coef x) + expo x - 1)%Z with ((ndigits (coef x) - 1) + expo x)%Z by lia.
    rewrite pow10_add, <- (pow10_IZR (ndigits (coef x) - 1)) by lia.
    apply Rmult_le_compat_r; [lra|]. apply IZR_le, ndigits_lower, Hnz.
  - rewrite pow10_add, <- (pow10_IZR (ndigits (coef x))) by lia.
    apply Rmult_lt_compat_r; [lra|]. apply IZR_lt, ndigits_upper.
Qed.

(** ** Rounding to a grid *)

Lemma rounds_to_exact (mode : rounding) (k : Z) (q : Z) :
  rounds_to mode k (IZR q * pow10 k) (IZR q * pow10 k).
Proof.
  assert (Hp := pow10_pos k).
  split; [exists q; reflexivity|].
  replace (IZR q * pow10 k - IZR q * pow10 k) with 0 by ring. rewrite Rabs_R0.
  split; [lra|]. intros H. exfalso. lra.
Qed.

Lemma round_div_rounds_to (mode : rounding) (c e k : Z) :
  (e < k)%Z ->
  rounds_to mode k (IZR c * pow10 e) (IZR (round_div mode c (10 ^ (k - e))) * pow10 k).
Proof.
  intros Hek.
  assert (Hd : (0 < 10 ^ (k - e))%Z) by (apply Z.pow_pos_nonneg; lia).
  destruct (round_div_spec mode c _ Hd) as (Hclose & _ & _ & Htie).
  set (q := round_div mode c (10 ^ (k - e))) in *.
  set (d := (10 ^ (k - e))%Z) in *.
  assert (Hpe := pow10_pos e).
  assert (Hk : pow10 k = IZR d * pow10 e).
  { unfold d. rewrite pow10_IZR by lia. rewrite <- pow10_add. f_equal. lia. }
  assert (Hdiff : IZR q * pow10 k - IZR c * pow10 e = IZR (q * d - c) * pow10 e).
  { rewrite Hk, minus_IZR, mult_IZR. ring. }
  assert (Habs : Rabs (IZR q * pow10 k - IZR c * pow10 e)
                 = IZR (Z.abs (c - q * d)) * pow10 e).
  { rewrite Hdiff, Rabs_mult, (Rabs_pos_eq (pow10 e)) by lra.
    rewrite <- abs_IZR. do 2 f_equal. lia. }
  split; [exists q; reflexivity|]. rewrite Habs, Hk. split.
  - apply IZR_le in Hclose. rewrite mult_IZR in Hclose. nra.
  - intros Heq.
    assert (Hz : (2 * Z.abs (c - q * d) = d)%Z).
    { apply eq_IZR. rewrite mult_IZR. nra. }
    specialize (Htie Hz). destruct mode.
    + intros q' Hq'.
      assert (q' = q) as ->; [|exact Htie].
      apply eq_IZR. apply IZR_lt in Hd.
      apply (Rmult_eq_reg_r (IZR d * pow10 e)); [symmetry; exact Hq'|nra].
    + apply IZR_lt in Htie, Hd.
      rewrite !abs_IZR, mult_IZR in Htie.
      rewrite <- Rmult_assoc, !Rabs_mult, (Rabs_pos_eq (pow10 e)) by lra.
      rewrite <- Rabs_mult. nra.
Qed.

Lemma rounds_to_le (mode : rounding) (k : Z) (v w : R) (n : Z) :
  rounds_to mode k v w -> v <= IZR n * pow10 k -> w <= IZR n * pow10 k.
Proof.
  intros ((q & ->) & Hclose & _) Hv.
  assert (Hp := pow10_pos k).
  assert (Hw : IZR q * pow10 k - v <= pow10 k / 2).
  { revert Hclose. unfold Rabs. destruct (Rcase_abs _); lra. }
  assert (Hq : (q < n + 1)%Z).
  { apply lt_IZR. rewrite plus_IZR. nra. }
  assert (Hq' : IZR q <= IZR n) by (apply IZR_le; lia). nra.
Qed.

Lemma rounds_to_ge (mode : rounding) (k : Z) (v w : R) (n : Z) :
  rounds_to mode k v w -> IZR n * pow10 k <= v -> IZR n * pow10 k <= w.
Proof.
  intros ((q & ->) & Hclose & _) Hv.
  assert (Hp := pow10_pos k).
  assert (Hw : v - IZR q * pow10 k <= pow10 k / 2).
  { revert Hclose. unfold Rabs. destruct (Rcase_abs _); lra. }
  assert (Hq : (n < q + 1)%Z).
  { apply lt_IZR. rewrite plus_IZR. nra. }
  assert (Hq' : IZR n <= IZR q) by (apply IZR_le; lia). nra.
Qed.

Lemma rounds_to_mono (mode : rounding) (k : Z) (v v' w w' : R) :
  rounds_to mode k v w -> rounds_to mode k v' w' -> v <= v' -> w <= w'.
Proof.
  intros ((q & Hq) & Hclose & Htie) ((q' & Hq') & Hclose' & Htie') Hv.
  assert (Hp := pow10_pos k).
  destruct (Rle_or_lt w w') as [Hle|Hlt]; [exact Hle|exfalso].
  assert (Hqq : (q' + 1 <= q)%Z).
  { assert (q' < q)%Z; [|lia]. apply lt_IZR. subst w w'. nra. }
  apply IZR_le in Hqq. rewrite plus_IZR in Hqq.
  assert (Hgap : pow10 k <= w - w') by (subst w w'; nra).
  assert (Hw : w - v <= pow10 k / 2).
  { revert Hclose. unfold Rabs. destruct (Rcase_abs _); lra. }
  assert (Hw' : v' - w' <= pow10 k / 2).
  { revert Hclose'. unfold Rabs. destruct (Rcase_abs _); lra. }
  assert (Hd : w - v = pow10 k / 2) by lra.
  assert (Hd' : w' - v' = - (pow10 k / 2)) by lra.
  assert (Ht : Rabs (w - v) = pow10 k / 2) by (rewrite Hd; apply Rabs_pos_eq; lra).
  assert (Ht' : Rabs (w' - v') = pow10 k / 2).
  { rewrite Hd', Rabs_Ropp. apply Rabs_pos_eq; lra. }
  specialize (Htie Ht). specialize (Htie' Ht'). destruct mode.
  - specialize (Htie q Hq). specialize (Htie' q' Hq').
    assert (Heq : q = (q' + 1)%Z).
    { apply eq_IZR. rewrite plus_IZR. subst w w'. nra. }
    rewrite Heq, Z.even_add, Htie' in Htie. discriminate.
  - assert (Hvv : v = v') by lra. subst v'.
    assert (Hww : w' = w - pow10 k) by lra.
    revert Htie Htie'. unfold Rabs.
    repeat destruct (Rcase_abs _); intros; try lra.
    (* v >= 0 and w' < 0, or v < 0 and w >= 0: excluded by the grid *)
    + assert (0 <= IZR q')%R.
      { assert (-1 < IZR q'); [subst w w'; nra|].
        apply IZR_le. assert (-1 < q')%Z by (apply lt_IZR; lra). lia. }
      subst w w'. nra.
    + assert (IZR q <= 0)%R.
      { assert (IZR q < 1); [subst w w'; nra|].
        apply IZR_le. assert (q < 1)%Z by (apply lt_IZR; lra). lia. }
      subst w w'. nra.
Qed.

Lemma rounds_to_unique (mode : rounding) (k : Z) (v w w' : R) :
  rounds_to mode k v w -> rounds_to mode k v w' -> w = w'.
Proof.
  intros H H'. apply Rle_antisym; eapply rounds_to_mono; eauto; lra.
Qed.

(** ** Rounding to the context precision *)

Lemma fl_intro (k : Z) (v w : R) :
  (Etiny <= k)%Z -> (k = Etiny \/ pow10 (k + 27) <= Rabs v) ->
  Rabs v < pow10 (k + 28) -> rounds_to ROUND_HALF_EVEN k v w -> fl v w.
Proof. intros. exists k. tauto. Qed.

Lemma round_div_bound (mode : rounding) (c d m : Z) :
  (0 < d)%Z -> (0 <= m)%Z -> (Z.abs c < m * d)%Z ->
  (Z.abs (round_div mode c d) <= m)%Z.
Proof.
  intros Hd Hm Hc.
  destruct (round_div_spec mode c d Hd) as (Hclose & _).
  set (q := round_div mode c d) in *.
  destruct (Z.le_gt_cases (Z.abs q) m) as [Hle|Hgt]; [exact Hle|exfalso].
  assert (Hq : ((m + 1) * d <= Z.abs q * d)%Z) by nia.
  assert (Habs : (Z.abs q * d = Z.abs (q * d))%Z) by (rewrite Z.abs_mul; lia).
  lia.
Qed.

Lemma fix_fl (x y : Decimal) : _fix x = Ok y -> fl (val x) (val y).
Proof.
  unfold _fix. destruct (Z.eqb_spec (coef x) 0) as [Hz|Hnz].
  - intros [= <-]. unfold val. rewrite Hz. cbn [coef expo].
    rewrite !Rmult_0_l. apply (fl_intro Etiny); [lia|left; reflexivity| |].
    + rewrite Rabs_R0. apply pow10_pos.
    + replace 0 with (IZR 0 * pow10 Etiny) by ring. apply rounds_to_exact.
  - assert (Hmag := val_magnitude x Hnz).
    set (nd := ndigits (coef x)) in *.
    destruct (Z.ltb_spec Etop (nd + expo x - prec)) as [|Htop]; [discriminate|].
    set (k := Z.max (nd + expo x - prec) Etiny).
    assert (Hk1 : (Etiny <= k)%Z) by lia.
    assert (Hk2 : k = Etiny \/ pow10 (k + 27) <= Rabs (val x)).
    { destruct (Z.le_gt_cases (nd + expo x - prec) Etiny); [left; lia|right].
      replace (k + 27)%Z with (nd + expo x - 1)%Z by (unfold prec in *; lia).
      apply Hmag. }
    assert (Hk3 : Rabs (val x) < pow10 (k + 28)).
    { eapply Rlt_le_trans; [apply Hmag|]. apply pow10_le. unfold prec in *. lia. }
    destruct (Z.ltb_spec (expo x) k) as [Hlt|Hge].
    + set (q := round_div ROUND_HALF_EVEN (coef x) (10 ^ (k - expo x))).
      assert (Hr := round_div_rounds_to ROUND_HALF_EVEN (coef x) (expo x) k Hlt).
      fold q in Hr. fold (val x) in Hr.
      assert (Hq : (Z.abs q <= 10 ^ 28)%Z).
      { apply round_div_bound; [apply Z.pow_pos_nonneg; lia|lia|].
        rewrite <- Z.pow_add_r by lia.
        eapply Z.lt_le_trans; [apply ndigits_upper|].
        apply Z.pow_le_mono_r; unfold prec in *; lia. }
      destruct (Z.ltb_spec prec (ndigits q)) as [Hbig|Hsmall].
      * destruct (Z.ltb_spec Etop (k + 1)) as [|_]; [discriminate|].
        intros [= <-]. apply (fl_intro k); try assumption.
        assert (Hq' : (Z.abs q = 10 ^ 28)%Z).
        { destruct (Z.lt_ge_cases (Z.abs q) (10 ^ 28)) as [Hl|]; [|lia].
          apply ndigits_le in Hl; unfold prec in *; lia. }
        assert (Hv : val {| coef := q / 10; expo := k + 1 |} = IZR q * pow10 k).
        { unfold val. cbn [coef expo]. rewrite pow10_add.
          change (pow10 1) with (10 * 1).
          assert (Hq10 : q = (10 * (q / 10))%Z).
          { change (10 ^ 28)%Z with 10000000000000000000000000000%Z in Hq'.
            destruct (Z.abs_spec q) as [[_ He]|[_ He]]; rewrite He in Hq'.
            - subst q. rewrite Hq'. reflexivity.
            - assert (Hn : q = (- 10000000000000000000000000000)%Z) by lia.
              rewrite Hn. reflexivity. }
          rewrite Hq10 at 2. rewrite mult_IZR. ring. }
        rewrite Hv. exact Hr.
      * destruct (Z.ltb_spec Etop k) as [|_]; [discriminate|].
        intros [= <-]. apply (fl_intro k); assumption.
    + intros [= <-]. apply (fl_intro k); try assumption.
      rewrite (val_scale x k Hge). apply rounds_to_exact.
Qed.

Lemma fix_defined (x : Decimal) :
  Rabs (val x) < pow10 Emax -> exists y, _fix x = Ok y.
Proof.
  intros Hx. unfold _fix. destruct (Z.eqb_spec (coef x) 0) as [Hz|Hnz]; [eauto|].
  assert (Hmag := val_magnitude x Hnz).
  assert (Hnd : (ndigits (coef x) + expo x - 1 < Emax)%Z).
  { apply pow10_lt_inv. lra. }
  destruct (Z.ltb_spec Etop (ndigits (coef x) + expo x - prec)) as [Hbad|_].
  { unfold Etop, Emax, prec in *. lia. }
  set (k := Z.max _ Etiny).
  assert (Hk : (k + 1 <= Etop)%Z) by (unfold k, Etop, Etiny, Emin, Emax, prec in *; lia).
  destruct (Z.ltb_spec (expo x) k); [|eauto].
  destruct (prec <? ndigits _).
  - destruct (Z.ltb_spec Etop (k + 1)); [lia|eauto].
  - destruct (Z.ltb_spec Etop k); [lia|eauto].
Qed.

Lemma fl_mono (v v' w w' : R) : fl v w -> fl v' w' -> v <= v' -> w <= w'.
Proof.
  intros (k & Hk1 & Hk2 & Hk3 & Hr) (k' & Hk1' & Hk2' & Hk3' & Hr') Hv.
  destruct (Z.lt_total k k') as [Hlt|[Heq|Hgt]].
  - (* [v] is below the decade of [v'] *)
    destruct Hk2' as [Hk2'|Hk2']; [lia|].
    assert (Hb : pow10 (k + 28) <= pow10 (k' + 27)) by (apply pow10_le; lia).
    assert (Hpos : 0 < v').
    { revert Hk3 Hk2'. unfold Rabs. repeat destruct (Rcase_abs _); lra. }
    rewrite (Rabs_pos_eq v') in Hk2' by lra.
    assert (Hvb : v <= pow10 (k' + 27)).
    { revert Hk3. unfold Rabs. destruct (Rcase_abs _); lra. }
    assert (Hg' : pow10 (k' + 27) = IZR (10 ^ 27) * pow10 k').
    { rewrite pow10_IZR, <- pow10_add by lia. f_equal. lia. }
    assert (Hg : pow10 (k' + 27) = IZR (10 ^ (k' + 27 - k)) * pow10 k).
    { rewrite pow10_IZR, <- pow10_add by lia. f_equal. lia. }
    apply Rle_trans with (pow10 (k' + 27)).
    + rewrite Hg. eapply rounds_to_le; [exact Hr|]. rewrite <- Hg. lra.
    + rewrite Hg'. eapply rounds_to_ge; [exact Hr'|]. rewrite <- Hg'. lra.
  - subst k'. eapply rounds_to_mono; eauto.
  - (* [v'] is above the decade of [v], which is negative *)
    destruct Hk2 as [Hk2|Hk2]; [lia|].
    assert (Hb : pow10 (k' + 28) <= pow10 (k + 27)) by (apply pow10_le; lia).
    assert (Hneg : v < 0).
    { revert Hk3' Hk2. unfold Rabs. repeat destruct (Rcase_abs _); lra. }
    rewrite (Rabs_left v) in Hk2 by lra.
    assert (Hvb : - pow10 (k + 27) <= v').
    { revert Hk3'. unfold Rabs. destruct (Rcase_abs _); lra. }
    assert (Hg : - pow10 (k + 27) = IZR (- 10 ^ 27) * pow10 k).
    { rewrite opp_IZR, pow10_IZR, Ropp_mult_distr_l_reverse, <- pow10_add by lia.
      do 2 f_equal. lia. }
    assert (Hg' : - pow10 (k + 27) = IZR (- 10 ^ (k + 27 - k')) * pow10 k').
    { rewrite opp_IZR, pow10_IZR, Ropp_mult_distr_l_reverse, <- pow10_add by lia.
      do 2 f_equal. lia. }
    apply Rle_trans with (- pow10 (k + 27)).
    + rewrite Hg. eapply rounds_to_le; [exact Hr|]. rewrite <- Hg. lra.
    + rewrite Hg'. eapply rounds_to_ge; [exact Hr'|]. rewrite <- Hg'. lra.
Qed.

Lemma fl_unique (v w w' : R) : fl v w -> fl v w' -> w = w'.
Proof. intros H H'. apply Rle_antisym; eapply fl_mono; eauto; lra. Qed.

(** A number of at most 28 digits is not changed. *)
Lemma fl_representable (v w : R) (n m : Z) :
  fl v w -> v = IZR n * pow10 m -> (Z.abs n < 10 ^ 28)%Z -> (Etiny <= m)%Z -> w = v.
Proof.
  intros (k & Hk1 & Hk2 & Hk3 & Hr) Hv Hn Hm.
  assert (Hkm : (k <= m)%Z).
  { destruct Hk2 as [->|Hk2]; [exact Hm|].
    assert (Hlt : pow10 (k + 27) < pow10 (m + 28)).
    { eapply Rle_lt_trans; [exact Hk2|]. rewrite Hv, Rabs_mult, <- abs_IZR.
      rewrite (Rabs_pos_eq (pow10 m)) by (left; apply pow10_pos).
      rewrite pow10_add, <- (pow10_IZR 28) by lia.
      rewrite Rmult_comm. apply Rmult_lt_compat_l; [apply pow10_pos|].
      apply IZR_lt, Hn. }
    apply pow10_lt_inv in Hlt. lia. }
  assert (Hg : v = IZR (n * 10 ^ (m - k)) * pow10 k).
  { rewrite Hv, mult_IZR, pow10_IZR, Rmult_assoc, <- pow10_add by lia.
    do 2 f_equal. lia. }
  apply Rle_antisym.
  - rewrite Hg. eapply rounds_to_le; [exact Hr|]. rewrite <- Hg. lra.
  - rewrite Hg. eapply rounds_to_ge; [exact Hr|]. rewrite <- Hg. lra.
Qed.

(** The rounding error, for a number below [10 ^ (j + 28)]. *)
Lemma fl_error (v w : R) (j : Z) :
  fl v w -> (Etiny <= j)%Z -> Rabs v < pow10 (j + 28) -> Rabs (w - v) <= pow10 j / 2.
Proof.
  intros (k & Hk1 & Hk2 & Hk3 & _ & Hclose & _) Hj Hv.
  assert (Hkj : (k <= j)%Z).
  { destruct Hk2 as [->|Hk2]; [exact Hj|].
    assert (Hlt : pow10 (k + 27) < pow10 (j + 28)) by lra.
    apply pow10_lt_inv in Hlt. lia. }
  apply pow10_le in Hkj. lra.
Qed.

(** *** The arithmetic operations *)

Lemma val_exact_add (x y : Decimal) : val (exact_add x y) = val x + val y.
Proof.
  unfold exact_add. cbv zeta. set (m := Z.min (expo x) (expo y)).
  rewrite (val_scale x m), (val_scale y m) by lia.
  unfold val. cbn [coef expo]. rewrite plus_IZR. ring.
Qed.

Lemma val_neg (x : Decimal) : val (neg x) = - val x.
Proof. unfold val, neg. cbn [coef expo]. rewrite opp_IZR. ring. Qed.

Lemma val_exact_mul (x y : Decimal) :
  val (mk (coef x * coef y) (expo x + expo y)) = val x * val y.
Proof. unfold val. cbn [coef expo]. rewrite mult_IZR, pow10_add. ring. Qed.

Lemma add_fl (x y z : Decimal) : add x y = Ok z -> fl (val x + val y) (val z).
Proof. intros H. apply fix_fl in H. fold (exact_add x y) in H. rewrite val_exact_add in H. exact H. Qed.

Lemma sub_fl (x y z : Decimal) : sub x y = Ok z -> fl (val x - val y) (val z).
Proof. intros H. apply add_fl in H. rewrite val_neg in H. exact H. Qed.

Lemma mul_fl (x y z : Decimal) : mul x y = Ok z -> fl (val x * val y) (val z).
Proof. intros H. apply fix_fl in H. rewrite val_exact_mul in H. exact H. Qed.

Lemma add_defined (x y : Decimal) :
  Rabs (val x + val y) < pow10 Emax -> exists z, add x y = Ok z.
Proof. intros H. apply fix_defined. fold (exact_add x y). rewrite val_exact_add. exact H. Qed.

Lemma sub_defined (x y : Decimal) :
  Rabs (val x - val y) < pow10 Emax -> exists z, sub x y = Ok z.
Proof. intros H. apply add_defined. rewrite val_neg. exact H. Qed.

Lemma mul_defined (x y : Decimal) :
  Rabs (val x * val y) < pow10 Emax -> exists z, mul x y = Ok z.
Proof. intros H. apply fix_defined. rewrite val_exact_mul. exact H. Qed.

(** *** Rounding to cents *)

Lemma fix_small (c e : Z) :
  (ndigits c <= prec)%Z -> (Etiny <= e <= Etop)%Z -> _fix (mk c e) = Ok (mk c e).
Proof.
  intros Hc He. unfold _fix. cbn [coef expo].
  destruct (Z.eqb_spec c 0) as [->|Hnz].
  - do 2 f_equal. unfold Etop, Etiny, Emin, Emax, prec in *. lia.
  - destruct (Z.ltb_spec Etop (ndigits c + e - prec)); [lia|].
    destruct (Z.ltb_spec e (Z.max (ndigits c + e - prec) Etiny)); [lia|reflexivity].
Qed.

Lemma fix_cents (c : Z) : (Z.abs c < 10 ^ 28)%Z -> _fix (mk c (-2)) = Ok (mk c (-2)).
Proof.
  intros Hc. apply fix_small; [apply ndigits_le; unfold prec; lia|].
  unfold Etiny, Etop, Emin, Emax, prec. lia.
Qed.

Lemma val_rescale (mode : rounding) (x : Decimal) (k : Z) :
  rounds_to mode k (val x) (val (_rescale mode x k)) /\ expo (_rescale mode x k) = k.
Proof.
  unfold _rescale. destruct (Z.eqb_spec (coef x) 0) as [Hz|Hnz].
  - split; [|reflexivity]. unfold val. cbn [coef expo]. rewrite Hz, Rmult_0_l.
    replace 0 with (IZR 0 * pow10 k) at 1 by ring. apply rounds_to_exact.
  - destruct (Z.leb_spec k (expo x)) as [Hle|Hgt]; (split; [|reflexivity]).
    + rewrite (val_scale x k Hle). apply rounds_to_exact.
    + apply round_div_rounds_to, Hgt.
Qed.

Lemma round_currency_spec (x y : Decimal) :
  _round_currency x = Ok y ->
  exists q : Z, y = mk q (-2) /\ (Z.abs q < 10 ^ 28)%Z /\
                rounds_to ROUND_HALF_UP (-2) (val x) (val y).
Proof.
  unfold _round_currency, quantize. cbn [expo]. change (negb _) with false. cbv iota.
  destruct (Z.eqb_spec (coef x) 0) as [Hz|Hnz].
  - rewrite fix_cents by lia. intros [= <-]. exists 0%Z.
    split; [reflexivity|]. split; [lia|].
    unfold val. cbn [coef expo]. rewrite Hz, Rmult_0_l.
    replace 0 with (IZR 0 * pow10 (-2)) at 1 by ring. apply rounds_to_exact.
  - destruct (Emax <? _); [discriminate|].
    destruct (prec <? _); [discriminate|].
    destruct (val_rescale ROUND_HALF_UP x (-2)) as [Hr He].
    destruct (_rescale ROUND_HALF_UP x (-2)) as [q e]. cbn [coef expo] in *. subst e.
    destruct (Emax <? _); [discriminate|].
    destruct (Z.ltb_spec prec (ndigits q)) as [|Hq]; [discriminate|].
    assert (Hq' : (Z.abs q < 10 ^ 28)%Z).
    { eapply Z.lt_le_trans; [apply ndigits_upper|].
      apply Z.pow_le_mono_r; unfold prec in *; lia. }
    rewrite fix_cents by exact Hq'. intros [= <-]. eauto.
Qed.

Lemma round_currency_complete (x : Decimal) (q : Z) :
  rounds_to ROUND_HALF_UP (-2) (val x) (IZR q * pow10 (-2)) ->
  (Z.abs q < 10 ^ 28)%Z ->
  _round_currency x = Ok (mk q (-2)).
Proof.
  intros Hr Hq.
  unfold _round_currency, quantize. cbn [expo]. change (negb _) with false. cbv iota.
  destruct (val_rescale ROUND_HALF_UP x (-2)) as [Hr' He].
  assert (Hp := pow10_pos (-2)).
  destruct (Z.eqb_spec (coef x) 0) as [Hz|Hnz].
  - assert (Hq0 : q = 0%Z).
    { assert (Hv : val x = IZR 0 * pow10 (-2)) by (unfold val; rewrite Hz; ring).
      rewrite Hv in Hr.
      assert (Hu := rounds_to_unique _ _ _ _ _ Hr (rounds_to_exact _ _ _)).
      apply eq_IZR. nra. }
    subst q. apply fix_cents. lia.
  - assert (Hmag := val_magnitude x Hnz).
    assert (Hsmall : Rabs (val x) < pow10 26).
    { destruct Hr as (_ & Hclose & _).
      assert (Hw : Rabs (IZR q * pow10 (-2)) <= (IZR (10 ^ 28) - 1) * pow10 (-2)).
      { rewrite Rabs_mult, (Rabs_pos_eq (pow10 (-2))) by lra. rewrite <- abs_IZR.
        apply Rmult_le_compat_r; [lra|].
        replace (IZR (10 ^ 28) - 1) with (IZR (10 ^ 28 - 1)) by (rewrite minus_IZR; ring).
        apply IZR_le. lia. }
      assert (H26 : pow10 26 = IZR (10 ^ 28) * pow10 (-2)).
      { rewrite pow10_IZR, <- pow10_add by lia. reflexivity. }
      rewrite H26. revert Hclose Hw. unfold Rabs.
      repeat destruct (Rcase_abs _); intros; nra. }
    assert (Hadj : (ndigits (coef x) + expo x - 1 < 26)%Z).
    { apply pow10_lt_inv. lra. }
    destruct (Z.ltb_spec Emax (ndigits (coef x) + expo x - 1)); [unfold Emax in *; lia|].
    destruct (Z.ltb_spec prec (ndigits (coef x) + expo x - 1 - -2 + 1));
      [unfold prec in *; lia|].
    destruct (_rescale ROUND_HALF_UP x (-2)) as [q' e]. cbn [coef expo] in *. subst e.
    assert (Hqq : q' = q).
    { assert (Hu := rounds_to_unique _ _ _ _ _ Hr' Hr). unfold val in Hu.
      cbn [coef expo] in Hu. apply eq_IZR. nra. }
    subst q'.
    assert (Hnd : (ndigits q <= 28)%Z) by (apply ndigits_le; lia).
    destruct (Z.ltb_spec Emax (ndigits q + -2 - 1)); [unfold Emax in *; lia|].
    destruct (Z.ltb_spec prec (ndigits q)); [unfold prec in *; lia|].
    apply fix_cents, Hq.
Qed.

Lemma round_currency_cents (c : Z) :
  (Z.abs c < 10 ^ 28)%Z -> _round_currency (mk c (-2)) = Ok (mk c (-2)).
Proof.
  intros Hc. apply round_currency_complete; [|exact Hc].
  unfold val. cbn [coef expo]. apply rounds_to_exact.
Qed.

Lemma round_currency_mono (x x' y y' : Decimal) :
  _round_currency x = Ok y -> _round_currency x' = Ok y' ->
  val x <= val x' -> val y <= val y'.
Proof.
  intros H H' Hv.
  apply round_currency_spec in H as (_ & _ & _ & Hr).
  apply round_currency_spec in H' as (_ & _ & _ & Hr').
  eapply rounds_to_mono; eauto.
Qed.

End Values.

(** * The payroll processor *)

(** ** The processor only reads the store *)

Lemma read_only_ret {A : Type} (a : A) : read_only (ret a).
Proof. intros st. reflexivity. Qed.

Lemma read_only_raise {A : Type} (e : exn) : read_only (@raise A e).
Proof. intros st. reflexivity. Qed.

Lemma read_only_lift {A : Type} (r : result A) : read_only (lift r).
Proof. intros st. reflexivity. Qed.

Lemma read_only_getattr {A : Type} (attr : Employee -> A) (employee : ref) :
  read_only (getattr attr employee).
Proof. intros st. reflexivity. Qed.

Lemma read_only_bind {A B : Type} (m : M A) (k : A -> M B) :
  read_only m -> (forall a, read_only (k a)) -> read_only (bind m k).
Proof.
  intros Hm Hk st. unfold bind. specialize (Hm st).
  destruct (m st) as [st' [a|e]]; cbn in *; subst st'; [apply Hk|reflexivity].
Qed.

Lemma read_only_if {A : Type} (b : bool) (m1 m2 : M A) :
  read_only m1 -> read_only m2 -> read_only (if b then m1 else m2).
Proof. destruct b; auto. Qed.

Create HintDb frame.
#[export] Hint Resolve read_only_ret read_only_raise read_only_lift
  read_only_getattr read_only_if : frame.
#[export] Hint Extern 2 (read_only (bind _ _)) =>
  apply read_only_bind; [|intros ?] : frame.

Lemma read_only_calculate_gross_pay (employee : ref) (h : Decimal) :
  read_only (calculate_gross_pay employee h).
Proof. unfold calculate_gross_pay. auto 20 with frame. Qed.

Lemma read_only_calculate_deductions (employee : ref) (gross : Decimal) :
  read_only (calculate_deductions employee gross).
Proof. unfold calculate_deductions. auto 20 with frame. Qed.

#[export] Hint Resolve read_only_calculate_gross_pay
  read_only_calculate_deductions : frame.

Lemma read_only_generate_pay_slip (employee : ref) (h : Decimal) :
  read_only (generate_pay_slip employee h).
Proof. unfold generate_pay_slip. auto 20 with frame. Qed.

Lemma read_only_hours_or_days_of (m : dict EmployeeId Decimal) (employee : ref) :
  read_only (hours_or_days_of m employee).
Proof.
  unfold hours_or_days_of.
  apply read_only_bind; [auto with frame|intros i].
  apply read_only_if; [|auto 20 with frame].
  apply read_only_bind; [auto with frame|intros j].
  destruct (dict_get m j); auto with frame.
Qed.

#[export] Hint Resolve read_only_generate_pay_slip read_only_hours_or_days_of : frame.

Lemma read_only_payroll_loop (m : dict EmployeeId Decimal) (l : list ref) :
  forall payslips, read_only (payroll_loop m l payslips).
Proof.
  induction l as [|employee rest IH]; intros payslips; cbn [payroll_loop];
    auto 20 with frame.
Qed.

Lemma read_only_process_monthly_payroll (l : list ref)
    (m : option (dict EmployeeId Decimal)) :
  read_only (process_monthly_payroll l m).
Proof. unfold process_monthly_payroll. apply read_only_payroll_loop. Qed.

(** A read-only computation is determined by its result. *)
Lemma read_only_run {A : Type} (m : M A) (st : Store) :
  read_only m -> m st = (st, run m st).
Proof.
  intros H. unfold run. specialize (H st). destruct (m st); cbn in *. congruence.
Qed.

Lemma run_bind {A B : Type} (m : M A) (k : A -> M B) (st : Store) :
  read_only m ->
  run (bind m k) st = match run m st with
                      | Ok a => run (k a) st
                      | Raise e => Raise e
                      end.
Proof.
  intros H. unfold run at 1, bind. rewrite (read_only_run m st H).
  destruct (run m st); reflexivity.
Qed.

Lemma run_ret {A : Type} (a : A) (st : Store) : run (ret a) st = Ok a.
Proof. reflexivity. Qed.

Lemma run_raise {A : Type} (e : exn) (st : Store) : run (@raise A e) st = Raise e.
Proof. reflexivity. Qed.

Lemma run_lift {A : Type} (r : result A) (st : Store) : run (lift r) st = r.
Proof. reflexivity. Qed.

Lemma run_getattr {A : Type} (attr : Employee -> A) (employee : ref) (st : Store) :
  run (getattr attr employee) st = Ok (attr (st employee)).
Proof. reflexivity. Qed.

Lemma run_if {A : Type} (b : bool) (m1 m2 : M A) (st : Store) :
  run (if b then m1 else m2) st = if b then run m1 st else run m2 st.
Proof. destruct b; reflexivity. Qed.

Ltac run_step :=
  first [ rewrite run_bind by auto 20 with frame
        | rewrite run_getattr | rewrite run_ret | rewrite run_raise
        | rewrite run_lift | rewrite run_if ];
  cbv beta iota.

(** ** What each method computes, by employee attributes *)

Section Runs.
Variable st : Store.
Variable e : ref.

Lemma gross_full_time (h : Decimal) :
  employee_type (st e) = Some FULL_TIME ->
  run (calculate_gross_pay e h) st = _round_currency (pay_rate (st e)).
Proof.
  intros Ht. unfold calculate_gross_pay. repeat run_step.
  rewrite Ht. cbn [type_is EmployeeType_eqb]. repeat run_step. reflexivity.
Qed.

Lemma gross_part_time (h : Decimal) :
  employee_type (st e) = Some PART_TIME ->
  run (calculate_gross_pay e h) st =
    if gtb h (of_Z MAX_PART_TIME_HOURS) then Raise (ValueError HoursExceeded)
    else gross <-- mul (pay_rate (st e)) h ;; _round_currency gross.
Proof.
  intros Ht. unfold calculate_gross_pay. repeat run_step.
  rewrite Ht. cbn [type_is EmployeeType_eqb]. repeat run_step.
  destruct (gtb h _); [reflexivity|]. destruct (mul _ h); reflexivity.
Qed.

Lemma gross_contractor (h : Decimal) :
  employee_type (st e) = Some CONTRACTOR ->
  run (calculate_gross_pay e h) st =
    gross <-- mul (pay_rate (st e)) h ;; _round_currency gross.
Proof.
  intros Ht. unfold calculate_gross_pay. repeat run_step.
  rewrite Ht. cbn [type_is EmployeeType_eqb]. repeat run_step.
  destruct (mul _ h); reflexivity.
Qed.

Lemma gross_unknown (h : Decimal) :
  employee_type (st e) = None ->
  run (calculate_gross_pay e h) st = Raise (ValueError UnknownEmployeeType).
Proof.
  intros Ht. unfold calculate_gross_pay. repeat run_step.
  rewrite Ht. cbn [type_is EmployeeType_eqb]. repeat run_step. reflexivity.
Qed.

(** Whatever the category, a gross pay that is returned went through
    [_round_currency]. *)
Lemma gross_is_rounded (h gross : Decimal) :
  run (calculate_gross_pay e h) st = Ok gross ->
  exists x, _round_currency x = Ok gross.
Proof.
  destruct (employee_type (st e)) as [[| |]|] eqn:Ht.
  - rewrite gross_full_time by exact Ht. eauto.
  - rewrite gross_part_time by exact Ht. destruct (gtb h _); [discriminate|].
    destruct (mul _ h); [cbn [rbind]; eauto|discriminate].
  - rewrite gross_contractor by exact Ht.
    destruct (mul _ h); [cbn [rbind]; eauto|discriminate].
  - rewrite gross_unknown by exact Ht. discriminate.
Qed.

Lemma deductions_run (gross : Decimal) :
  run (calculate_deductions e gross) st =
    if has_retirement (st e) then
      v <-- (p <-- mul gross RETIREMENT_RATE ;; _round_currency p) ;;
      Ok (health_entry st e ++ retirement_entry st e v ++ union_entry st e)
    else Ok (health_entry st e ++ union_entry st e).
Proof.
  unfold calculate_deductions, health_entry, retirement_entry, union_entry.
  repeat run_step.
  destruct (type_is _ FULL_TIME); repeat run_step;
    (destruct (has_retirement (st e)); repeat run_step;
     [ destruct (p <-- mul gross RETIREMENT_RATE ;; _round_currency p) as [v|];
       cbn [rbind]; [repeat run_step|reflexivity] | ];
     destruct (is_union_member (st e)); repeat run_step; reflexivity).
Qed.

Lemma generate_run (h : Decimal) :
  run (generate_pay_slip e h) st =
    gross_pay <-- run (calculate_gross_pay e h) st ;;
    tax_amount <-- calculate_tax gross_pay ;;
    deductions <-- run (calculate_deductions e gross_pay) st ;;
    total <-- py_sum (dict_values deductions) ;;
    net_pay <-- (d <-- sub gross_pay tax_amount ;;
                 d <-- sub d total ;;
                 _round_currency d) ;;
    Ok {| employee := e; gross_pay := gross_pay; tax_amount := tax_amount;
          deductions := deductions; net_pay := net_pay |}.
Proof.
  unfold generate_pay_slip. run_step.
  destruct (run (calculate_gross_pay e h) st) as [g|]; [|reflexivity].
  cbn [rbind]. do 2 run_step.
  destruct (calculate_tax g) as [t|]; [|reflexivity].
  cbn [rbind]. run_step.
  destruct (run (calculate_deductions e g) st) as [d|]; [|reflexivity].
  cbn [rbind]. do 2 run_step.
  destruct (py_sum (dict_values d)) as [s|]; [|reflexivity].
  cbn [rbind]. do 2 run_step.
  destruct (rbind (sub g t) _); reflexivity.
Qed.

End Runs.

(** ** What the batch runner returns *)

Lemma map_result_Forall2 {A B : Type} (f : A -> result B) (l : list A) :
  forall bs, map_result f l = Ok bs <-> Forall2 (fun a b => f a = Ok b) l bs.
Proof.
  induction l as [|a l IH]; intros bs; cbn [map_result].
  - split; [intros [= <-]; constructor|intros H; inversion H; reflexivity].
  - split.
    + destruct (f a) as [b|] eqn:Hb; cbn [rbind]; [|discriminate].
      destruct (map_result f l) as [bs'|]; cbn [rbind]; [|discriminate].
      intros [= <-]. constructor; [exact Hb|]. apply IH. reflexivity.
    + intros H. inversion H as [|a' b l' bs' Hb Hbs]; subst.
      rewrite Hb. cbn [rbind]. apply IH in Hbs. rewrite Hbs. reflexivity.
Qed.

Lemma Forall2_nth_error_l {A B : Type} (R : A -> B -> Prop) (l : list A) (bs : list B) :
  Forall2 R l bs ->
  forall i a, nth_error l i = Some a -> exists b, nth_error bs i = Some b /\ R a b.
Proof.
  induction 1 as [|a0 b0 l bs H0 H IH]; intros [|i] a Hi; cbn in *; try discriminate.
  - injection Hi as <-. eauto.
  - eauto.
Qed.

Lemma hours_or_days_of_run (m : dict EmployeeId Decimal) (e : ref) (st : Store) :
  run (hours_or_days_of m e) st = Ok (spec_units (Some m) (st e)).
Proof.
  unfold hours_or_days_of, spec_units, dict_mem. repeat run_step.
  destruct (dict_get m (id (st e))) as [h|] eqn:Hget; repeat run_step.
  - reflexivity.
  - destruct (employee_type (st e)) as [[| |]|]; cbn [type_is EmployeeType_eqb];
      repeat run_step; reflexivity.
Qed.

Lemma payroll_loop_run (m : dict EmployeeId Decimal) (st : Store) (l : list ref) :
  forall payslips,
    run (payroll_loop m l payslips) st =
      ps <-- map_result
               (fun e => run (generate_pay_slip e (spec_units (Some m) (st e))) st) l ;;
      Ok (payslips ++ ps).
Proof.
  induction l as [|e rest IH]; intros payslips; cbn [payroll_loop map_result].
  - rewrite run_ret. cbn [rbind]. rewrite app_nil_r. reflexivity.
  - run_step. rewrite hours_or_days_of_run. run_step.
    destruct (run (generate_pay_slip e _) st) as [p|]; cbn [rbind]; [|reflexivity].
    rewrite IH. destruct (map_result _ rest); cbn [rbind]; [|reflexivity].
    rewrite <- app_assoc. reflexivity.
Qed.

Lemma map_result_ext {A B : Type} (f g : A -> result B) (l : list A) :
  (forall a, f a = g a) -> map_result f l = map_result g l.
Proof.
  intros Hfg. induction l as [|a l IH]; cbn [map_result]; [reflexivity|].
  rewrite Hfg, IH. reflexivity.
Qed.

Lemma process_monthly_payroll_run (st : Store) (l : list ref)
    (m : option (dict EmployeeId Decimal)) :
  run (process_monthly_payroll l m) st =
    map_result (fun e => run (generate_pay_slip e (spec_units m (st e))) st) l.
Proof.
  unfold process_monthly_payroll. rewrite payroll_loop_run.
  rewrite (map_result_ext _
             (fun e => run (generate_pay_slip e (spec_units m (st e))) st))
    by (intros e; destruct m; reflexivity).
  destruct (map_result _ l); reflexivity.
Qed.

(** ** The employees of a payslip and of a batch *)

Lemma generate_inv (st : Store) (e : ref) (h : Decimal) (p : PaySlip) :
  run (generate_pay_slip e h) st = Ok p ->
  exists total d1 d2,
    employee p = e /\
    run (calculate_gross_pay e h) st = Ok (gross_pay p) /\
    calculate_tax (gross_pay p) = Ok (tax_amount p) /\
    run (calculate_deductions e (gross_pay p)) st = Ok (deductions p) /\
    py_sum (dict_values (deductions p)) = Ok total /\
    sub (gross_pay p) (tax_amount p) = Ok d1 /\
    sub d1 total = Ok d2 /\
    _round_currency d2 = Ok (net_pay p).
Proof.
  rewrite generate_run.
  destruct (run (calculate_gross_pay e h) st) as [g|] eqn:Hg; cbn [rbind]; [|discriminate].
  destruct (calculate_tax g) as [t|] eqn:Ht; cbn [rbind]; [|discriminate].
  destruct (run (calculate_deductions e g) st) as [d|] eqn:Hd; cbn [rbind]; [|discriminate].
  destruct (py_sum (dict_values d)) as [total|] eqn:Hs; cbn [rbind]; [|discriminate].
  destruct (sub g t) as [d1|] eqn:Hd1; cbn [rbind]; [|discriminate].
  destruct (sub d1 total) as [d2|] eqn:Hd2; cbn [rbind]; [|discriminate].
  destruct (_round_currency d2) as [n|] eqn:Hn; cbn [rbind]; [|discriminate].
  intros [= <-]. cbn [employee gross_pay tax_amount deductions net_pay].
  exists total, d1, d2. repeat split; assumption.
Qed.

(** C8 -- [generate_pay_slip] and [process_monthly_payroll] leave the store as
    they found it, whether they return or raise: no attribute ([id], [name],
    [employee_type], [pay_rate], [is_union_member], [has_retirement]) of any
    employee changes.  The payslip returned for an employee holds the very
    reference it was given, and the payslips of a batch hold the references
    of the input list, in order. *)
Theorem employees_never_modified (st : Store) :
  (forall e h,
     let (st', r) := generate_pay_slip e h st in
     st' = st /\ match r with Ok p => employee p = e | Raise _ => True end) /\
  (forall l m,
     let (st', r) := process_monthly_payroll l m st in
     st' = st /\ match r with Ok ps => map employee ps = l | Raise _ => True end).
Proof.
  split.
  - intros e h. rewrite (read_only_run _ st (read_only_generate_pay_slip e h)).
    split; [reflexivity|].
    destruct (run (generate_pay_slip e h) st) as [p|] eqn:Hp; [|exact I].
    apply generate_inv in Hp as (? & ? & ? & He & _). exact He.
  - intros l m. rewrite (read_only_run _ st (read_only_process_monthly_payroll l m)).
    split; [reflexivity|].
    destruct (run (process_monthly_payroll l m) st) as [ps|] eqn:Hps; [|exact I].
    rewrite process_monthly_payroll_run in Hps. apply map_result_Forall2 in Hps.
    induction Hps as [|e p l ps Hp _ IH]; cbn [map]; [reflexivity|].
    apply generate_inv in Hp as (? & ? & ? & He & _). rewrite He, IH. reflexivity.
Qed.

(** C7 -- [process_monthly_payroll] is [generate_pay_slip] applied to each
    employee of the list in order, with the worked units of [spec_units]: the
    value of the mapping when the employee's id is a key, and otherwise 0 for
    [FULL_TIME], 80 for [PART_TIME] and 20 for [CONTRACTOR].  When it returns,
    the list has the length of the input and its i-th payslip is the payslip
    of the i-th employee. *)
Theorem process_monthly_payroll_in_order (st : Store) (employee_list : list ref)
    (hours_or_days_map : option (dict EmployeeId Decimal)) :
  process_monthly_payroll employee_list hours_or_days_map st =
    (st, map_result
           (fun e => run (generate_pay_slip e (spec_units hours_or_days_map (st e))) st)
           employee_list) /\
  (default_units (Some FULL_TIME) = of_Z 0 /\
   default_units (Some PART_TIME) = of_Z 80 /\
   default_units (Some CONTRACTOR) = of_Z 20) /\
  forall payslips,
    run (process_monthly_payroll employee_list hours_or_days_map) st = Ok payslips ->
    List.length payslips = List.length employee_list /\
    forall i e, nth_error employee_list i = Some e ->
      exists p, nth_error payslips i = Some p /\
        run (generate_pay_slip e (spec_units hours_or_days_map (st e))) st = Ok p.
Proof.
  split; [|split; [auto|]].
  - rewrite (read_only_run _ st (read_only_process_monthly_payroll _ _)).
    rewrite process_monthly_payroll_run. reflexivity.
  - intros payslips Hps. rewrite process_monthly_payroll_run in Hps.
    apply map_result_Forall2 in Hps. split.
    + symmetry. eapply Forall2_length, Hps.
    + intros i e Hi. exact (Forall2_nth_error_l _ _ _ Hps i e Hi).
Qed.

Lemma process_monthly_payroll_in_order_witness :
  run (process_monthly_payroll [0; 1; 2; 3; 4; 5]%nat (Some demo_hours)) (store_of demo)
    = Ok demo_payslips /\
  List.length demo_payslips = 6%nat.
Proof.
  assert (H : run (process_monthly_payroll [0; 1; 2; 3; 4; 5]%nat (Some demo_hours))
                  (store_of demo) = Ok demo_payslips) by (vm_compute; reflexivity).
  split; [exact H|].
  exact (proj1 (proj2 (proj2 (process_monthly_payroll_in_order
                                (store_of demo) _ (Some demo_hours))) _ H)).
Defined.

(** ** [_round_currency] is rounding to cents *)

Lemma round_cents_rescale (x : Decimal) :
  _rescale ROUND_HALF_UP x (-2) = mk (round_cents x) (-2).
Proof.
  unfold _rescale, round_cents. destruct (Z.eqb_spec (coef x) 0) as [Hz|Hnz].
  - rewrite Hz. destruct (-2 <=? expo x); reflexivity.
  - destruct (Z.leb_spec (-2) (expo x)); do 2 f_equal; lia.
Qed.

Lemma round_cents_rounds_to (x : Decimal) :
  rounds_to ROUND_HALF_UP (-2) (val x) (IZR (round_cents x) * pow10 (-2)).
Proof.
  destruct (val_rescale ROUND_HALF_UP x (-2)) as [H _].
  rewrite round_cents_rescale in H. exact H.
Qed.

Lemma round_currency_eval (x : Decimal) : _round_currency x = half_up_2 x.
Proof.
  unfold half_up_2. destruct (Z.ltb_spec (Z.abs (round_cents x)) (10 ^ 28)) as [Hq|Hq].
  - apply round_currency_complete; [apply round_cents_rounds_to|exact Hq].
  - assert (Hnd : 28 < ndigits (round_cents x)) by (apply ndigits_gt; lia).
    unfold _round_currency, quantize. cbn [expo]. change (negb _) with false. cbv iota.
    rewrite round_cents_rescale. cbn [coef expo].
    destruct (Z.eqb_spec (coef x) 0) as [Hz|_].
    { exfalso. unfold round_cents in Hq. rewrite Hz in Hq.
      destruct (-2 <=? expo x);
        [rewrite Z.mul_0_l in Hq|change (round_div _ 0 _) with 0 in Hq]; lia. }
    destruct (Emax <? _); [reflexivity|].
    destruct (prec <? _); [reflexivity|].
    destruct (Emax <? _); [reflexivity|].
    destruct (Z.ltb_spec prec (ndigits (round_cents x))); [reflexivity|].
    unfold prec in *. lia.
Qed.

Lemma mul_representable (x y : Decimal) :
  representable (exact_mul x y) -> mul x y = Ok (exact_mul x y).
Proof.
  intros [Hc He]. unfold mul. apply fix_small; [|exact He].
  apply ndigits_le; [unfold prec; lia|exact Hc].
Qed.

(** ** Gross pay *)

Lemma gtb_leb (x y : Decimal) : gtb x y = negb (leb x y).
Proof. unfold gtb, leb. destruct (cmp x y); reflexivity. Qed.

Lemma gross_product (x y : Decimal) :
  representable (exact_mul x y) ->
  (gross <-- mul x y ;; _round_currency gross) = half_up_2 (exact_mul x y).
Proof.
  intros H. rewrite (mul_representable x y H). cbn [rbind]. apply round_currency_eval.
Qed.




Lemma map_result_raise {A B : Type} (f : A -> result B) (before after : list A) (a : A)
    (x : exn) :
  (forall b, In b before -> exists y, f b = Ok y) ->
  f a = Raise x ->
  map_result f (before ++ a :: after) = Raise x.
Proof.
  intros Hb Ha. induction before as [|b before IH]; cbn [app map_result].
  - rewrite Ha. reflexivity.
  - destruct (Hb b (or_introl eq_refl)) as [y ->]. cbn [rbind].
    rewrite IH by (intros b' Hin; apply Hb; right; exact Hin). reflexivity.
Qed.

(** ** Monotonicity of the operations *)

Section Monotone.
Local Open Scope R_scope.

Lemma mul_mono (x x' k z z' : Decimal) :
  0 <= val k -> val x <= val x' ->
  mul x k = Ok z -> mul x' k = Ok z' -> val z <= val z'.
Proof.
  intros Hk Hx Hz Hz'. apply mul_fl in Hz, Hz'.
  eapply fl_mono; eauto. nra.
Qed.

Lemma sub_mono (x x' k z z' : Decimal) :
  val x <= val x' -> sub x k = Ok z -> sub x' k = Ok z' -> val z <= val z'.
Proof.
  intros Hx Hz Hz'. apply sub_fl in Hz, Hz'.
  eapply fl_mono; eauto. lra.
Qed.

Lemma add_mono (k x x' z z' : Decimal) :
  val x <= val x' -> add k x = Ok z -> add k x' = Ok z' -> val z <= val z'.
Proof.
  intros Hx Hz Hz'. apply add_fl in Hz, Hz'.
  eapply fl_mono; eauto. lra.
Qed.

(** The retirement contribution, [_round_currency(gross * RETIREMENT_RATE)],
    grows with the gross pay. *)
Lemma retirement_mono (g g' v v' : Decimal) :
  val g <= val g' ->
  (p <-- mul g RETIREMENT_RATE ;; _round_currency p) = Ok v ->
  (p <-- mul g' RETIREMENT_RATE ;; _round_currency p) = Ok v' ->
  val v <= val v'.
Proof.
  intros Hg Hv Hv'.
  destruct (mul g RETIREMENT_RATE) as [p|] eqn:Hp; [|discriminate].
  destruct (mul g' RETIREMENT_RATE) as [p'|] eqn:Hp'; [|discriminate].
  cbn [rbind] in *.
  eapply round_currency_mono; eauto.
  eapply (mul_mono g g' RETIREMENT_RATE); eauto.
  unfold val, RETIREMENT_RATE. cbn [coef expo].
  assert (H := pow10_pos (-2)). lra.
Qed.

End Monotone.

(** ** Deductions *)

Lemma deductions_inv (st : Store) (e : ref) (gross : Decimal) (d : dict string Decimal) :
  run (calculate_deductions e gross) st = Ok d ->
  exists v,
    d = health_entry st e ++ retirement_entry st e v ++ union_entry st e /\
    (has_retirement (st e) = true ->
       (p <-- mul gross RETIREMENT_RATE ;; _round_currency p) = Ok v).
Proof.
  rewrite deductions_run. unfold retirement_entry.
  destruct (has_retirement (st e)).
  - destruct (p <-- mul gross RETIREMENT_RATE ;; _round_currency p) as [v|];
      cbn [rbind]; [|discriminate].
    intros [= <-]. exists v. split; [reflexivity|]. reflexivity.
  - intros [= <-]. exists (of_Z 0). split; [reflexivity|discriminate].
Qed.

(** Which keys a dictionary built from the three entries holds. *)
Lemma deductions_keys (st : Store) (e : ref) (v : Decimal) :
  let d := health_entry st e ++ retirement_entry st e v ++ union_entry st e in
  dict_get d "health_insurance"%string
    = (if type_is (employee_type (st e)) FULL_TIME then Some HEALTH_INSURANCE else None) /\
  dict_get d "retirement"%string
    = (if has_retirement (st e) then Some v else None) /\
  dict_get d "union_dues"%string
    = (if is_union_member (st e) then Some UNION_DUES else None).
Proof.
  unfold health_entry, retirement_entry, union_entry.
  destruct (type_is _ FULL_TIME), (has_retirement (st e)), (is_union_member (st e));
    repeat split; reflexivity.
Qed.

Lemma eqb_val (x y : Decimal) : eqb x y = true <-> val x = val y.
Proof.
  unfold eqb. assert (H := cmp_val x y).
  destruct (cmp x y); split; intros; try reflexivity; try lra; discriminate.
Qed.

Lemma type_is_true (t : option EmployeeType) (x : EmployeeType) :
  type_is t x = true <-> t = Some x.
Proof.
  destruct t as [[| |]|], x; cbn; split; intros H; try reflexivity;
    try discriminate; inversion H.
Qed.

Lemma dict_mem_get {V : Type} (d : dict string V) (k : string) (o : option V) :
  dict_get d k = o -> dict_mem d k = match o with Some _ => true | None => false end.
Proof. intros <-. reflexivity. Qed.

(** C5 (amended) -- the dictionary [calculate_deductions] returns holds
    ["health_insurance"] (150) exactly for a [FULL_TIME] employee,
    ["retirement"] exactly when [has_retirement] is set and ["union_dues"]
    (50) exactly when [is_union_member] is set, and no other key.  The
    retirement value is 5% of the gross pay rounded half-up to two decimals
    when that product has at most 28 digits.  The call returns whenever the
    retirement flag is off, and with the flag on when the product has at most
    28 digits and rounds to less than [10 ^ 26]. *)
Theorem calculate_deductions_entries (st : Store) (e : ref) (gross : Decimal) :
  (forall d, run (calculate_deductions e gross) st = Ok d ->
     dict_get d "health_insurance"%string
       = (if type_is (employee_type (st e)) FULL_TIME then Some (of_Z 150) else None) /\
     dict_get d "union_dues"%string
       = (if is_union_member (st e) then Some (of_Z 50) else None) /\
     (has_retirement (st e) = false -> dict_get d "retirement"%string = None) /\
     (has_retirement (st e) = true ->
        exists v, dict_get d "retirement"%string = Some v /\
          (representable (exact_mul gross RETIREMENT_RATE) ->
             half_up_2 (exact_mul gross RETIREMENT_RATE) = Ok v)) /\
     (forall k, In k (dict_keys d) ->
        k = "health_insurance" \/ k = "retirement" \/ k = "union_dues")%string /\
     (employee_type (st e) = Some FULL_TIME -> has_retirement (st e) = true ->
        is_union_member (st e) = true ->
        dict_keys d = ["health_insurance"; "retirement"; "union_dues"]%string) /\
     (employee_type (st e) <> Some FULL_TIME ->
        dict_mem d "health_insurance"%string = false)) /\
  (has_retirement (st e) = false \/
   (representable (exact_mul gross RETIREMENT_RATE) /\
    Z.abs (round_cents (exact_mul gross RETIREMENT_RATE)) < 10 ^ 28) ->
   exists d, run (calculate_deductions e gross) st = Ok d).
Proof.
  split.
  - intros d Hd. apply deductions_inv in Hd as (v & -> & Hv).
    destruct (deductions_keys st e v) as (Hh & Hr & Hu).
    split; [exact Hh|]. split; [exact Hu|]. split; [|split; [|split; [|split]]].
    + intros Hf. rewrite Hr, Hf. reflexivity.
    + intros Hf. exists v. split; [rewrite Hr, Hf; reflexivity|].
      intros Hrep. rewrite <- (gross_product _ _ Hrep). apply Hv, Hf.
    + unfold health_entry, retirement_entry, union_entry.
      destruct (type_is _ FULL_TIME), (has_retirement (st e)), (is_union_member (st e));
        cbn; intuition.
    + intros Ht Hf Hm. apply type_is_true in Ht.
      unfold health_entry, retirement_entry, union_entry. rewrite Ht, Hf, Hm. reflexivity.
    + intros Ht. rewrite (dict_mem_get _ _ _ Hh).
      destruct (type_is _ FULL_TIME) eqn:Hty; [|reflexivity].
      apply type_is_true in Hty. contradiction.
  - intros H. rewrite deductions_run.
    destruct (has_retirement (st e)); [|eauto].
    destruct H as [H|[Hrep Hsmall]]; [discriminate|].
    rewrite (gross_product _ _ Hrep). unfold half_up_2.
    destruct (Z.ltb_spec (Z.abs (round_cents (exact_mul gross RETIREMENT_RATE))) (10 ^ 28));
      [cbn [rbind]; eauto|lia].
Qed.

(** The employee of [test_all_deductions_combined]: all three deductions. *)
Lemma calculate_deductions_entries_witness :
  dict_get [("health_insurance", of_Z 150); ("retirement", dec 30000 (-2));
            ("union_dues", of_Z 50)]%string "union_dues"%string
    = Some (of_Z 50).
Proof.
  refine (eq_trans
            (proj1 (proj2 (proj1 (calculate_deductions_entries
               (store_of [emp 8 "Henry" FULL_TIME (of_Z 6000) true true])
               0%nat (of_Z 6000)) _ _))) _).
  - vm_compute. reflexivity.
  - reflexivity.
Defined.

(** C5, as stated, fails for a gross pay of 2000000000000000000000000.099:
    5% of it is 100000000000000000000000.00495, which rounds half-up to
    ...000.00, but the product has 29 digits, the context rounds it to
    ...000.0050 first, and the dictionary holds ...000.01. *)
Lemma retirement_rounded_twice :
  let st := store_of [emp 4 "Dave" PART_TIME (of_Z 25) false true] in
  let gross := dec 2000000000000000000000000099 (-3) in
  has_retirement (st 0%nat) = true /\
  run (calculate_deductions 0%nat gross) st
    = Ok [("retirement"%string, dec 10000000000000000000000001 (-2))] /\
  half_up_2 (exact_mul gross RETIREMENT_RATE)
    = Ok (dec 10000000000000000000000000 (-2)).
Proof. repeat split; vm_compute; reflexivity. Qed.

(** C4 (amended) -- in the dictionary [calculate_deductions] returns, a key
    is present exactly when its deduction applies; ["health_insurance"] and
    ["union_dues"] map to the positive amounts 150 and 50; ["retirement"]
    maps to a positive amount when the gross pay is at least 0.10, and to a
    zero or negative amount when the gross pay is zero or negative (zero for
    a zero gross pay). *)
Theorem calculate_deductions_values (st : Store) (e : ref) (gross : Decimal)
    (d : dict string Decimal) :
  run (calculate_deductions e gross) st = Ok d ->
  (dict_mem d "health_insurance"%string = type_is (employee_type (st e)) FULL_TIME /\
   dict_mem d "retirement"%string = has_retirement (st e) /\
   dict_mem d "union_dues"%string = is_union_member (st e)) /\
  (forall v, dict_get d "health_insurance"%string = Some v ->
     v = of_Z 150 /\ gtb v (of_Z 0) = true) /\
  (forall v, dict_get d "union_dues"%string = Some v ->
     v = of_Z 50 /\ gtb v (of_Z 0) = true) /\
  (forall v, dict_get d "retirement"%string = Some v ->
     (leb (dec 10 (-2)) gross = true -> gtb v (of_Z 0) = true) /\
     (leb gross (of_Z 0) = true -> leb v (of_Z 0) = true) /\
     (eqb gross (of_Z 0) = true -> eqb v (of_Z 0) = true)).
Proof.
  intros Hd. apply deductions_inv in Hd as (v & -> & Hv).
  destruct (deductions_keys st e v) as (Hh & Hr & Hu).
  split; [|split; [|split]].
  - rewrite (dict_mem_get _ _ _ Hh), (dict_mem_get _ _ _ Hr), (dict_mem_get _ _ _ Hu).
    destruct (type_is _ FULL_TIME), (has_retirement (st e)), (is_union_member (st e));
      repeat split; reflexivity.
  - intros v'. rewrite Hh. destruct (type_is _ FULL_TIME); [|discriminate].
    intros [= <-]. split; reflexivity.
  - intros v'. rewrite Hu. destruct (is_union_member (st e)); [|discriminate].
    intros [= <-]. split; reflexivity.
  - intros v'. rewrite Hr. destruct (has_retirement (st e)); [|discriminate].
    intros [= <-]. specialize (Hv eq_refl).
    assert (H10 : (p <-- mul (dec 10 (-2)) RETIREMENT_RATE ;; _round_currency p)
                  = Ok (dec 1 (-2))) by (vm_compute; reflexivity).
    assert (H0 : (p <-- mul (of_Z 0) RETIREMENT_RATE ;; _round_currency p)
                 = Ok (dec 0 (-2))) by (vm_compute; reflexivity).
    assert (Hv1 : val (dec 1 (-2)) = (1 / 100)%R) by apply val_cents.
    assert (Hv0 : val (dec 0 (-2)) = (0 / 100)%R) by apply val_cents.
    assert (Hz : val (of_Z 0) = 0%R) by apply val_of_Z.
    split; [|split].
    + intros Hle. apply leb_val in Hle. apply gtb_val.
      assert (H := retirement_mono _ _ _ _ Hle H10 Hv). lra.
    + intros Hle. apply leb_val in Hle. apply leb_val.
      assert (H := retirement_mono _ _ _ _ Hle Hv H0). lra.
    + intros Heq. apply eqb_val in Heq. apply eqb_val.
      assert (H1 : (val gross <= val (of_Z 0))%R) by lra.
      assert (H2 : (val (of_Z 0) <= val gross)%R) by lra.
      assert (H3 := retirement_mono _ _ _ _ H1 Hv H0).
      assert (H4 := retirement_mono _ _ _ _ H2 H0 Hv). lra.
Qed.

(** The employee of [test_retirement_contribution]: 5% of 2000 is positive. *)
Lemma calculate_deductions_values_witness :
  gtb (dec 10000 (-2)) (of_Z 0) = true.
Proof.
  refine (proj1 (proj2 (proj2 (proj2 (calculate_deductions_values
            (store_of [emp 4 "Dave" PART_TIME (of_Z 25) false true])
            0%nat (of_Z 2000)
            [("retirement"%string, dec 10000 (-2))] _)))
            (dec 10000 (-2)) eq_refl) _).
  - vm_compute. reflexivity.
  - vm_compute. reflexivity.
Defined.

(** C4, as stated, fails for a contractor with the retirement flag and no
    day worked: the gross pay is 0.00, and the dictionary holds the key
    ["retirement"] with the value 0.00. *)
Lemma retirement_of_zero_gross_is_zero :
  let st := store_of [emp 3 "Carol" CONTRACTOR (of_Z 200) false true] in
  run (calculate_gross_pay 0%nat (of_Z 0)) st = Ok (dec 0 (-2)) /\
  run (calculate_deductions 0%nat (dec 0 (-2))) st
    = Ok [("retirement"%string, dec 0 (-2))] /\
  eqb (dec 0 (-2)) (of_Z 0) = true.
Proof. repeat split; vm_compute; reflexivity. Qed.

(** ** Arithmetic on amounts in cents *)

Lemma leb_cents (c k : Z) : leb (mk c (-2)) (of_Z k) = (c <=? k * 100).
Proof.
  unfold leb, cmp, of_Z. cbn [coef expo].
  change (Z.min (-2) 0) with (-2). change (10 ^ (-2 - -2)) with 1.
  change (10 ^ (0 - -2)) with 100.
  destruct (Z.compare_spec (c * 1) (k * 100)), (Z.leb_spec c (k * 100));
    try reflexivity; lia.
Qed.

Lemma sub_cents_int (c k : Z) :
  Z.abs (c - k * 100) < 10 ^ 28 ->
  sub (mk c (-2)) (of_Z k) = Ok (mk (c - k * 100) (-2)).
Proof.
  intros H. unfold sub, add, neg, of_Z. cbn [coef expo].
  change (Z.min (-2) 0) with (-2). change (10 ^ (-2 - -2)) with 1.
  change (10 ^ (0 - -2)) with 100.
  replace (c * 1 + - k * 100) with (c - k * 100) by lia. apply fix_cents, H.
Qed.

Lemma sub_cents (a b : Z) :
  Z.abs (a - b) < 10 ^ 28 -> sub (mk a (-2)) (mk b (-2)) = Ok (mk (a - b) (-2)).
Proof.
  intros H. unfold sub, add, neg. cbn [coef expo].
  change (Z.min (-2) (-2)) with (-2). change (10 ^ (-2 - -2)) with 1.
  replace (a * 1 + - b * 1) with (a - b) by lia. apply fix_cents, H.
Qed.

Lemma add_cents (a b : Z) :
  Z.abs (a + b) < 10 ^ 28 -> add (mk a (-2)) (mk b (-2)) = Ok (mk (a + b) (-2)).
Proof.
  intros H. unfold add. cbn [coef expo].
  change (Z.min (-2) (-2)) with (-2). change (10 ^ (-2 - -2)) with 1.
  replace (a * 1 + b * 1) with (a + b) by lia. apply fix_cents, H.
Qed.

Lemma mul_cents_rate (c r : Z) :
  Z.abs (c * r) < 10 ^ 28 -> mul (mk c (-2)) (mk r (-2)) = Ok (mk (c * r) (-4)).
Proof.
  intros H. apply (mul_representable (mk c (-2)) (mk r (-2))).
  unfold representable, exact_mul, Etiny, Etop, Emin, Emax, prec. cbn [coef expo]. lia.
Qed.

Lemma add_cents_x10000 (a b : Z) :
  Z.abs (a * 100 + b) < 10 ^ 28 ->
  add (mk a (-2)) (mk b (-4)) = Ok (mk (a * 100 + b) (-4)).
Proof.
  intros H. unfold add. cbn [coef expo].
  change (Z.min (-2) (-4)) with (-4). change (10 ^ (-2 - -4)) with 100.
  change (10 ^ (-4 - -4)) with 1. rewrite Z.mul_1_r.
  apply fix_small; [apply ndigits_le; unfold prec; lia|].
  unfold Etiny, Etop, Emin, Emax, prec. lia.
Qed.

(** ** Tax *)

Lemma calculate_tax_unfold (gross : Decimal) :
  calculate_tax gross = tax <-- tax_before_rounding gross ;; _round_currency tax.
Proof.
  unfold calculate_tax, tax_before_rounding.
  destruct (leb gross TAX_BRACKET_1_MAX); [reflexivity|].
  destruct (leb gross TAX_BRACKET_2_MAX); [reflexivity|].
  change (sub TAX_BRACKET_2_MAX TAX_BRACKET_1_MAX) with (Ok (of_Z 2000)).
  cbn [rbind]. change (mul (of_Z 2000) (mk 10 (-2))) with (Ok (mk 20000 (-2))).
  cbn [rbind].
  destruct (leb gross TAX_BRACKET_3_MAX); [reflexivity|].
  change (sub TAX_BRACKET_3_MAX TAX_BRACKET_2_MAX) with (Ok (of_Z 2000)).
  cbn [rbind]. change (mul (of_Z 2000) (mk 20 (-2))) with (Ok (mk 40000 (-2))).
  cbn [rbind]. change (add (mk 20000 (-2)) (mk 40000 (-2))) with (Ok (mk 60000 (-2))).
  cbn [rbind]. reflexivity.
Qed.

Lemma calculate_tax_cents (c : Z) :
  Z.abs c < 10 ^ 26 -> calculate_tax (mk c (-2)) = half_up_2 (schedule_tax c).
Proof.
  intros Hc. rewrite calculate_tax_unfold.
  unfold tax_before_rounding, TAX_BRACKET_1_MAX, TAX_BRACKET_2_MAX, TAX_BRACKET_3_MAX.
  rewrite !leb_cents. unfold schedule_tax, amount_between.
  destruct (Z.leb_spec c (1000 * 100)) as [H1|H1].
  - replace (10 * _ + 20 * _ + 30 * _) with 0 by lia. reflexivity.
  - destruct (Z.leb_spec c (3000 * 100)) as [H2|H2].
    + rewrite sub_cents_int by lia. cbn [rbind].
      rewrite mul_cents_rate by lia. cbn [rbind].
      rewrite round_currency_eval. do 2 f_equal. lia.
    + destruct (Z.leb_spec c (5000 * 100)) as [H3|H3].
      * rewrite sub_cents_int by lia. cbn [rbind].
        rewrite mul_cents_rate by lia. cbn [rbind].
        rewrite add_cents_x10000 by lia. cbn [rbind].
        rewrite round_currency_eval. do 2 f_equal. lia.
      * rewrite sub_cents_int by lia. cbn [rbind].
        rewrite mul_cents_rate by lia. cbn [rbind].
        rewrite add_cents_x10000 by lia. cbn [rbind].
        rewrite round_currency_eval. do 2 f_equal. lia.
Qed.

(** ** The tax grows with the gross pay *)

Ltac by_eval := vm_compute; reflexivity.
Ltac rabs := unfold Rabs; repeat destruct (Rcase_abs _); lra.

Section TaxMonotone.
Local Open Scope R_scope.

Lemma leb_false_val (x y : Decimal) : leb x y = false -> val y < val x.
Proof.
  intros H. apply gtb_val. rewrite gtb_leb, H. reflexivity.
Qed.

Lemma pow10_30_Emax : pow10 30 <= pow10 Emax.
Proof. apply pow10_le. unfold Emax. lia. Qed.

Lemma pow10_30 : pow10 30 = 1000000000000000000000000000000.
Proof. rewrite <- pow10_IZR by lia. reflexivity. Qed.

(** An operation applied between two inputs on which it returns: it
    returns, and the result lies between the two results. *)
Lemma sub_sandwich (x lo hi k z_lo z_hi : Decimal) :
  sub lo k = Ok z_lo -> sub hi k = Ok z_hi ->
  val lo <= val x <= val hi -> Rabs (val x - val k) < pow10 30 ->
  exists z, sub x k = Ok z /\ val z_lo <= val z <= val z_hi.
Proof.
  intros Hlo Hhi Hx Hb.
  destruct (sub_defined x k) as [z Hz]; [assert (H := pow10_30_Emax); lra|].
  exists z. split; [exact Hz|]. split; eapply sub_mono; eauto; lra.
Qed.

Lemma mul_sandwich (x lo hi k z_lo z_hi : Decimal) :
  mul lo k = Ok z_lo -> mul hi k = Ok z_hi -> 0 <= val k ->
  val lo <= val x <= val hi -> Rabs (val x * val k) < pow10 30 ->
  exists z, mul x k = Ok z /\ val z_lo <= val z <= val z_hi.
Proof.
  intros Hlo Hhi Hk Hx Hb.
  destruct (mul_defined x k) as [z Hz]; [assert (H := pow10_30_Emax); lra|].
  exists z. split; [exact Hz|]. split; eapply mul_mono; eauto; lra.
Qed.

Lemma add_sandwich (k x lo hi z_lo z_hi : Decimal) :
  add k lo = Ok z_lo -> add k hi = Ok z_hi ->
  val lo <= val x <= val hi -> Rabs (val k + val x) < pow10 30 ->
  exists z, add k x = Ok z /\ val z_lo <= val z <= val z_hi.
Proof.
  intros Hlo Hhi Hx Hb.
  destruct (add_defined k x) as [z Hz]; [assert (H := pow10_30_Emax); lra|].
  exists z. split; [exact Hz|]. split; eapply add_mono; eauto; lra.
Qed.

Lemma round_currency_defined (x : Decimal) :
  Rabs (val x) <= 99999999999999999999999999 -> exists y, _round_currency x = Ok y.
Proof.
  intros Hx. rewrite round_currency_eval. unfold half_up_2.
  destruct (Z.ltb_spec (Z.abs (round_cents x)) (10 ^ 28)) as [_|Hq]; [eauto|exfalso].
  destruct (round_cents_rounds_to x) as (_ & Hclose & _).
  apply IZR_le in Hq. rewrite abs_IZR in Hq.
  change (IZR (10 ^ 28)) with 10000000000000000000000000000 in Hq.
  assert (Hp : pow10 (-2) = / 100) by (unfold pow10, powerRZ; simpl; lra).
  rewrite Hp in Hclose.
  revert Hx Hq Hclose. unfold Rabs. repeat destruct (Rcase_abs _); intros; lra.
Qed.

Lemma round_currency_sandwich (x lo hi y_lo y_hi : Decimal) :
  _round_currency lo = Ok y_lo -> _round_currency hi = Ok y_hi ->
  val lo <= val x <= val hi ->
  exists y, _round_currency x = Ok y /\ val y_lo <= val y <= val y_hi.
Proof.
  intros Hlo Hhi Hx.
  assert (Hp := pow10_pos (-2)).
  assert (Hr := round_cents_rounds_to x).
  destruct (round_currency_spec _ _ Hlo) as (q_lo & -> & Hq_lo & Hr_lo).
  destruct (round_currency_spec _ _ Hhi) as (q_hi & -> & Hq_hi & Hr_hi).
  assert (H1 := rounds_to_mono _ _ _ _ _ _ Hr_lo Hr (proj1 Hx)).
  assert (H2 := rounds_to_mono _ _ _ _ _ _ Hr Hr_hi (proj2 Hx)).
  unfold val at 1 in H1. unfold val at 1 in H2. cbn [coef expo] in H1, H2.
  assert (Hq1 : (q_lo <= round_cents x)%Z) by (apply le_IZR; nra).
  assert (Hq2 : (round_cents x <= q_hi)%Z) by (apply le_IZR; nra).
  exists (mk (round_cents x) (-2)). split.
  - rewrite round_currency_eval. unfold half_up_2.
    destruct (Z.ltb_spec (Z.abs (round_cents x)) (10 ^ 28)); [reflexivity|lia].
  - unfold val. cbn [coef expo]. lra.
Qed.

Lemma bracket_2_mono (g g' s s' : Decimal) :
  val g <= val g' -> bracket_2 g = Ok s -> bracket_2 g' = Ok s' -> val s <= val s'.
Proof.
  unfold bracket_2. intros Hg H H'.
  destruct (sub g _) as [d|] eqn:Hd; [|discriminate].
  destruct (sub g' _) as [d'|] eqn:Hd'; [|discriminate].
  cbn [rbind] in H, H'.
  eapply mul_mono; [| |exact H|exact H']; [rewrite val_cents; lra|].
  eapply sub_mono; eauto.
Qed.

Lemma bracket_3_mono (g g' s s' : Decimal) :
  val g <= val g' -> bracket_3 g = Ok s -> bracket_3 g' = Ok s' -> val s <= val s'.
Proof.
  unfold bracket_3. intros Hg H H'.
  destruct (sub g _) as [d|] eqn:Hd; [|discriminate].
  destruct (sub g' _) as [d'|] eqn:Hd'; [|discriminate].
  cbn [rbind] in H, H'.
  destruct (mul d _) as [t|] eqn:Ht; [|discriminate].
  destruct (mul d' _) as [t'|] eqn:Ht'; [|discriminate].
  cbn [rbind] in H, H'.
  eapply add_mono; [|exact H|exact H'].
  eapply mul_mono; [| |exact Ht|exact Ht']; [rewrite val_cents; lra|].
  eapply sub_mono; eauto.
Qed.

Lemma bracket_4_mono (g g' s s' : Decimal) :
  val g <= val g' -> bracket_4 g = Ok s -> bracket_4 g' = Ok s' -> val s <= val s'.
Proof.
  unfold bracket_4. intros Hg H H'.
  destruct (sub g _) as [d|] eqn:Hd; [|discriminate].
  destruct (sub g' _) as [d'|] eqn:Hd'; [|discriminate].
  cbn [rbind] in H, H'.
  destruct (mul d _) as [t|] eqn:Ht; [|discriminate].
  destruct (mul d' _) as [t'|] eqn:Ht'; [|discriminate].
  cbn [rbind] in H, H'.
  eapply add_mono; [|exact H|exact H'].
  eapply mul_mono; [| |exact Ht|exact Ht']; [rewrite val_cents; lra|].
  eapply sub_mono; eauto.
Qed.

Lemma bracket_2_defined (g : Decimal) :
  1000 <= val g <= 3000 -> exists s, bracket_2 g = Ok s /\ 0 <= val s <= 200.
Proof.
  intros Hg. unfold bracket_2.
  destruct (sub_sandwich g (of_Z 1000) (of_Z 3000) TAX_BRACKET_1_MAX
              (of_Z 0) (of_Z 2000)) as (d & Hd & Hdb);
    [by_eval|by_eval|rewrite !val_of_Z; lra
    |unfold TAX_BRACKET_1_MAX; rewrite val_of_Z, pow10_30; rabs|].
  rewrite Hd. cbn [rbind]. rewrite !val_of_Z in Hdb.
  destruct (mul_sandwich d (of_Z 0) (of_Z 2000) (mk 10 (-2))
              (mk 0 (-2)) (mk 20000 (-2))) as (t & Ht & Htb);
    [by_eval|by_eval|rewrite val_cents; lra|rewrite !val_of_Z; lra
    |rewrite val_cents, pow10_30; rabs|].
  rewrite !val_cents in Htb. exists t. split; [exact Ht|lra].
Qed.

Lemma bracket_3_defined (g : Decimal) :
  3000 <= val g <= 5000 -> exists s, bracket_3 g = Ok s /\ 200 <= val s <= 600.
Proof.
  intros Hg. unfold bracket_3.
  destruct (sub_sandwich g (of_Z 3000) (of_Z 5000) TAX_BRACKET_2_MAX
              (of_Z 0) (of_Z 2000)) as (d & Hd & Hdb);
    [by_eval|by_eval|rewrite !val_of_Z; lra
    |unfold TAX_BRACKET_2_MAX; rewrite val_of_Z, pow10_30; rabs|].
  rewrite Hd. cbn [rbind]. rewrite !val_of_Z in Hdb.
  destruct (mul_sandwich d (of_Z 0) (of_Z 2000) (mk 20 (-2))
              (mk 0 (-2)) (mk 40000 (-2))) as (t & Ht & Htb);
    [by_eval|by_eval|rewrite val_cents; lra|rewrite !val_of_Z; lra
    |rewrite val_cents, pow10_30; rabs|].
  rewrite Ht. cbn [rbind]. rewrite !val_cents in Htb.
  destruct (add_sandwich (mk 20000 (-2)) t (mk 0 (-2)) (mk 40000 (-2))
              (mk 20000 (-2)) (mk 60000 (-2))) as (s & Hs & Hsb);
    [by_eval|by_eval|rewrite !val_cents; lra
    |rewrite val_cents, pow10_30; rabs|].
  rewrite !val_cents in Hsb. exists s. split; [exact Hs|lra].
Qed.

Lemma bracket_4_defined (g : Decimal) :
  5000 <= val g <= 100000000000000000000000000 ->
  exists s, bracket_4 g = Ok s /\
            600 <= val s <= val (mk 2999999999999999999999910000 (-2)).
Proof.
  intros Hg. unfold bracket_4.
  destruct (sub_sandwich g (of_Z 5000) (of_Z 100000000000000000000000000)
              TAX_BRACKET_3_MAX
              (of_Z 0) (of_Z 99999999999999999999995000)) as (d & Hd & Hdb);
    [by_eval|by_eval|rewrite !val_of_Z; lra
    |unfold TAX_BRACKET_3_MAX; rewrite val_of_Z, pow10_30; rabs|].
  rewrite Hd. cbn [rbind]. rewrite !val_of_Z in Hdb.
  destruct (mul_sandwich d (of_Z 0) (of_Z 99999999999999999999995000) (mk 30 (-2))
              (mk 0 (-2)) (mk 2999999999999999999999850000 (-2))) as (t & Ht & Htb);
    [by_eval|by_eval|rewrite val_cents; lra|rewrite !val_of_Z; lra
    |rewrite val_cents, pow10_30; rabs|].
  rewrite Ht. cbn [rbind]. rewrite !val_cents in Htb.
  destruct (add_sandwich (mk 60000 (-2)) t (mk 0 (-2))
              (mk 2999999999999999999999850000 (-2))
              (mk 60000 (-2)) (mk 2999999999999999999999910000 (-2)))
    as (s & Hs & Hsb);
    [by_eval|by_eval|rewrite !val_cents; lra
    |rewrite val_cents, pow10_30; rabs|].
  rewrite !val_cents in Hsb. exists s. split; [exact Hs|].
  rewrite val_cents. lra.
Qed.

Lemma tax_before_rounding_cases (g : Decimal) :
  (val g <= 1000 /\ tax_before_rounding g = Ok (of_Z 0)) \/
  (1000 < val g <= 3000 /\ tax_before_rounding g = bracket_2 g) \/
  (3000 < val g <= 5000 /\ tax_before_rounding g = bracket_3 g) \/
  (5000 < val g /\ tax_before_rounding g = bracket_4 g).
Proof.
  unfold tax_before_rounding.
  destruct (leb g TAX_BRACKET_1_MAX) eqn:H1.
  { apply leb_val in H1. unfold TAX_BRACKET_1_MAX in H1. rewrite val_of_Z in H1.
    left. split; [exact H1|reflexivity]. }
  apply leb_false_val in H1. unfold TAX_BRACKET_1_MAX in H1. rewrite val_of_Z in H1.
  destruct (leb g TAX_BRACKET_2_MAX) eqn:H2.
  { apply leb_val in H2. unfold TAX_BRACKET_2_MAX in H2. rewrite val_of_Z in H2.
    right. left. split; [lra|reflexivity]. }
  apply leb_false_val in H2. unfold TAX_BRACKET_2_MAX in H2. rewrite val_of_Z in H2.
  destruct (leb g TAX_BRACKET_3_MAX) eqn:H3.
  { apply leb_val in H3. unfold TAX_BRACKET_3_MAX in H3. rewrite val_of_Z in H3.
    right. right. left. split; [lra|reflexivity]. }
  apply leb_false_val in H3. unfold TAX_BRACKET_3_MAX in H3. rewrite val_of_Z in H3.
  right. right. right. split; [lra|reflexivity].
Qed.

Lemma bracket_2_range (g s : Decimal) :
  1000 <= val g <= 3000 -> bracket_2 g = Ok s -> 0 <= val s <= 200.
Proof.
  intros Hg Hs. destruct (bracket_2_defined g Hg) as (s0 & Hs0 & Hb).
  rewrite Hs in Hs0. injection Hs0 as <-. exact Hb.
Qed.

Lemma bracket_3_range (g s : Decimal) :
  3000 <= val g <= 5000 -> bracket_3 g = Ok s -> 200 <= val s <= 600.
Proof.
  intros Hg Hs. destruct (bracket_3_defined g Hg) as (s0 & Hs0 & Hb).
  rewrite Hs in Hs0. injection Hs0 as <-. exact Hb.
Qed.

Lemma bracket_4_range (g s : Decimal) :
  5000 <= val g -> bracket_4 g = Ok s -> 600 <= val s.
Proof.
  intros Hg Hs.
  assert (H : val (mk 60000 (-2)) <= val s).
  { apply (bracket_4_mono (of_Z 5000) g); [rewrite val_of_Z; lra|by_eval|exact Hs]. }
  rewrite val_cents in H. lra.
Qed.

Lemma tax_before_rounding_mono (g g' s s' : Decimal) :
  val g <= val g' ->
  tax_before_rounding g = Ok s -> tax_before_rounding g' = Ok s' ->
  val s <= val s'.
Proof.
  intros Hg Hs Hs'.
  assert (Hz : val (of_Z 0) = 0) by (rewrite val_of_Z; reflexivity).
  destruct (tax_before_rounding_cases g) as [[B E]|[[B E]|[[B E]|[B E]]]];
    destruct (tax_before_rounding_cases g') as [[B' E']|[[B' E']|[[B' E']|[B' E']]]];
    try (exfalso; lra);
    rewrite E in Hs; rewrite E' in Hs';
    try (injection Hs as <-); try (injection Hs' as <-);
    try (assert (R := bracket_2_range g s (conj (Rlt_le _ _ (proj1 B)) (proj2 B)) Hs));
    try (assert (R := bracket_3_range g s (conj (Rlt_le _ _ (proj1 B)) (proj2 B)) Hs));
    try (assert (R := bracket_4_range g s (Rlt_le _ _ B) Hs));
    try (assert (R' := bracket_2_range g' s' (conj (Rlt_le _ _ (proj1 B')) (proj2 B')) Hs'));
    try (assert (R' := bracket_3_range g' s' (conj (Rlt_le _ _ (proj1 B')) (proj2 B')) Hs'));
    try (assert (R' := bracket_4_range g' s' (Rlt_le _ _ B') Hs'));
    try lra.
  - eapply bracket_2_mono; eauto.
  - eapply bracket_3_mono; eauto.
  - eapply bracket_4_mono; eauto.
Qed.

Lemma tax_before_rounding_nonneg (g s : Decimal) :
  tax_before_rounding g = Ok s -> 0 <= val s.
Proof.
  intros Hs.
  destruct (tax_before_rounding_cases g) as [[B E]|[[B E]|[[B E]|[B E]]]];
    rewrite E in Hs.
  - injection Hs as <-. rewrite val_of_Z. lra.
  - assert (R := bracket_2_range g s (conj (Rlt_le _ _ (proj1 B)) (proj2 B)) Hs). lra.
  - assert (R := bracket_3_range g s (conj (Rlt_le _ _ (proj1 B)) (proj2 B)) Hs). lra.
  - assert (R := bracket_4_range g s (Rlt_le _ _ B) Hs). lra.
Qed.

End TaxMonotone.

Lemma calculate_tax_inv (g t : Decimal) :
  calculate_tax g = Ok t ->
  exists s, tax_before_rounding g = Ok s /\ _round_currency s = Ok t.
Proof.
  rewrite calculate_tax_unfold.
  destruct (tax_before_rounding g) as [s|] eqn:Hs; [|discriminate].
  cbn [rbind]. intros Ht. exists s. split; [reflexivity|exact Ht].
Qed.

(** C9. [calculate_tax] is monotone non-decreasing: whenever it returns
    the taxes [t1] and [t2] for two gross pays [g1 <= g2], [t1 <= t2]; the
    tax it returns is never negative; a gross pay of zero or less, which
    falls in the first bracket, yields the tax 0.00; and it does return a
    tax for every gross pay up to 10 ^ 26. *)
Theorem calculate_tax_monotone :
  (forall g1 g2 t1 t2 : Decimal,
     leb g1 g2 = true ->
     calculate_tax g1 = Ok t1 -> calculate_tax g2 = Ok t2 ->
     leb t1 t2 = true) /\
  (forall g t : Decimal, calculate_tax g = Ok t -> leb (of_Z 0) t = true) /\
  (forall g : Decimal, leb g (of_Z 0) = true -> calculate_tax g = Ok (dec 0 (-2))) /\
  (forall g : Decimal,
     leb g (of_Z (10 ^ 26)) = true -> exists t, calculate_tax g = Ok t).
Proof.
  split; [|split; [|split]].
  - intros g1 g2 t1 t2 Hg H1 H2.
    apply calculate_tax_inv in H1 as (s1 & Hs1 & Ht1).
    apply calculate_tax_inv in H2 as (s2 & Hs2 & Ht2).
    apply leb_val. apply leb_val in Hg.
    eapply round_currency_mono; [exact Ht1|exact Ht2|].
    eapply tax_before_rounding_mono; eauto.
  - intros g t H.
    apply calculate_tax_inv in H as (s & Hs & Ht).
    apply leb_val. rewrite val_of_Z.
    apply tax_before_rounding_nonneg in Hs.
    assert (H0 : (val (mk 0 (-2)) <= val t)%R).
    { apply (round_currency_mono (of_Z 0) s); [by_eval|exact Ht|].
      rewrite val_of_Z. exact Hs. }
    rewrite val_cents in H0. lra.
  - intros g Hg. apply leb_val in Hg. rewrite val_of_Z in Hg.
    rewrite calculate_tax_unfold.
    destruct (tax_before_rounding_cases g) as [[B E]|[[B E]|[[B E]|[B E]]]];
      try (exfalso; lra).
    rewrite E. reflexivity.
  - intros g Hg. apply leb_val in Hg. rewrite val_of_Z in Hg.
    change (IZR (10 ^ 26)) with 100000000000000000000000000%R in Hg.
    rewrite calculate_tax_unfold.
    assert (Hround : forall s : Decimal,
              (0 <= val s <= val (mk 2999999999999999999999910000 (-2)))%R ->
              exists t, _round_currency s = Ok t).
    { intros s Hs.
      destruct (round_currency_sandwich s (of_Z 0)
                  (mk 2999999999999999999999910000 (-2))
                  (mk 0 (-2)) (mk 2999999999999999999999910000 (-2)))
        as (t & Ht & _); [by_eval|by_eval|rewrite val_of_Z; exact Hs|].
      exists t. exact Ht. }
    assert (Hbig : (600 <= val (mk 2999999999999999999999910000 (-2)))%R)
      by (rewrite val_cents; lra).
    destruct (tax_before_rounding_cases g) as [[B E]|[[B E]|[[B E]|[B E]]]];
      rewrite E.
    + cbn [rbind]. apply Hround. rewrite val_of_Z. lra.
    + destruct (bracket_2_defined g) as (s & -> & Hs); [lra|].
      cbn [rbind]. apply Hround. lra.
    + destruct (bracket_3_defined g) as (s & -> & Hs); [lra|].
      cbn [rbind]. apply Hround. lra.
    + destruct (bracket_4_defined g) as (s & -> & Hs); [lra|].
      cbn [rbind]. apply Hround. lra.
Qed.

Lemma calculate_tax_monotone_witness :
  leb (dec 250000 (-2)) (dec 400000 (-2)) = true /\
  calculate_tax (dec 250000 (-2)) = Ok (dec 15000 (-2)) /\
  calculate_tax (dec 400000 (-2)) = Ok (dec 40000 (-2)) /\
  leb (dec 15000 (-2)) (dec 40000 (-2)) = true.
Proof.
  split; [reflexivity|]. split; [vm_compute; reflexivity|].
  split; [vm_compute; reflexivity|].
  apply (proj1 calculate_tax_monotone (dec 250000 (-2)) (dec 400000 (-2)));
    vm_compute; reflexivity.
Defined.

(** ** The net pay is exact *)

Section NetPay.
Local Open Scope R_scope.

Lemma val_in_cents (x : Decimal) : (-2 <= expo x)%Z -> val x = IZR (cents x) / 100.
Proof.
  intros He. unfold val, cents. rewrite mult_IZR, pow10_IZR by lia.
  rewrite pow10_add. replace (pow10 2) with 100 by (unfold pow10; simpl; lra).
  field.
Qed.

Lemma calculate_tax_nonneg (g t : Decimal) : calculate_tax g = Ok t -> 0 <= val t.
Proof.
  intros H. apply calculate_tax_inv in H as (s & Hs & Ht).
  apply tax_before_rounding_nonneg in Hs.
  assert (H0 : val (mk 0 (-2)) <= val t).
  { apply (round_currency_mono (of_Z 0) s); [by_eval|exact Ht|].
    rewrite val_of_Z. exact Hs. }
  rewrite val_cents in H0. lra.
Qed.

Lemma calculate_tax_first_bracket (g : Decimal) :
  val g <= 1000 -> calculate_tax g = Ok (mk 0 (-2)).
Proof.
  intros Hg. rewrite calculate_tax_unfold.
  destruct (tax_before_rounding_cases g) as [[B E]|[[B E]|[[B E]|[B E]]]];
    try (exfalso; lra).
  rewrite E. reflexivity.
Qed.

(** The tax of a gross pay in cents: in cents, not negative, and zero for a
    gross pay that is not positive. *)
Lemma calculate_tax_in_cents (g : Z) (tax : Decimal) :
  calculate_tax (mk g (-2)) = Ok tax ->
  exists t : Z, tax = mk t (-2) /\ (0 <= t < 10 ^ 28)%Z /\ (g <= 0 -> t = 0)%Z.
Proof.
  intros H.
  assert (Hn := calculate_tax_nonneg _ _ H).
  assert (H' := H). apply calculate_tax_inv in H' as (s & _ & Hr).
  apply round_currency_spec in Hr as (t & -> & Ht & _).
  exists t. split; [reflexivity|].
  rewrite val_cents in Hn.
  assert (H0 : (0 <= t)%Z) by (apply le_IZR; lra).
  split; [lia|]. intros Hg.
  rewrite calculate_tax_first_bracket in H.
  - injection H as <-. reflexivity.
  - rewrite val_cents. apply IZR_le in Hg. lra.
Qed.

(** The retirement contribution of a gross pay in cents is in cents and at
    most 5E+24 in magnitude. *)
Lemma retirement_in_cents (g : Z) (v : Decimal) :
  (Z.abs g < 10 ^ 28)%Z ->
  (p <-- mul (mk g (-2)) RETIREMENT_RATE ;; _round_currency p) = Ok v ->
  exists r : Z, v = mk r (-2) /\ (Z.abs r <= 5 * 10 ^ 26)%Z.
Proof.
  intros Hg H.
  destruct (mul _ RETIREMENT_RATE) as [p|] eqn:Hp; [|discriminate].
  cbn [rbind] in H.
  assert (Hrate : 0 <= val RETIREMENT_RATE)
    by (unfold RETIREMENT_RATE; rewrite val_cents; lra).
  assert (Hg1 : (g <= 9999999999999999999999999999)%Z) by lia.
  assert (Hg2 : (- 9999999999999999999999999999 <= g)%Z) by lia.
  apply IZR_le in Hg1, Hg2.
  assert (Hhi : val p <= val (mk 5000000000000000000000000000 (-3))).
  { apply (mul_mono (mk g (-2)) (mk 9999999999999999999999999999 (-2)) RETIREMENT_RATE);
      [exact Hrate|rewrite !val_cents; lra|exact Hp|by_eval]. }
  assert (Hlo : val (mk (-5000000000000000000000000000) (-3)) <= val p).
  { apply (mul_mono (mk (-9999999999999999999999999999) (-2)) (mk g (-2)) RETIREMENT_RATE);
      [exact Hrate|rewrite !val_cents; lra|by_eval|exact Hp]. }
  assert (Hhi' : val v <= val (mk 500000000000000000000000000 (-2))).
  { apply (round_currency_mono p (mk 5000000000000000000000000000 (-3)));
      [exact H|by_eval|exact Hhi]. }
  assert (Hlo' : val (mk (-500000000000000000000000000) (-2)) <= val v).
  { apply (round_currency_mono (mk (-5000000000000000000000000000) (-3)) p);
      [by_eval|exact H|exact Hlo]. }
  apply round_currency_spec in H as (r & -> & _).
  exists r. split; [reflexivity|].
  rewrite !val_cents in Hhi', Hlo'.
  assert (H1 : (r <= 500000000000000000000000000)%Z) by (apply le_IZR; lra).
  assert (H2 : (-500000000000000000000000000 <= r)%Z) by (apply le_IZR; lra).
  lia.
Qed.

Lemma add_int_cents (k c : Z) :
  (Z.abs (k * 100 + c) < 10 ^ 28)%Z ->
  add (of_Z k) (mk c (-2)) = Ok (mk (k * 100 + c) (-2)).
Proof.
  intros H. unfold add, of_Z. cbn [coef expo].
  change (Z.min 0 (-2)) with (-2)%Z. change (10 ^ (-2 - -2))%Z with 1%Z.
  change (10 ^ (0 - -2))%Z with 100%Z. rewrite Z.mul_1_r. apply fix_cents, H.
Qed.

Lemma add_cents_int (c k : Z) :
  (Z.abs (c + k * 100) < 10 ^ 28)%Z ->
  add (mk c (-2)) (of_Z k) = Ok (mk (c + k * 100) (-2)).
Proof.
  intros H. unfold add, of_Z. cbn [coef expo].
  change (Z.min (-2) 0) with (-2)%Z. change (10 ^ (-2 - -2))%Z with 1%Z.
  change (10 ^ (0 - -2))%Z with 100%Z. rewrite Z.mul_1_r. apply fix_cents, H.
Qed.

Lemma sub_cents_total (c : Z) (total : Decimal) :
  (expo total = -2 \/ expo total = 0)%Z ->
  (Z.abs (c - cents total) < 10 ^ 28)%Z ->
  sub (mk c (-2)) total = Ok (mk (c - cents total) (-2)).
Proof.
  destruct total as [tc te]. unfold cents. cbn [coef expo].
  intros [->| ->].
  - change (10 ^ (-2 + 2))%Z with 1%Z. rewrite Z.mul_1_r. apply sub_cents.
  - change (10 ^ (0 + 2))%Z with 100%Z. apply (sub_cents_int c tc).
Qed.

(** The sum of the deduction values, as [sum] adds them from 0, is exact. *)
Lemma py_sum_deductions (st : Store) (e : ref) (v : Decimal) (r : Z) :
  (has_retirement (st e) = true -> v = mk r (-2) /\ (Z.abs r <= 5 * 10 ^ 26)%Z) ->
  let values := dict_values (health_entry st e ++ retirement_entry st e v ++ union_entry st e) in
  exists total,
    py_sum values = Ok total /\
    (expo total = -2 \/ expo total = 0)%Z /\
    cents total = sum_cents values /\
    Forall (fun x => two_decimals x = true) values.
Proof.
  intros Hv.
  unfold health_entry, retirement_entry, union_entry, HEALTH_INSURANCE, UNION_DUES.
  destruct (type_is _ FULL_TIME), (has_retirement (st e)), (is_union_member (st e));
    try (destruct (Hv eq_refl) as [-> Hr]); clear Hv;
    cbn [app dict_values map snd py_sum fold_left rbind];
    try change (add (of_Z 0) (of_Z 150)) with (Ok (of_Z 150));
    try change (add (of_Z 0) (of_Z 50)) with (Ok (of_Z 50));
    cbn [rbind];
    try change (add (of_Z 150) (of_Z 50)) with (Ok (of_Z 200));
    cbn [rbind];
    try (rewrite add_int_cents by lia; cbn [rbind]);
    try (rewrite add_cents_int by lia; cbn [rbind]);
    (eexists; split; [reflexivity|]);
    (split; [cbn [expo of_Z]; auto|]);
    (split; [unfold sum_cents, cents, of_Z; cbn [map fold_right coef expo];
             change (10 ^ (-2 + 2))%Z with 1%Z; change (10 ^ (0 + 2))%Z with 100%Z; lia|]);
    repeat constructor.
Qed.

Lemma round_currency_input_bound (d n : Decimal) :
  _round_currency d = Ok n -> Rabs (val d) < 100000000000000000000000000.
Proof.
  intros H. apply round_currency_spec in H as (q & -> & Hq & _ & Hclose & _).
  rewrite val_cents in Hclose.
  assert (Hp : pow10 (-2) = / 100) by (unfold pow10, powerRZ; simpl; lra).
  rewrite Hp in Hclose.
  assert (Hq' : (Z.abs q <= 9999999999999999999999999999)%Z) by lia.
  apply IZR_le in Hq'. rewrite abs_IZR in Hq'.
  revert Hq' Hclose. unfold Rabs. repeat destruct (Rcase_abs _); intros; lra.
Qed.

Lemma fl_1E26 (v w : R) :
  fl v w ->
  (100000000000000000000000000 <= v -> 100000000000000000000000000 <= w) /\
  (v <= - 100000000000000000000000000 -> w <= - 100000000000000000000000000).
Proof.
  intros H.
  assert (Hp : pow10 26 = 100000000000000000000000000)
    by (rewrite <- pow10_IZR by lia; reflexivity).
  assert (H1 : fl (val (mk 1 26)) (val (mk 1 26))) by (apply fix_fl; by_eval).
  assert (H2 : fl (val (mk (-1) 26)) (val (mk (-1) 26))) by (apply fix_fl; by_eval).
  unfold val in H1, H2. cbn [coef expo] in H1, H2. rewrite Hp in H1, H2.
  split; intros Hv.
  - assert (Hw := fl_mono _ _ _ _ H1 H). lra.
  - assert (Hw := fl_mono _ _ _ _ H H2). lra.
Qed.

(** A subtraction whose result [_round_currency] accepts was exact. *)
Lemma sub_then_round (c : Z) (total d net : Decimal) :
  (expo total = -2 \/ expo total = 0)%Z ->
  sub (mk c (-2)) total = Ok d -> _round_currency d = Ok net ->
  net = mk (c - cents total) (-2) /\ (Z.abs (c - cents total) < 10 ^ 28)%Z.
Proof.
  intros He Hd Hnet.
  assert (Hb := round_currency_input_bound _ _ Hnet).
  assert (Hfl := sub_fl _ _ _ Hd).
  rewrite val_cents, (val_in_cents total) in Hfl by (destruct He; lia).
  destruct (fl_1E26 _ _ Hfl) as [Hhi Hlo].
  assert (Hc : (Z.abs (c - cents total) < 10 ^ 28)%Z).
  { destruct (Z.le_gt_cases (10 ^ 28) (c - cents total)) as [Hge|Hlt].
    - exfalso. apply IZR_le in Hge. rewrite minus_IZR in Hge.
      change (IZR (10 ^ 28)) with 10000000000000000000000000000 in Hge.
      assert (Hw : 100000000000000000000000000 <= val d) by (apply Hhi; lra).
      revert Hb. unfold Rabs. destruct (Rcase_abs _); lra.
    - destruct (Z.le_gt_cases (c - cents total) (- 10 ^ 28)) as [Hle|Hgt]; [exfalso|lia].
      apply IZR_le in Hle. rewrite minus_IZR, opp_IZR in Hle.
      change (IZR (10 ^ 28)) with 10000000000000000000000000000 in Hle.
      assert (Hw : val d <= - 100000000000000000000000000) by (apply Hlo; lra).
      revert Hb. unfold Rabs. destruct (Rcase_abs _); lra. }
  split; [|exact Hc].
  rewrite sub_cents_total in Hd by assumption. injection Hd as <-.
  rewrite round_currency_cents in Hnet by exact Hc. injection Hnet as <-. reflexivity.
Qed.

End NetPay.

Lemma sum_val_cents (l : list Decimal) :
  Forall (fun x => two_decimals x = true) l ->
  sum_val l = (IZR (sum_cents l) / 100)%R.
Proof.
  unfold sum_val, sum_cents. induction 1 as [|x l Hx _ IH]; cbn [map fold_right].
  - lra.
  - rewrite IH, plus_IZR, (val_in_cents x) by (apply Z.leb_le, Hx). lra.
Qed.

(** C1 -- in every payslip [generate_pay_slip] returns, the gross pay, the
    tax and the net pay are at two decimals ([_round_currency] leaves them
    as they are), no deduction value has a digit after the second decimal,
    and the net pay is exactly the gross pay minus the tax minus the sum of
    the deduction values: as a count of cents, and as a real number. *)
Theorem net_pay_identity (st : Store) (e : ref) (h : Decimal) (p : PaySlip) :
  run (generate_pay_slip e h) st = Ok p ->
  _round_currency (gross_pay p) = Ok (gross_pay p) /\
  _round_currency (tax_amount p) = Ok (tax_amount p) /\
  _round_currency (net_pay p) = Ok (net_pay p) /\
  Forall (fun v => two_decimals v = true) (dict_values (deductions p)) /\
  cents (net_pay p)
    = cents (gross_pay p) - cents (tax_amount p) - sum_cents (dict_values (deductions p)) /\
  val (net_pay p)
    = (val (gross_pay p) - val (tax_amount p) - sum_val (dict_values (deductions p)))%R.
Proof.
  intros H.
  destruct (generate_inv _ _ _ _ H)
    as (total & d1 & d2 & _ & Hg & Ht & Hd & Hsum & Hd1 & Hd2 & Hnet).
  destruct (gross_is_rounded st e h _ Hg) as [x Hx].
  destruct (round_currency_spec _ _ Hx) as (g & Eg & Hgb & _).
  rewrite Eg in *.
  destruct (calculate_tax_in_cents _ _ Ht) as (t & Et & Htb & Ht0).
  rewrite Et in *.
  destruct (deductions_inv _ _ _ _ Hd) as (v & Ed & Hv).
  assert (Hret : exists r, has_retirement (st e) = true ->
                           v = mk r (-2) /\ Z.abs r <= 5 * 10 ^ 26).
  { destruct (has_retirement (st e)).
    - destruct (retirement_in_cents g v Hgb (Hv eq_refl)) as (r & Hr).
      exists r. intros _. exact Hr.
    - exists 0. discriminate. }
  destruct Hret as [r Hret].
  destruct (py_sum_deductions st e v r Hret) as (total' & Hsum' & Hexp & Hcents & Hall).
  rewrite <- Ed in Hsum', Hcents, Hall.
  rewrite Hsum in Hsum'. injection Hsum' as <-.
  rewrite sub_cents in Hd1 by lia. injection Hd1 as <-.
  destruct (sub_then_round _ _ _ _ Hexp Hd2 Hnet) as [En Hnb].
  assert (Hcn : cents (net_pay p) = g - t - sum_cents (dict_values (deductions p))).
  { rewrite En, <- Hcents. unfold cents at 1. cbn [coef expo].
    change (10 ^ (-2 + 2)) with 1. lia. }
  assert (Hcg : cents (mk g (-2)) = g).
  { unfold cents. cbn [coef expo]. change (10 ^ (-2 + 2)) with 1. lia. }
  assert (Hct : cents (mk t (-2)) = t).
  { unfold cents. cbn [coef expo]. change (10 ^ (-2 + 2)) with 1. lia. }
  split; [apply round_currency_cents, Hgb|].
  split; [apply round_currency_cents; lia|].
  split; [rewrite En; apply round_currency_cents, Hnb|].
  split; [exact Hall|].
  split; [rewrite Hcg, Hct; exact Hcn|].
  rewrite (val_in_cents (net_pay p)) by (rewrite En; cbn [expo]; lia).
  rewrite Hcn, !val_cents, (sum_val_cents _ Hall), !minus_IZR. lra.
Qed.

Lemma net_pay_identity_witness :
  run (generate_pay_slip 2%nat (of_Z 0)) (store_of demo) = Ok carol_payslip /\
  cents (net_pay carol_payslip)
    = cents (gross_pay carol_payslip) - cents (tax_amount carol_payslip)
      - sum_cents (dict_values (deductions carol_payslip)).
Proof.
  assert (H : run (generate_pay_slip 2%nat (of_Z 0)) (store_of demo) = Ok carol_payslip)
    by (vm_compute; reflexivity).
  split; [exact H|].
  exact (proj1 (proj2 (proj2 (proj2 (proj2
           (net_pay_identity (store_of demo) 2%nat (of_Z 0) carol_payslip H)))))).
Defined.

(** ** A net pay below zero *)

Section NegativeNetPay.
Local Open Scope R_scope.

Lemma retirement_of_low_pay (c : Z) :
  (0 <= c < 15000)%Z ->
  exists r : Z,
    (p <-- mul (mk c (-2)) RETIREMENT_RATE ;; _round_currency p) = Ok (mk r (-2)) /\
    (0 <= r <= 750)%Z.
Proof.
  intros Hc. unfold RETIREMENT_RATE. rewrite mul_cents_rate by lia. cbn [rbind].
  assert (Hp := pow10_pos (-4)).
  assert (H1 : (0 <= c * 5)%Z) by lia. assert (H2 : (c * 5 <= 75000)%Z) by lia.
  apply IZR_le in H1, H2.
  destruct (round_currency_sandwich (mk (c * 5) (-4)) (mk 0 (-4)) (mk 75000 (-4))
              (mk 0 (-2)) (mk 750 (-2))) as (y & Hy & Hb);
    [by_eval|by_eval|unfold val; cbn [coef expo]; nra|].
  destruct (round_currency_spec _ _ Hy) as (r & -> & _).
  exists r. split; [exact Hy|].
  rewrite !val_cents in Hb. split; apply le_IZR; lra.
Qed.

Lemma sum_cents_full_time (st : Store) (e : ref) (v : Decimal) :
  employee_type (st e) = Some FULL_TIME ->
  sum_cents (dict_values (health_entry st e ++ retirement_entry st e v ++ union_entry st e))
    = (15000 + (if has_retirement (st e) then cents v else 0)
       + (if is_union_member (st e) then 5000 else 0))%Z.
Proof.
  intros Ht. unfold health_entry, retirement_entry, union_entry. rewrite Ht.
  cbn [type_is EmployeeType_eqb].
  destruct (has_retirement (st e)), (is_union_member (st e));
    unfold sum_cents, dict_values; cbn [app map snd fold_right];
    change (cents HEALTH_INSURANCE) with 15000%Z;
    try change (cents UNION_DUES) with 5000%Z; lia.
Qed.

(** A [FULL_TIME] employee paid less than the 150 of the health insurance
    gets a payslip, and its net pay is below zero. *)
Lemma full_time_low_pay (st : Store) (e : ref) (h : Decimal) (c : Z) :
  employee_type (st e) = Some FULL_TIME ->
  pay_rate (st e) = mk c (-2) ->
  (0 <= c < 15000)%Z ->
  exists (p : PaySlip) (n : Z),
    run (generate_pay_slip e h) st = Ok p /\
    gross_pay p = mk c (-2) /\ net_pay p = mk n (-2) /\ (n < 0)%Z.
Proof.
  intros Ht Hrate Hc.
  rewrite generate_run, gross_full_time, Hrate, round_currency_cents by (assumption || lia).
  cbn [rbind].
  rewrite calculate_tax_first_bracket
    by (rewrite val_cents; assert (H : (c <= 15000)%Z) by lia; apply IZR_le in H; lra).
  cbn [rbind].
  destruct (retirement_of_low_pay c Hc) as (r & Hret & Hr).
  assert (Hv : has_retirement (st e) = true ->
               mk r (-2) = mk r (-2) /\ (Z.abs r <= 5 * 10 ^ 26)%Z)
    by (intros _; split; [reflexivity|lia]).
  destruct (py_sum_deductions st e (mk r (-2)) r Hv) as (total & Hsum & Hexp & Hcents & _).
  rewrite (sum_cents_full_time st e _ Ht) in Hcents.
  assert (Hcr : cents (mk r (-2)) = r).
  { unfold cents. cbn [coef expo]. change (10 ^ (-2 + 2))%Z with 1%Z. lia. }
  rewrite Hcr in Hcents.
  assert (Htot : (15000 <= cents total <= 20750)%Z).
  { rewrite Hcents. destruct (has_retirement (st e)), (is_union_member (st e)); lia. }
  assert (Hvalues : (if has_retirement (st e)
                     then health_entry st e ++ retirement_entry st e (mk r (-2)) ++ union_entry st e
                     else health_entry st e ++ union_entry st e)
                    = health_entry st e ++ retirement_entry st e (mk r (-2)) ++ union_entry st e).
  { unfold retirement_entry. destruct (has_retirement (st e)); reflexivity. }
  assert (Hd : (if has_retirement (st e)
                then v <-- (p <-- mul (mk c (-2)) RETIREMENT_RATE ;; _round_currency p) ;;
                     Ok (health_entry st e ++ retirement_entry st e v ++ union_entry st e)
                else Ok (health_entry st e ++ union_entry st e))
               = Ok (health_entry st e ++ retirement_entry st e (mk r (-2)) ++ union_entry st e)).
  { rewrite <- Hvalues. destruct (has_retirement (st e)); [|reflexivity].
    rewrite Hret. reflexivity. }
  assert (Hded : run (calculate_deductions e (mk c (-2))) st
                 = Ok (health_entry st e ++ retirement_entry st e (mk r (-2))
                       ++ union_entry st e))
    by (rewrite deductions_run; exact Hd).
  rewrite Hded. cbn [rbind]. rewrite Hsum. cbn [rbind].
  rewrite sub_cents by lia. cbn [rbind].
  rewrite sub_cents_total by (assumption || lia). cbn [rbind].
  rewrite round_currency_cents by lia. cbn [rbind].
  eexists. exists (c - 0 - cents total)%Z.
  split; [reflexivity|]. cbn [gross_pay net_pay].
  split; [reflexivity|]. split; [reflexivity|lia].
Qed.

End NegativeNetPay.

Lemma negative_cents (n : Z) : n < 0 -> gtb (of_Z 0) (mk n (-2)) = true.
Proof.
  intros Hn. apply gtb_val. rewrite val_of_Z, val_cents.
  apply IZR_lt in Hn. lra.
Qed.

(** C10 -- the net pay can be below zero.  The [FULL_TIME] employee paid
    100.00 gets the payslip with gross pay 100.00, tax 0.00, health insurance
    150 and net pay -50.00; and every [FULL_TIME] employee whose pay rate is
    an amount in cents from 0.00 to 149.99 gets a payslip, whatever the flags
    and the worked units, whose net pay is below zero. *)
Theorem net_pay_can_be_negative :
  run (generate_pay_slip 0%nat (of_Z 0))
      (store_of [emp 1 "Alice" FULL_TIME (dec 10000 (-2)) false false])
    = Ok {| employee := 0%nat;
            gross_pay := dec 10000 (-2);
            tax_amount := dec 0 (-2);
            deductions := [("health_insurance"%string, of_Z 150)];
            net_pay := dec (-5000) (-2) |} /\
  gtb (of_Z 0) (dec (-5000) (-2)) = true /\
  (forall (st : Store) (e : ref) (h : Decimal) (c : Z),
     employee_type (st e) = Some FULL_TIME ->
     pay_rate (st e) = mk c (-2) ->
     0 <= c < 15000 ->
     exists p : PaySlip,
       run (generate_pay_slip e h) st = Ok p /\
       gtb (of_Z 0) (net_pay p) = true).
Proof.
  split; [vm_compute; reflexivity|]. split; [reflexivity|].
  intros st e h c Ht Hrate Hc.
  destruct (full_time_low_pay st e h c Ht Hrate Hc) as (p & n & Hp & _ & Hn & Hneg).
  exists p. split; [exact Hp|]. rewrite Hn. apply negative_cents, Hneg.
Qed.

(** A salary of 149.99 with both flags: 7.50 retirement and 50 union dues
    on top of the health insurance. *)
Lemma net_pay_can_be_negative_witness :
  exists p : PaySlip,
    run (generate_pay_slip 0%nat (of_Z 0))
        (store_of [emp 1 "Alice" FULL_TIME (dec 14999 (-2)) true true]) = Ok p /\
    gtb (of_Z 0) (net_pay p) = true.
Proof.
  apply (proj2 (proj2 net_pay_can_be_negative)
           (store_of [emp 1 "Alice" FULL_TIME (dec 14999 (-2)) true true])
           0%nat (of_Z 0) 14999); [reflexivity|reflexivity|lia].
Defined.

(** * The tax schedule on any gross pay *)

Lemma fix_representable (x : Decimal) : representable x -> _fix x = Ok x.
Proof.
  destruct x as [c e]. intros [Hc He]. cbn [coef expo] in Hc, He.
  apply fix_small; [|exact He]. apply ndigits_le; [unfold prec; lia|exact Hc].
Qed.

Lemma add_representable (x y : Decimal) :
  representable (exact_add x y) -> add x y = Ok (exact_add x y).
Proof. intros H. exact (fix_representable (exact_add x y) H). Qed.

Lemma sub_representable (x y : Decimal) :
  representable (exact_sub x y) -> sub x y = Ok (exact_sub x y).
Proof. intros H. exact (add_representable x (neg y) H). Qed.

(** A gross pay of at most 20 decimals and at most 26 digits less a
    bracket bound: the difference is exact. *)
Lemma sub_bound_exact (gross : Decimal) (k : Z) :
  -20 <= expo gross -> Z.abs (plain_coef gross) < 10 ^ 26 -> 0 <= k <= 5000 ->
  sub gross (of_Z k) = Ok (exact_sub gross (of_Z k)) /\
  -20 <= expo (exact_sub gross (of_Z k)) <= 0 /\
  Z.abs (coef (exact_sub gross (of_Z k))) < 10 ^ 26 + 5000 * 10 ^ 20 + 1.
Proof.
  intros He Hc Hk.
  assert (Hb : -20 <= expo (exact_sub gross (of_Z k)) <= 0 /\
               Z.abs (coef (exact_sub gross (of_Z k))) < 10 ^ 26 + 5000 * 10 ^ 20 + 1).
  { unfold exact_sub, exact_add, neg, of_Z, plain_coef in *. cbn [coef expo] in *.
    set (m := Z.min (expo gross) 0) in *.
    assert (Hm : -20 <= m <= 0) by lia.
    assert (HP : 1 <= 10 ^ (0 - m) <= 10 ^ 20).
    { split; [|apply Z.pow_le_mono_r; lia].
      assert (0 < 10 ^ (0 - m)) by (apply Z.pow_pos_nonneg; lia). lia. }
    split; [exact Hm|]. nia. }
  split; [|exact Hb]. apply sub_representable.
  destruct Hb as [Hb1 Hb2]. split; [lia|].
  unfold Etiny, Etop, Emin, Emax, prec. lia.
Qed.

(** Such a difference times a bracket rate: the product is exact. *)
Lemma mul_rate_exact (d : Decimal) (r : Z) :
  -20 <= expo d <= 0 -> Z.abs (coef d) < 10 ^ 26 + 5000 * 10 ^ 20 + 1 -> 0 <= r <= 30 ->
  mul d (mk r (-2)) = Ok (exact_mul d (mk r (-2))) /\
  -22 <= expo (exact_mul d (mk r (-2))) <= -2 /\
  Z.abs (coef (exact_mul d (mk r (-2)))) < 31 * 10 ^ 26.
Proof.
  intros He Hc Hr.
  assert (Hb : -22 <= expo (exact_mul d (mk r (-2))) <= -2 /\
               Z.abs (coef (exact_mul d (mk r (-2)))) < 31 * 10 ^ 26).
  { unfold exact_mul. cbn [coef expo]. split; [lia|]. nia. }
  split; [|exact Hb]. apply mul_representable.
  destruct Hb as [Hb1 Hb2]. split; [lia|].
  unfold Etiny, Etop, Emin, Emax, prec. lia.
Qed.

(** The tax of the brackets below plus such a product: the sum is exact. *)
Lemma add_base_exact (base : Z) (t : Decimal) :
  0 <= base <= 60000 -> -22 <= expo t <= -2 -> Z.abs (coef t) < 31 * 10 ^ 26 ->
  add (mk base (-2)) t = Ok (exact_add (mk base (-2)) t).
Proof.
  intros Hbase He Hc. apply add_representable.
  unfold representable, exact_add. cbn [coef expo].
  replace (Z.min (-2) (expo t)) with (expo t) by lia.
  rewrite Z.sub_diag. change (10 ^ 0) with 1. rewrite Z.mul_1_r.
  assert (HP : 1 <= 10 ^ (-2 - expo t) <= 10 ^ 20).
  { split; [|apply Z.pow_le_mono_r; lia].
    assert (0 < 10 ^ (-2 - expo t)) by (apply Z.pow_pos_nonneg; lia). lia. }
  split; [nia|]. unfold Etiny, Etop, Emin, Emax, prec. lia.
Qed.

Section Schedule.
Local Open Scope R_scope.

Lemma val_exact_sub (x y : Decimal) : val (exact_sub x y) = val x - val y.
Proof. unfold exact_sub. rewrite val_exact_add, val_neg. lra. Qed.

Lemma val_exact_product (x y : Decimal) : val (exact_mul x y) = val x * val y.
Proof. apply val_exact_mul. Qed.

Lemma val_dmin (x y : Decimal) : val (dmin x y) = Rmin (val x) (val y).
Proof.
  unfold dmin. destruct (leb x y) eqn:H.
  - apply leb_val in H. rewrite Rmin_left; [reflexivity|exact H].
  - apply leb_false_val in H. rewrite Rmin_right; [reflexivity|lra].
Qed.

Lemma val_dmax (x y : Decimal) : val (dmax x y) = Rmax (val x) (val y).
Proof.
  unfold dmax. destruct (leb x y) eqn:H.
  - apply leb_val in H. rewrite Rmax_right; [reflexivity|exact H].
  - apply leb_false_val in H. rewrite Rmax_left; [reflexivity|lra].
Qed.

(** The value of the exact schedule is the progressive formula. *)
Lemma val_schedule (gross : Decimal) : val (schedule gross) = progressive (val gross).
Proof.
  unfold schedule, progressive, part_between, part_above.
  rewrite !val_exact_add, !val_exact_product, !val_dmax, !val_exact_sub, !val_dmin,
    !val_of_Z, !val_cents.
  lra.
Qed.

(** Rounding to cents depends on the value only, not on the digits that
    carry it. *)
Lemma half_up_2_val (x y : Decimal) : val x = val y -> half_up_2 x = half_up_2 y.
Proof.
  intros Hv.
  assert (Hq : round_cents x = round_cents y).
  { assert (Hx := round_cents_rounds_to x). assert (Hy := round_cents_rounds_to y).
    rewrite Hv in Hx. assert (H := rounds_to_unique _ _ _ _ _ Hx Hy).
    assert (Hp := pow10_pos (-2)).
    apply Rmult_eq_reg_r in H; [apply eq_IZR; exact H|lra]. }
  unfold half_up_2. rewrite Hq. reflexivity.
Qed.

Ltac min_max := unfold Rmax, Rmin; repeat destruct (Rle_dec _ _); lra.

Lemma progressive_bracket_1 (v : R) : v <= 1000 -> progressive v = 0.
Proof. intros H. unfold progressive. min_max. Qed.

Lemma progressive_bracket_2 (v : R) :
  1000 < v <= 3000 -> progressive v = (v - 1000) * (10 / 100).
Proof. intros H. unfold progressive. min_max. Qed.

Lemma progressive_bracket_3 (v : R) :
  3000 < v <= 5000 -> progressive v = 20000 / 100 + (v - 3000) * (20 / 100).
Proof. intros H. unfold progressive. min_max. Qed.

Lemma progressive_bracket_4 (v : R) :
  5000 < v -> progressive v = 60000 / 100 + (v - 5000) * (30 / 100).
Proof. intros H. unfold progressive. min_max. Qed.

Lemma progressive_range (v : R) : 0 <= progressive v /\ progressive v <= 3 / 10 * Rabs v.
Proof. unfold progressive, Rabs. destruct (Rcase_abs v); min_max. Qed.

(** With at most 20 decimals and at most 26 digits no step of
    [calculate_tax] rounds but the last. *)
Lemma calculate_tax_exact (gross : Decimal) :
  (-20 <= expo gross)%Z -> (Z.abs (plain_coef gross) < 10 ^ 26)%Z ->
  calculate_tax gross = half_up_2 (schedule gross).
Proof.
  intros He Hc. rewrite calculate_tax_unfold.
  destruct (tax_before_rounding_cases gross) as [[Hv ->]|[[Hv ->]|[[Hv ->]|[Hv ->]]]].
  - cbn [rbind]. rewrite round_currency_eval. apply half_up_2_val.
    rewrite val_schedule, val_of_Z, progressive_bracket_1; [reflexivity|exact Hv].
  - unfold bracket_2, TAX_BRACKET_1_MAX.
    destruct (sub_bound_exact gross 1000 He Hc ltac:(lia)) as (-> & Hde & Hdc).
    cbn [rbind].
    destruct (mul_rate_exact _ 10 Hde Hdc ltac:(lia)) as (-> & _).
    cbn [rbind]. rewrite round_currency_eval. apply half_up_2_val.
    rewrite val_schedule, val_exact_product, val_exact_sub, val_of_Z, val_cents,
      progressive_bracket_2; [reflexivity|exact Hv].
  - unfold bracket_3, TAX_BRACKET_2_MAX.
    destruct (sub_bound_exact gross 3000 He Hc ltac:(lia)) as (-> & Hde & Hdc).
    cbn [rbind].
    destruct (mul_rate_exact _ 20 Hde Hdc ltac:(lia)) as (-> & Hte & Htc).
    cbn [rbind]. rewrite (add_base_exact 20000 _ ltac:(lia) Hte Htc).
    cbn [rbind]. rewrite round_currency_eval. apply half_up_2_val.
    rewrite val_schedule, val_exact_add, val_exact_product, val_exact_sub, val_of_Z,
      !val_cents, progressive_bracket_3; [reflexivity|exact Hv].
  - unfold bracket_4, TAX_BRACKET_3_MAX.
    destruct (sub_bound_exact gross 5000 He Hc ltac:(lia)) as (-> & Hde & Hdc).
    cbn [rbind].
    destruct (mul_rate_exact _ 30 Hde Hdc ltac:(lia)) as (-> & Hte & Htc).
    cbn [rbind]. rewrite (add_base_exact 60000 _ ltac:(lia) Hte Htc).
    cbn [rbind]. rewrite round_currency_eval. apply half_up_2_val.
    rewrite val_schedule, val_exact_add, val_exact_product, val_exact_sub, val_of_Z,
      !val_cents, progressive_bracket_4; [reflexivity|exact Hv].
Qed.

(** The value of a gross pay with at most 26 digits. *)
Lemma plain_coef_bound (gross : Decimal) :
  (Z.abs (plain_coef gross) < 10 ^ 26)%Z ->
  Rabs (val gross) <= 99999999999999999999999999.
Proof.
  intros Hc.
  assert (Hm : (Z.min (expo gross) 0 <= expo gross)%Z) by lia.
  rewrite (val_scale gross _ Hm). fold (plain_coef gross).
  assert (Hc' : (Z.abs (plain_coef gross) <= 99999999999999999999999999)%Z) by lia.
  apply IZR_le in Hc'. rewrite abs_IZR in Hc'.
  assert (H0 := pow10_pos (Z.min (expo gross) 0)).
  assert (H1 : pow10 (Z.min (expo gross) 0) <= pow10 0) by (apply pow10_le; lia).
  change (pow10 0) with 1 in H1.
  rewrite Rabs_mult, (Rabs_pos_eq (pow10 _)) by lra.
  assert (H2 := Rabs_pos (IZR (plain_coef gross))). nra.
Qed.

(** In that range the rounded schedule is a decimal of the context. *)
Lemma half_up_2_schedule_defined (gross : Decimal) :
  (Z.abs (plain_coef gross) < 10 ^ 26)%Z -> exists tax, half_up_2 (schedule gross) = Ok tax.
Proof.
  intros Hc. rewrite <- round_currency_eval. apply round_currency_defined.
  rewrite val_schedule.
  assert (Hb := plain_coef_bound gross Hc).
  destruct (progressive_range (val gross)) as [H0 H1].
  rewrite Rabs_pos_eq by exact H0. lra.
Qed.

End Schedule.

(** C2 (amended) -- the tax of a gross pay of at most 1000 is 0; the tax of
    2000, 3000, 4000, 5000 and 6000 is 100.00, 200.00, 400.00, 600.00 and
    900.00; and for every gross pay of at most 20 decimals whose digits,
    written out, number at most 26 (any gross pay in cents below
    [10 ^ 24] in magnitude, for one) [calculate_tax] returns the progressive
    schedule (0% up to 1000, 10% from 1000 to 3000, 20% from 3000 to 5000,
    30% above 5000) rounded half-up to two decimals once, at the end.  The
    schedule is [schedule], whose value is [progressive] of the value of
    the gross pay; on a gross pay in cents it is [schedule_tax]. *)
Theorem calculate_tax_schedule :
  (forall gross, leb gross (of_Z 1000) = true -> calculate_tax gross = Ok (dec 0 (-2))) /\
  calculate_tax (of_Z 2000) = Ok (dec 10000 (-2)) /\
  calculate_tax (of_Z 3000) = Ok (dec 20000 (-2)) /\
  calculate_tax (of_Z 4000) = Ok (dec 40000 (-2)) /\
  calculate_tax (of_Z 5000) = Ok (dec 60000 (-2)) /\
  calculate_tax (of_Z 6000) = Ok (dec 90000 (-2)) /\
  (forall c, Z.abs c < 10 ^ 26 ->
     calculate_tax (mk c (-2)) = half_up_2 (schedule_tax c)) /\
  (forall gross, -20 <= expo gross -> Z.abs (plain_coef gross) < 10 ^ 26 ->
     calculate_tax gross = half_up_2 (schedule gross) /\
     exists tax, calculate_tax gross = Ok tax) /\
  (forall gross, val (schedule gross) = progressive (val gross)).
Proof.
  split; [|split; [|split; [|split; [|split; [|split; [|split; [|split]]]]]]].
  - intros gross Hle. rewrite calculate_tax_unfold. unfold tax_before_rounding.
    change TAX_BRACKET_1_MAX with (of_Z 1000). rewrite Hle. reflexivity.
  - vm_compute. reflexivity.
  - vm_compute. reflexivity.
  - vm_compute. reflexivity.
  - vm_compute. reflexivity.
  - vm_compute. reflexivity.
  - exact calculate_tax_cents.
  - intros gross He Hc. rewrite (calculate_tax_exact gross He Hc).
    split; [reflexivity|]. apply half_up_2_schedule_defined, Hc.
  - exact val_schedule.
Qed.

(** A gross pay of 1000.045, with three decimals: 10% of the 0.045 above
    1000 is 0.0045, which rounds to 0.00. *)
Lemma calculate_tax_schedule_witness :
  calculate_tax (dec 1000045 (-3)) = Ok (dec 0 (-2)).
Proof.
  refine (eq_trans
            (proj1 (proj1 (proj2 (proj2 (proj2 (proj2 (proj2 (proj2 (proj2
               calculate_tax_schedule)))))))
               (dec 1000045 (-3)) _ _)) _).
  - cbn [expo dec]. lia.
  - vm_compute. reflexivity.
  - vm_compute. reflexivity.
Defined.

(** C2, as stated, fails for a gross pay of 40000000000000000000005000.15:
    the schedule gives 12000000000000000000000600.045, that is ...600.05
    rounded once at the end, but the 30% product has 30 digits, the context
    rounds it half-even to 28 first, and [calculate_tax] returns ...600.04.
    It fails for a small gross pay with many decimals too:
    5000.016666666666666666666666665 is taxed 600.0049999999999999999999999995
    by the schedule, that is 600.00, but the sum has 32 digits, the context
    rounds it to 600.0050000000000000000000000, and [calculate_tax] returns
    600.01. *)
Lemma tax_rounded_twice :
  calculate_tax (dec 4000000000000000000000500015 (-2))
    = Ok (dec 1200000000000000000000060004 (-2)) /\
  half_up_2 (schedule_tax 4000000000000000000000500015)
    = Ok (dec 1200000000000000000000060005 (-2)) /\
  calculate_tax (dec 5000016666666666666666666666665 (-27)) = Ok (dec 60001 (-2)) /\
  half_up_2 (schedule (dec 5000016666666666666666666666665 (-27))) = Ok (dec 60000 (-2)).
Proof. repeat split; vm_compute; reflexivity. Qed.

(** * The hours limit of part-time employees *)

(** The exceptions the arithmetic raises. *)
Lemma fix_raises (x : Decimal) (e : exn) : _fix x = Raise e -> e = Overflow.
Proof.
  unfold _fix. destruct (coef x =? 0); [discriminate|].
  destruct (Etop <? _); [intros [= <-]; reflexivity|].
  destruct (expo x <? _); [|discriminate].
  destruct (prec <? _); destruct (Etop <? _); try discriminate;
    intros [= <-]; reflexivity.
Qed.

Lemma round_currency_raises (x : Decimal) (e : exn) :
  _round_currency x = Raise e -> e = InvalidOperation.
Proof.
  rewrite round_currency_eval. unfold half_up_2.
  destruct (_ <? _); [discriminate|]. intros [= <-]. reflexivity.
Qed.

Lemma mul_then_round_raises (x y : Decimal) (e : exn) :
  (p <-- mul x y ;; _round_currency p) = Raise e -> arithmetic e.
Proof.
  destruct (mul x y) as [p|e'] eqn:Hm; cbn [rbind].
  - intros H. left. eapply round_currency_raises, H.
  - intros [= <-]. right. eapply fix_raises, Hm.
Qed.

(** What [calculate_gross_pay] does with the 120 worked units of a part-time
    employee: the product, then [_round_currency]. *)
Lemma gross_part_time_120 (st : Store) (e : ref) :
  employee_type (st e) = Some PART_TIME ->
  run (calculate_gross_pay e (of_Z 120)) st
    = p <-- mul (pay_rate (st e)) (of_Z 120) ;; _round_currency p.
Proof.
  intros Ht. rewrite gross_part_time by exact Ht.
  change (gtb (of_Z 120) (of_Z MAX_PART_TIME_HOURS)) with false. reflexivity.
Qed.

(** A product below [10 ^ 26 - 1] in magnitude is rounded by the context to
    a decimal that [_round_currency] accepts. *)
Lemma mul_then_round_defined (x y : Decimal) :
  (Rabs (val x * val y) < 99999999999999999999999999)%R ->
  exists g, (p <-- mul x y ;; _round_currency p) = Ok g.
Proof.
  intros Hb.
  destruct (mul_defined x y) as [p Hp].
  { assert (H1 := pow10_30_Emax). assert (H2 := pow10_30). lra. }
  rewrite Hp. cbn [rbind]. apply round_currency_defined.
  assert (Hfl := mul_fl _ _ _ Hp).
  assert (Hhi : fl (val (mk 99999999999999999999999999 0))
                   (val (mk 99999999999999999999999999 0))) by (apply fix_fl; by_eval).
  assert (Hlo : fl (val (mk (-99999999999999999999999999) 0))
                   (val (mk (-99999999999999999999999999) 0))) by (apply fix_fl; by_eval).
  unfold val in Hhi, Hlo. cbn [coef expo] in Hhi, Hlo.
  change (pow10 0) with 1%R in Hhi, Hlo. rewrite Rmult_1_r in Hhi, Hlo.
  assert (Hle1 := fl_mono _ _ _ _ Hfl Hhi).
  assert (Hle2 := fl_mono _ _ _ _ Hlo Hfl).
  revert Hb Hle1 Hle2. unfold Rabs. repeat destruct (Rcase_abs _); intros; lra.
Qed.

(** C3 (amended) -- for a [PART_TIME] employee, more than 120 worked units
    (121, say) make [calculate_gross_pay] raise the [ValueError] of the hours
    limit; [generate_pay_slip] raises it too and builds no payslip, and
    [process_monthly_payroll] raises it as soon as the employees before have
    their payslips, returning no list.  120 worked units pass the check:
    the call never raises a [ValueError]; it returns whenever the pay rate
    times 120 is below [10 ^ 26 - 1] in magnitude; a gross pay it returns is
    the pay rate times 120 rounded as the decimal context rounds ([fl]:
    half-even to 28 significant digits) and then half-up to two decimals.
    That is the product rounded half-up once when the context holds the
    product as it is ([representable]: at most 28 digits), and the product
    itself for a pay rate in cents whose product stays below [10 ^ 26].
    When the call does not return it raises [InvalidOperation] or
    [Overflow]. *)
Theorem part_time_hours_limit (st : Store) (e : ref) :
  employee_type (st e) = Some PART_TIME ->
  (forall h, gtb h (of_Z MAX_PART_TIME_HOURS) = true ->
     run (calculate_gross_pay e h) st = Raise (ValueError HoursExceeded) /\
     run (generate_pay_slip e h) st = Raise (ValueError HoursExceeded)) /\
  gtb (of_Z 121) (of_Z MAX_PART_TIME_HOURS) = true /\
  (representable (exact_mul (pay_rate (st e)) (of_Z 120)) ->
     run (calculate_gross_pay e (of_Z 120)) st
       = half_up_2 (exact_mul (pay_rate (st e)) (of_Z 120))) /\
  (forall c, pay_rate (st e) = mk c (-2) -> Z.abs (c * 120) < 10 ^ 28 ->
     run (calculate_gross_pay e (of_Z 120)) st = Ok (mk (c * 120) (-2))) /\
  (forall before after hours_or_days_map,
     gtb (spec_units hours_or_days_map (st e)) (of_Z MAX_PART_TIME_HOURS) = true ->
     (forall b, In b before ->
        exists p, run (generate_pay_slip b (spec_units hours_or_days_map (st b))) st = Ok p) ->
     process_monthly_payroll (before ++ e :: after) hours_or_days_map st
       = (st, Raise (ValueError HoursExceeded))) /\
  (forall x, run (calculate_gross_pay e (of_Z 120)) st = Raise x -> arithmetic x) /\
  ((Rabs (val (pay_rate (st e)) * 120) < 99999999999999999999999999)%R ->
     exists gross, run (calculate_gross_pay e (of_Z 120)) st = Ok gross) /\
  (forall gross, run (calculate_gross_pay e (of_Z 120)) st = Ok gross ->
     exists p, mul (pay_rate (st e)) (of_Z 120) = Ok p /\
               _round_currency p = Ok gross /\
               fl (val (pay_rate (st e)) * 120) (val p) /\
               rounds_to ROUND_HALF_UP (-2) (val p) (val gross) /\
               expo gross = -2).
Proof.
  intros Ht.
  assert (Hover : forall h, gtb h (of_Z MAX_PART_TIME_HOURS) = true ->
            run (calculate_gross_pay e h) st = Raise (ValueError HoursExceeded) /\
            run (generate_pay_slip e h) st = Raise (ValueError HoursExceeded)).
  { intros h Hh.
    assert (Hg : run (calculate_gross_pay e h) st = Raise (ValueError HoursExceeded))
      by (rewrite gross_part_time, Hh by exact Ht; reflexivity).
    split; [exact Hg|]. rewrite generate_run, Hg. reflexivity. }
  assert (H120 : representable (exact_mul (pay_rate (st e)) (of_Z 120)) ->
            run (calculate_gross_pay e (of_Z 120)) st
              = half_up_2 (exact_mul (pay_rate (st e)) (of_Z 120))).
  { intros Hrep. rewrite gross_part_time_120 by exact Ht.
    apply gross_product, Hrep. }
  split; [exact Hover|]. split; [reflexivity|]. split; [exact H120|].
  split; [|split; [|split; [|split]]].
  - intros c Hc Hsmall. rewrite H120.
    + rewrite Hc. unfold half_up_2, round_cents, exact_mul, of_Z. cbn [coef expo].
      change (-2 + 0) with (-2). change (-2 <=? -2) with true. cbv iota.
      change (10 ^ (-2 + 2)) with 1. rewrite Z.mul_1_r.
      destruct (Z.ltb_spec (Z.abs (c * 120)) (10 ^ 28)); [reflexivity|lia].
    + rewrite Hc. unfold representable, exact_mul, of_Z, Etiny, Etop, Emin, Emax, prec.
      cbn [coef expo]. lia.
  - intros before after m Hh Hbefore.
    rewrite (read_only_run _ st (read_only_process_monthly_payroll _ _)).
    f_equal. rewrite process_monthly_payroll_run.
    apply map_result_raise; [exact Hbefore|]. apply Hover, Hh.
  - intros x. rewrite gross_part_time_120 by exact Ht. apply mul_then_round_raises.
  - intros Hb. rewrite gross_part_time_120 by exact Ht.
    apply mul_then_round_defined. rewrite val_of_Z. exact Hb.
  - intros gross. rewrite gross_part_time_120 by exact Ht.
    destruct (mul (pay_rate (st e)) (of_Z 120)) as [p|x] eqn:Hp; cbn [rbind];
      [|discriminate].
    intros Hg. exists p. split; [reflexivity|]. split; [exact Hg|].
    split; [|].
    + apply mul_fl in Hp. rewrite val_of_Z in Hp. exact Hp.
    + destruct (round_currency_spec _ _ Hg) as (q & Hq & _ & Hr).
      split; [exact Hr|]. rewrite Hq. reflexivity.
Qed.

(** The part-timer of [test_part_time_exceeds_max_hours_raises]: 121 hours. *)
Lemma part_time_hours_limit_witness :
  run (calculate_gross_pay 0%nat (of_Z 121))
      (store_of [emp 4 "Dave" PART_TIME (dec 250 (-1)) false false])
    = Raise (ValueError HoursExceeded).
Proof.
  exact (proj1 (proj1 (part_time_hours_limit
                         (store_of [emp 4 "Dave" PART_TIME (dec 250 (-1)) false false])
                         0%nat eq_refl) (of_Z 121) eq_refl)).
Defined.

(** C3, as stated, fails for an hourly rate of [1E+24]: 120 hours are within
    the limit, but the gross pay [1.20E+26] does not fit two decimals in 28
    digits and [calculate_gross_pay] raises [InvalidOperation]. *)
Lemma part_time_120_hours_raises :
  let st := store_of [emp 4 "Dave" PART_TIME (dec 1 24) false false] in
  employee_type (st 0%nat) = Some PART_TIME /\
  gtb (of_Z 120) (of_Z MAX_PART_TIME_HOURS) = false /\
  run (calculate_gross_pay 0%nat (of_Z 120)) st = Raise InvalidOperation.
Proof. repeat split; vm_compute; reflexivity. Qed.

(** A pay rate of 0.3333333333333333333333333333: the product by 120 has 30
    digits, the context rounds it to 40.00000000000000000000000000, and the
    gross pay is 40.00. *)
Example part_time_rate_of_28_decimals :
  run (calculate_gross_pay 0%nat (of_Z 120))
      (store_of [emp 4 "Dave" PART_TIME (dec 3333333333333333333333333333 (-28)) false false])
    = Ok (dec 4000 (-2)).
Proof. vm_compute. reflexivity. Qed.

(** * Further properties of the payroll code *)

(** ** [_round_currency] *)

(** X1 -- when [_round_currency] returns, the result has exactly two decimal
    places, lies within half a cent of the argument, is the neighbour
    farther from zero when the argument is exactly half-way between two
    cents, and is left as it is by a second rounding. *)
Theorem round_currency_half_up (x y : Decimal) :
  _round_currency x = Ok y ->
  expo y = -2 /\
  (Rabs (val y - val x) <= / 200)%R /\
  (Rabs (val y - val x) = / 200 -> Rabs (val x) < Rabs (val y))%R /\
  _round_currency y = Ok y.
Proof.
  intros H.
  destruct (round_currency_spec _ _ H) as (q & -> & Hq & _ & Hclose & Htie).
  assert (Hp : (pow10 (-2) / 2 = / 200)%R) by (unfold pow10, powerRZ; simpl; lra).
  rewrite Hp in Hclose, Htie.
  split; [reflexivity|]. split; [exact Hclose|]. split; [exact Htie|].
  apply round_currency_cents, Hq.
Qed.

(** 2.675 rounds to 2.68, not to the 2.67 of a binary float. *)
Lemma round_currency_half_up_witness :
  _round_currency (dec 2675 (-3)) = Ok (dec 268 (-2)) /\
  expo (dec 268 (-2)) = -2 /\
  _round_currency (dec 268 (-2)) = Ok (dec 268 (-2)).
Proof.
  assert (H : _round_currency (dec 2675 (-3)) = Ok (dec 268 (-2)))
    by (vm_compute; reflexivity).
  destruct (round_currency_half_up _ _ H) as (He & _ & _ & Hi).
  split; [exact H|]. split; [exact He|exact Hi].
Defined.

(** X2 -- [_round_currency] returns for every amount below
    [10 ^ 26 - 0.005] in magnitude, and raises [InvalidOperation] for every
    amount from there on: two decimals of such an amount need more than the
    28 digits of the context. *)
Theorem round_currency_range (x : Decimal) :
  ((Rabs (val x) < 100000000000000000000000000 - / 200)%R ->
     exists y, _round_currency x = Ok y) /\
  ((100000000000000000000000000 - / 200 <= Rabs (val x))%R ->
     _round_currency x = Raise InvalidOperation).
Proof.
  rewrite round_currency_eval. unfold half_up_2.
  destruct (round_cents_rounds_to x) as (_ & Hclose & Htie).
  assert (Hp : (pow10 (-2) = / 100)%R) by (unfold pow10, powerRZ; simpl; lra).
  rewrite Hp in Hclose, Htie.
  destruct (Z.ltb_spec (Z.abs (round_cents x)) (10 ^ 28)) as [Hq|Hq]; split.
  - eauto.
  - intros Hx. exfalso.
    assert (Hq' : (Z.abs (round_cents x) <= 9999999999999999999999999999)%Z) by lia.
    apply IZR_le in Hq'. rewrite abs_IZR in Hq'.
    assert (Hd : (Rabs (IZR (round_cents x) * / 100 - val x) = / 100 / 2)%R).
    { clear Htie. revert Hx Hq' Hclose. unfold Rabs.
      repeat destruct (Rcase_abs _); intros; lra. }
    specialize (Htie Hd). clear Hd.
    revert Hx Hq' Hclose Htie. unfold Rabs.
    repeat destruct (Rcase_abs _); intros; lra.
  - intros Hx. exfalso.
    apply IZR_le in Hq. rewrite abs_IZR in Hq.
    change (IZR (10 ^ 28)) with 10000000000000000000000000000%R in Hq.
    revert Hx Hq Hclose. unfold Rabs. repeat destruct (Rcase_abs _); intros; lra.
  - reflexivity.
Qed.

Lemma round_currency_range_witness :
  (exists y, _round_currency (dec 99999999999999999999999999994 (-3)) = Ok y) /\
  _round_currency (dec 99999999999999999999999999995 (-3)) = Raise InvalidOperation.
Proof.
  assert (Hp : pow10 (-3) = (/ 1000)%R) by (unfold pow10, powerRZ; simpl; lra).
  split.
  - apply (proj1 (round_currency_range (dec 99999999999999999999999999994 (-3)))).
    unfold val, dec. cbn [coef expo]. rewrite Hp.
    unfold Rabs. destruct (Rcase_abs _); lra.
  - apply (proj2 (round_currency_range (dec 99999999999999999999999999995 (-3)))).
    unfold val, dec. cbn [coef expo]. rewrite Hp.
    unfold Rabs. destruct (Rcase_abs _); lra.
Defined.

(** ** [calculate_gross_pay] *)

Lemma gtb_of_Z (n m : Z) : gtb (of_Z n) (of_Z m) = (m <? n).
Proof.
  unfold gtb, cmp, of_Z. cbn [coef expo].
  change (Z.min 0 0) with 0. change (10 ^ (0 - 0)) with 1.
  destruct (Z.compare_spec (n * 1) (m * 1)), (Z.ltb_spec m n); try reflexivity; lia.
Qed.

Lemma mul_cents_units (c n : Z) :
  Z.abs (c * n) < 10 ^ 28 ->
  (gross <-- mul (mk c (-2)) (of_Z n) ;; _round_currency gross) = Ok (mk (c * n) (-2)).
Proof.
  intros H. unfold mul, of_Z. cbn [coef expo]. change (-2 + 0) with (-2).
  rewrite fix_cents by exact H. cbn [rbind]. apply round_currency_cents, H.
Qed.

(** X3 -- for a pay rate in cents and a whole number [n] of worked units,
    the gross pay of a [CONTRACTOR], and of a [PART_TIME] employee when
    [n <= 120], is exactly the pay rate times [n] (when that amount has at
    most 28 digits).  The units are not checked otherwise: a contractor may
    have more than 120, and negative units give a negative gross pay. *)
Theorem calculate_gross_pay_whole_units (st : Store) (e : ref) (c n : Z) :
  pay_rate (st e) = mk c (-2) ->
  Z.abs (c * n) < 10 ^ 28 ->
  (employee_type (st e) = Some CONTRACTOR ->
     run (calculate_gross_pay e (of_Z n)) st = Ok (mk (c * n) (-2))) /\
  (employee_type (st e) = Some PART_TIME -> n <= 120 ->
     run (calculate_gross_pay e (of_Z n)) st = Ok (mk (c * n) (-2))).
Proof.
  intros Hrate Hb. split.
  - intros Ht. rewrite gross_contractor, Hrate by exact Ht. apply mul_cents_units, Hb.
  - intros Ht Hn. rewrite gross_part_time, Hrate by exact Ht.
    rewrite gtb_of_Z. unfold MAX_PART_TIME_HOURS.
    destruct (Z.ltb_spec 120 n); [lia|]. apply mul_cents_units, Hb.
Qed.

(** A contractor at 250.00 a day: 121 days, and 3 days owed back. *)
Lemma calculate_gross_pay_whole_units_witness :
  let st := store_of [emp 106 "Frank Chen" CONTRACTOR (dec 25000 (-2)) true false] in
  run (calculate_gross_pay 0%nat (of_Z 121)) st = Ok (dec 3025000 (-2)) /\
  run (calculate_gross_pay 0%nat (of_Z (-3))) st = Ok (dec (-75000) (-2)).
Proof.
  split.
  - apply (proj1 (calculate_gross_pay_whole_units
                    (store_of [emp 106 "Frank Chen" CONTRACTOR (dec 25000 (-2)) true false])
                    0%nat 25000 121 eq_refl ltac:(lia)) eq_refl).
  - apply (proj1 (calculate_gross_pay_whole_units
                    (store_of [emp 106 "Frank Chen" CONTRACTOR (dec 25000 (-2)) true false])
                    0%nat 25000 (-3) eq_refl ltac:(lia)) eq_refl).
Defined.

(** ** [generate_pay_slip] *)

Section PayslipReturns.
Local Open Scope R_scope.

Lemma calculate_tax_bounded (g : Decimal) :
  val g <= 100000000000000000000000000 ->
  exists t, calculate_tax g = Ok t /\
            0 <= val t <= val (mk 2999999999999999999999910000 (-2)).
Proof.
  intros Hg. rewrite calculate_tax_unfold.
  assert (Hround : forall s : Decimal,
            0 <= val s <= val (mk 2999999999999999999999910000 (-2)) ->
            exists t, _round_currency s = Ok t /\
                      0 <= val t <= val (mk 2999999999999999999999910000 (-2))).
  { intros s Hs.
    destruct (round_currency_sandwich s (of_Z 0)
                (mk 2999999999999999999999910000 (-2))
                (mk 0 (-2)) (mk 2999999999999999999999910000 (-2)))
      as (t & Ht & Hb); [by_eval|by_eval|rewrite val_of_Z; exact Hs|].
    exists t. split; [exact Ht|]. rewrite (val_cents 0) in Hb. lra. }
  assert (Hbig : 600 <= val (mk 2999999999999999999999910000 (-2)))
    by (rewrite val_cents; lra).
  destruct (tax_before_rounding_cases g) as [[B E]|[[B E]|[[B E]|[B E]]]];
    rewrite E.
  - cbn [rbind]. apply Hround. rewrite val_of_Z. lra.
  - destruct (bracket_2_defined g) as (s & -> & Hs); [lra|].
    cbn [rbind]. apply Hround. lra.
  - destruct (bracket_3_defined g) as (s & -> & Hs); [lra|].
    cbn [rbind]. apply Hround. lra.
  - destruct (bracket_4_defined g) as (s & -> & Hs); [lra|].
    cbn [rbind]. apply Hround. lra.
Qed.

Lemma retirement_of_nonneg (g : Z) :
  (0 <= g < 10 ^ 28)%Z ->
  exists r : Z,
    (p <-- mul (mk g (-2)) RETIREMENT_RATE ;; _round_currency p) = Ok (mk r (-2)) /\
    (0 <= r <= 5 * 10 ^ 26)%Z.
Proof.
  intros Hg.
  assert (Hg1 : (g <= 9999999999999999999999999999)%Z) by lia.
  assert (Hg0 : (0 <= g)%Z) by lia.
  apply IZR_le in Hg1, Hg0.
  destruct (mul_sandwich (mk g (-2)) (mk 0 (-2)) (mk 9999999999999999999999999999 (-2))
              RETIREMENT_RATE (mk 0 (-4)) (mk 5000000000000000000000000000 (-3)))
    as (p & Hp & Hpb);
    [by_eval|by_eval|unfold RETIREMENT_RATE; rewrite val_cents; lra
    |rewrite !val_cents; lra
    |unfold RETIREMENT_RATE; rewrite !val_cents, pow10_30; rabs|].
  rewrite Hp. cbn [rbind].
  destruct (round_currency_sandwich p (mk 0 (-4)) (mk 5000000000000000000000000000 (-3))
              (mk 0 (-2)) (mk 500000000000000000000000000 (-2)))
    as (y & Hy & Hb); [by_eval|by_eval|exact Hpb|].
  destruct (round_currency_spec _ _ Hy) as (r & -> & _).
  exists r. split; [exact Hy|].
  rewrite !val_cents in Hb.
  assert (H1 : (0 <= r)%Z) by (apply le_IZR; lra).
  assert (H2 : (r <= 500000000000000000000000000)%Z) by (apply le_IZR; lra).
  lia.
Qed.

Lemma sum_cents_entries (st : Store) (e : ref) (v : Decimal) :
  sum_cents (dict_values (health_entry st e ++ retirement_entry st e v ++ union_entry st e))
    = ((if type_is (employee_type (st e)) FULL_TIME then 15000 else 0)
       + (if has_retirement (st e) then cents v else 0)
       + (if is_union_member (st e) then 5000 else 0))%Z.
Proof.
  unfold health_entry, retirement_entry, union_entry.
  destruct (type_is _ FULL_TIME), (has_retirement (st e)), (is_union_member (st e));
    unfold sum_cents, dict_values; cbn [app map snd fold_right];
    try change (cents HEALTH_INSURANCE) with 15000%Z;
    try change (cents UNION_DUES) with 5000%Z; lia.
Qed.

(** With a gross pay of [g >= 0] cents the rest of [generate_pay_slip]
    returns: tax, deductions, their sum and the net pay. *)
Lemma payslip_of_gross (st : Store) (e : ref) (h : Decimal) (g : Z) :
  run (calculate_gross_pay e h) st = Ok (mk g (-2)) ->
  (0 <= g < 10 ^ 28)%Z ->
  exists (p : PaySlip) (t n r : Z),
    run (generate_pay_slip e h) st = Ok p /\
    gross_pay p = mk g (-2) /\ tax_amount p = mk t (-2) /\ net_pay p = mk n (-2) /\
    deductions p
      = health_entry st e ++ retirement_entry st e (mk r (-2)) ++ union_entry st e /\
    (0 <= t)%Z /\ (0 <= r)%Z /\
    n = (g - t - sum_cents (dict_values (deductions p)))%Z /\
    (0 <= sum_cents (dict_values (deductions p)))%Z.
Proof.
  intros Hgross Hg.
  rewrite generate_run, Hgross. cbn [rbind].
  assert (Hg1 : (g <= 9999999999999999999999999999)%Z) by lia.
  apply IZR_le in Hg1.
  destruct (calculate_tax_bounded (mk g (-2))) as (tax & Htax & Htb);
    [rewrite val_cents; lra|].
  destruct (calculate_tax_in_cents _ _ Htax) as (t & -> & Ht & _).
  rewrite val_cents in Htb.
  assert (Ht1 : (t <= 2999999999999999999999910000)%Z)
    by (apply le_IZR; rewrite val_cents in Htb; lra).
  rewrite Htax. cbn [rbind].
  destruct (retirement_of_nonneg g Hg) as (r & Hret & Hr).
  assert (Hv : has_retirement (st e) = true ->
               mk r (-2) = mk r (-2) /\ (Z.abs r <= 5 * 10 ^ 26)%Z)
    by (intros _; split; [reflexivity|lia]).
  destruct (py_sum_deductions st e (mk r (-2)) r Hv) as (total & Hsum & Hexp & Hcents & _).
  assert (Hsc := sum_cents_entries st e (mk r (-2))).
  assert (Hcr : cents (mk r (-2)) = r).
  { unfold cents. cbn [coef expo]. change (10 ^ (-2 + 2))%Z with 1%Z. lia. }
  rewrite Hcr in Hsc.
  assert (Htot : (0 <= cents total <= 5 * 10 ^ 26 + 20000)%Z).
  { rewrite Hcents, Hsc.
    destruct (type_is _ FULL_TIME), (has_retirement (st e)), (is_union_member (st e)); lia. }
  assert (Hded : run (calculate_deductions e (mk g (-2))) st
                 = Ok (health_entry st e ++ retirement_entry st e (mk r (-2))
                       ++ union_entry st e)).
  { rewrite deductions_run. unfold retirement_entry.
    destruct (has_retirement (st e)); [|reflexivity].
    rewrite Hret. reflexivity. }
  rewrite Hded. cbn [rbind]. rewrite Hsum. cbn [rbind].
  rewrite sub_cents by lia. cbn [rbind].
  rewrite sub_cents_total by (assumption || lia). cbn [rbind].
  rewrite round_currency_cents by lia. cbn [rbind].
  eexists. exists t, (g - t - cents total)%Z, r.
  split; [reflexivity|]. cbn [gross_pay tax_amount net_pay deductions].
  rewrite <- Hcents.
  repeat split; try reflexivity; lia.
Qed.

End PayslipReturns.

Lemma leb_zero_cents (q : Z) : leb (of_Z 0) (mk q (-2)) = (0 <=? q).
Proof.
  unfold leb, cmp, of_Z. cbn [coef expo].
  change (Z.min 0 (-2)) with (-2). change (10 ^ (0 - -2)) with 100.
  change (10 ^ (-2 - -2)) with 1.
  destruct (Z.compare_spec (0 * 100) (q * 1)), (Z.leb_spec 0 q); try reflexivity; lia.
Qed.

Lemma leb_cents_cents (a b : Z) : leb (mk a (-2)) (mk b (-2)) = (a <=? b).
Proof.
  unfold leb, cmp. cbn [coef expo].
  change (Z.min (-2) (-2)) with (-2). change (10 ^ (-2 - -2)) with 1.
  destruct (Z.compare_spec (a * 1) (b * 1)), (Z.leb_spec a b); try reflexivity; lia.
Qed.

(** X4 -- [generate_pay_slip] fails exactly as [calculate_gross_pay] does
    when that fails, and returns a payslip, holding that gross pay, whenever
    [calculate_gross_pay] returns a gross pay that is not negative: the tax,
    the deductions, their sum and the net pay then never raise.  A negative
    gross pay can still make the net pay raise [InvalidOperation]. *)
Theorem generate_pay_slip_returns :
  (forall (st : Store) (e : ref) (h : Decimal) (x : exn),
     run (calculate_gross_pay e h) st = Raise x ->
     run (generate_pay_slip e h) st = Raise x) /\
  (forall (st : Store) (e : ref) (h g : Decimal),
     run (calculate_gross_pay e h) st = Ok g ->
     leb (of_Z 0) g = true ->
     exists p, run (generate_pay_slip e h) st = Ok p /\ gross_pay p = g) /\
  (let st := store_of [emp 1 "Alice" FULL_TIME
                         (dec (-9999999999999999999999999999) (-2)) false false] in
   run (calculate_gross_pay 0%nat (of_Z 0)) st
     = Ok (dec (-9999999999999999999999999999) (-2)) /\
   run (generate_pay_slip 0%nat (of_Z 0)) st = Raise InvalidOperation).
Proof.
  split; [|split].
  - intros st e h x Hx. rewrite generate_run, Hx. reflexivity.
  - intros st e h g Hg Hpos.
    destruct (gross_is_rounded st e h _ Hg) as [x Hx].
    destruct (round_currency_spec _ _ Hx) as (q & -> & Hq & _).
    rewrite leb_zero_cents in Hpos. apply Z.leb_le in Hpos.
    destruct (payslip_of_gross st e h q Hg) as (p & t & n & r & Hp & Hgp & _); [lia|].
    exists p. split; assumption.
  - split; vm_compute; reflexivity.
Qed.

(** David Brown of the demonstration, 100 hours at 28.50. *)
Lemma generate_pay_slip_returns_witness :
  exists p, run (generate_pay_slip 3%nat (of_Z 100)) (store_of demo) = Ok p /\
            gross_pay p = dec 285000 (-2).
Proof.
  apply (proj1 (proj2 generate_pay_slip_returns) (store_of demo) 3%nat (of_Z 100));
    vm_compute; reflexivity.
Defined.

(** X5 -- in a payslip whose gross pay is not negative nothing is added to
    the gross pay: the tax is not negative, no deduction value is negative,
    and the net pay is at most the gross pay. *)
Theorem net_pay_at_most_gross (st : Store) (e : ref) (h : Decimal) (p : PaySlip) :
  run (generate_pay_slip e h) st = Ok p ->
  leb (of_Z 0) (gross_pay p) = true ->
  leb (of_Z 0) (tax_amount p) = true /\
  Forall (fun v => leb (of_Z 0) v = true) (dict_values (deductions p)) /\
  leb (net_pay p) (gross_pay p) = true.
Proof.
  intros Hp Hpos.
  destruct (generate_inv _ _ _ _ Hp) as (_ & _ & _ & _ & Hg & _).
  destruct (gross_is_rounded st e h _ Hg) as [x Hx].
  destruct (round_currency_spec _ _ Hx) as (q & Eq & Hq & _).
  rewrite Eq in Hg, Hpos. rewrite leb_zero_cents in Hpos. apply Z.leb_le in Hpos.
  destruct (payslip_of_gross st e h q Hg)
    as (p' & t & n & r & Hp' & Hgp & Htp & Hnp & Hdp & Ht & Hr & Hn & Hs); [lia|].
  rewrite Hp in Hp'. injection Hp' as <-.
  rewrite Hgp, Htp, Hnp, Hdp. split; [|split].
  - rewrite leb_zero_cents. apply Z.leb_le, Ht.
  - unfold health_entry, retirement_entry, union_entry, dict_values.
    destruct (type_is _ FULL_TIME), (has_retirement (st e)), (is_union_member (st e));
      cbn [app map snd]; repeat constructor;
      rewrite leb_zero_cents; apply Z.leb_le, Hr.
  - rewrite leb_cents_cents. apply Z.leb_le. lia.
Qed.

Lemma net_pay_at_most_gross_witness :
  leb (of_Z 0) (tax_amount carol_payslip) = true /\
  Forall (fun v => leb (of_Z 0) v = true) (dict_values (deductions carol_payslip)) /\
  leb (net_pay carol_payslip) (gross_pay carol_payslip) = true.
Proof.
  apply (net_pay_at_most_gross (store_of demo) 2%nat (of_Z 0) carol_payslip);
    vm_compute; reflexivity.
Defined.

(** X6 -- the whole payslip of a [FULL_TIME] employee, not only its gross
    pay, is the same for any two values of the worked units, and so is the
    exception when there is no payslip. *)
Theorem generate_pay_slip_full_time_units (st : Store) (e : ref) (h h' : Decimal) :
  employee_type (st e) = Some FULL_TIME ->
  run (generate_pay_slip e h) st = run (generate_pay_slip e h') st.
Proof.
  intros Ht. rewrite !generate_run, !gross_full_time by exact Ht. reflexivity.
Qed.

Lemma generate_pay_slip_full_time_units_witness :
  run (generate_pay_slip 2%nat (of_Z 0)) (store_of demo)
    = run (generate_pay_slip 2%nat (dec 1605 (-1))) (store_of demo).
Proof.
  exact (generate_pay_slip_full_time_units (store_of demo) 2%nat (of_Z 0) (dec 1605 (-1))
           eq_refl).
Defined.

(** ** [PaySlip.total_deductions] *)

(** What a returned payslip holds, in cents. *)
Lemma payslip_in_cents (st : Store) (e : ref) (h : Decimal) (p : PaySlip) :
  run (generate_pay_slip e h) st = Ok p ->
  exists (g t : Z) (total : Decimal),
    gross_pay p = mk g (-2) /\ tax_amount p = mk t (-2) /\
    py_sum (dict_values (deductions p)) = Ok total /\
    (expo total = -2 \/ expo total = 0) /\
    cents total = sum_cents (dict_values (deductions p)) /\
    net_pay p = mk (g - t - cents total) (-2).
Proof.
  intros H.
  destruct (generate_inv _ _ _ _ H)
    as (total & d1 & d2 & _ & Hg & Ht & Hd & Hsum & Hd1 & Hd2 & Hnet).
  destruct (gross_is_rounded st e h _ Hg) as [x Hx].
  destruct (round_currency_spec _ _ Hx) as (g & Eg & Hgb & _).
  rewrite Eg in *.
  destruct (calculate_tax_in_cents _ _ Ht) as (t & Et & Htb & Ht0).
  rewrite Et in *.
  destruct (deductions_inv _ _ _ _ Hd) as (v & Ed & Hv).
  assert (Hret : exists r, has_retirement (st e) = true ->
                           v = mk r (-2) /\ Z.abs r <= 5 * 10 ^ 26).
  { destruct (has_retirement (st e)).
    - destruct (retirement_in_cents g v Hgb (Hv eq_refl)) as (r & Hr).
      exists r. intros _. exact Hr.
    - exists 0. discriminate. }
  destruct Hret as [r Hret].
  destruct (py_sum_deductions st e v r Hret) as (total' & Hsum' & Hexp & Hcents & Hall).
  rewrite <- Ed in Hsum', Hcents, Hall.
  rewrite Hsum in Hsum'. injection Hsum' as <-.
  rewrite sub_cents in Hd1 by lia. injection Hd1 as <-.
  destruct (sub_then_round _ _ _ _ Hexp Hd2 Hnet) as [En Hnb].
  exists g, t, total. repeat split; assumption.
Qed.

(** X7 -- on a payslip that [generate_pay_slip] returned,
    [total_deductions] returns, never raises, and its result is the exact
    sum of the deduction values, to the cent: the integer 0 when the
    dictionary is empty, and always the amount that the tax and the net pay
    leave of the gross pay. *)
Theorem total_deductions_of_payslip (st : Store) (e : ref) (h : Decimal) (p : PaySlip) :
  run (generate_pay_slip e h) st = Ok p ->
  exists total : Decimal,
    total_deductions p = Ok total /\
    two_decimals total = true /\
    cents total = sum_cents (dict_values (deductions p)) /\
    cents total = cents (gross_pay p) - cents (tax_amount p) - cents (net_pay p) /\
    (deductions p = [] -> total = of_Z 0).
Proof.
  intros H.
  destruct (payslip_in_cents _ _ _ _ H) as (g & t & total & Eg & Et & Hsum & Hexp & Hc & En).
  exists total. unfold total_deductions.
  split; [exact Hsum|]. split; [|split; [exact Hc|split]].
  - unfold two_decimals. destruct Hexp as [-> | ->]; reflexivity.
  - rewrite Eg, Et, En. unfold cents at 2 3 4. cbn [coef expo].
    change (10 ^ (-2 + 2)) with 1. lia.
  - intros Hd. rewrite Hd in Hsum. injection Hsum as <-. reflexivity.
Qed.

Lemma total_deductions_of_payslip_witness :
  exists total : Decimal,
    total_deductions carol_payslip = Ok total /\
    two_decimals total = true /\
    cents total = sum_cents (dict_values (deductions carol_payslip)) /\
    cents total = cents (gross_pay carol_payslip) - cents (tax_amount carol_payslip)
                  - cents (net_pay carol_payslip) /\
    (deductions carol_payslip = [] -> total = of_Z 0).
Proof.
  apply (total_deductions_of_payslip (store_of demo) 2%nat (of_Z 0) carol_payslip).
  vm_compute. reflexivity.
Defined.

(** ** [calculate_tax] on amounts in cents *)

(** The tax of [c] cents is the schedule, in hundredths of a cent, divided
    by 100 and rounded half-up. *)
Lemma calculate_tax_round_div (c : Z) :
  Z.abs c < 10 ^ 26 ->
  let s := coef (schedule_tax c) in
  let t := round_div ROUND_HALF_UP s 100 in
  calculate_tax (mk c (-2)) = Ok (mk t (-2)) /\
  0 <= s /\ s <= 30 * Z.max 0 (c - 100000) /\
  2 * Z.abs (s - t * 100) <= 100 /\ 0 <= t.
Proof.
  intros Hc. cbv zeta.
  assert (Hs : 0 <= coef (schedule_tax c) /\
               coef (schedule_tax c) <= 30 * Z.max 0 (c - 100000)).
  { unfold schedule_tax, amount_between. cbn [coef]. lia. }
  destruct (round_div_spec ROUND_HALF_UP (coef (schedule_tax c)) 100 ltac:(lia))
    as (Hclose & Hpos & _).
  specialize (Hpos (proj1 Hs)).
  rewrite calculate_tax_cents by exact Hc.
  unfold half_up_2, round_cents. change (expo (schedule_tax c)) with (-4).
  change (-2 <=? -4) with false. cbv iota. change (10 ^ (-2 - -4)) with 100.
  set (s := coef (schedule_tax c)) in *.
  set (t := round_div ROUND_HALF_UP s 100) in *.
  destruct (Z.ltb_spec (Z.abs t) (10 ^ 28)) as [_|Hbig]; [|lia].
  repeat split; lia.
Qed.

(** X8 -- for a gross pay of [c] cents, below [10 ^ 24] in magnitude,
    [calculate_tax] returns an amount in cents that is at most 30% of the
    part of the gross pay above 1000.00; so the tax never exceeds a gross
    pay that is not negative. *)
Theorem calculate_tax_at_most_30_percent (c : Z) :
  Z.abs c < 10 ^ 26 ->
  exists t : Z,
    calculate_tax (mk c (-2)) = Ok (mk t (-2)) /\
    0 <= t /\
    10 * t <= 3 * Z.max 0 (c - 100000) /\
    (0 <= c -> t <= c).
Proof.
  intros Hc.
  destruct (calculate_tax_round_div c Hc) as (Ht & _ & _ & Hclose & Hpos).
  eexists. split; [exact Ht|].
  set (t := round_div ROUND_HALF_UP (coef (schedule_tax c)) 100) in *.
  unfold schedule_tax, amount_between in Hclose. cbn [coef] in Hclose.
  repeat split; lia.
Qed.

(** 1000.02: one cent rounds to no tax yet. *)
Lemma calculate_tax_at_most_30_percent_witness :
  exists t : Z,
    calculate_tax (mk 100002 (-2)) = Ok (mk t (-2)) /\
    0 <= t /\
    10 * t <= 3 * Z.max 0 (100002 - 100000) /\
    (0 <= 100002 -> t <= 100002).
Proof.
  apply (calculate_tax_at_most_30_percent 100002). lia.
Defined.

(** X9 -- for gross pays in cents (below [10 ^ 24] in magnitude), a higher
    gross pay never leaves less after tax: between [c1 <= c2] the tax grows
    by at most 30% of the difference plus one cent of rounding, and by no
    more than the difference. *)
Theorem after_tax_pay_monotone (c1 c2 : Z) :
  Z.abs c1 < 10 ^ 26 -> Z.abs c2 < 10 ^ 26 -> c1 <= c2 ->
  exists t1 t2 : Z,
    calculate_tax (mk c1 (-2)) = Ok (mk t1 (-2)) /\
    calculate_tax (mk c2 (-2)) = Ok (mk t2 (-2)) /\
    10 * (t2 - t1) <= 3 * (c2 - c1) + 10 /\
    c1 - t1 <= c2 - t2.
Proof.
  intros H1 H2 Hle.
  destruct (calculate_tax_round_div c1 H1) as (Ht1 & _ & _ & Hclose1 & _).
  destruct (calculate_tax_round_div c2 H2) as (Ht2 & _ & _ & Hclose2 & _).
  assert (Hs : 0 <= coef (schedule_tax c2) - coef (schedule_tax c1) <= 30 * (c2 - c1)).
  { unfold schedule_tax, amount_between. cbn [coef]. lia. }
  destruct (Z.eq_dec c1 c2) as [->|Hne].
  - eexists. eexists. split; [exact Ht2|]. split; [exact Ht2|]. lia.
  - eexists. eexists. split; [exact Ht1|]. split; [exact Ht2|].
    set (s1 := coef (schedule_tax c1)) in *. set (s2 := coef (schedule_tax c2)) in *.
    set (t1 := round_div ROUND_HALF_UP s1 100) in *.
    set (t2 := round_div ROUND_HALF_UP s2 100) in *.
    split; lia.
Qed.

(** 1000.04 and 1000.05: the tax goes from 0.00 to 0.01. *)
Lemma after_tax_pay_monotone_witness :
  exists t1 t2 : Z,
    calculate_tax (mk 100004 (-2)) = Ok (mk t1 (-2)) /\
    calculate_tax (mk 100005 (-2)) = Ok (mk t2 (-2)) /\
    10 * (t2 - t1) <= 3 * (100005 - 100004) + 10 /\
    100004 - t1 <= 100005 - t2.
Proof.
  apply (after_tax_pay_monotone 100004 100005); lia.
Defined.

(** ** [process_monthly_payroll] *)

Lemma map_result_app {A B : Type} (f : A -> result B) (l1 l2 : list A) :
  map_result f (l1 ++ l2) =
    (bs1 <-- map_result f l1 ;; bs2 <-- map_result f l2 ;; Ok (bs1 ++ bs2)).
Proof.
  induction l1 as [|a l1 IH]; cbn [app map_result rbind].
  - destruct (map_result f l2); reflexivity.
  - destruct (f a) as [b|]; cbn [rbind]; [|reflexivity].
    rewrite IH. destruct (map_result f l1) as [bs1|]; cbn [rbind]; [|reflexivity].
    destruct (map_result f l2); reflexivity.
Qed.

(** X10 -- a batch can be split: the payroll of [l1 ++ l2] is the payroll
    of [l1] followed by the payroll of [l2], or the first exception of the
    two; the payroll of no employee is the empty list, whatever the mapping;
    and no mapping is the same as an empty one. *)
Theorem process_monthly_payroll_app (st : Store) (l1 l2 : list ref)
    (m : option (dict EmployeeId Decimal)) :
  run (process_monthly_payroll (l1 ++ l2) m) st =
    (ps1 <-- run (process_monthly_payroll l1 m) st ;;
     ps2 <-- run (process_monthly_payroll l2 m) st ;;
     Ok (ps1 ++ ps2)) /\
  run (process_monthly_payroll [] m) st = Ok [] /\
  run (process_monthly_payroll l1 None) st = run (process_monthly_payroll l1 (Some [])) st.
Proof.
  rewrite !process_monthly_payroll_run. split; [apply map_result_app|].
  split; reflexivity.
Qed.

Lemma map_result_raise_inv {A B : Type} (f : A -> result B) (l : list A) (x : exn) :
  map_result f l = Raise x ->
  exists before a after,
    l = before ++ a :: after /\
    (forall b, In b before -> exists y, f b = Ok y) /\
    f a = Raise x.
Proof.
  induction l as [|a l IH]; cbn [map_result]; [discriminate|].
  destruct (f a) as [b|x'] eqn:Ha; cbn [rbind].
  - destruct (map_result f l) as [bs|x'] eqn:Hl; cbn [rbind]; [discriminate|].
    intros [= ->]. destruct (IH eq_refl) as (before & a' & after & -> & Hb & Ha').
    exists (a :: before), a', after. split; [reflexivity|]. split; [|exact Ha'].
    intros b' [<-|Hin]; [eauto|apply Hb, Hin].
  - intros [= ->]. exists [], a, l. split; [reflexivity|]. split; [|exact Ha].
    intros b' [].
Qed.

(** X11 -- [process_monthly_payroll] raises [x] exactly when some employee
    of the list, all the employees before having got their payslip, makes
    [generate_pay_slip] raise [x]: the batch stops at the first failure and
    returns no list. *)
Theorem process_monthly_payroll_first_failure (st : Store) (l : list ref)
    (m : option (dict EmployeeId Decimal)) (x : exn) :
  run (process_monthly_payroll l m) st = Raise x <->
  exists before a after,
    l = before ++ a :: after /\
    (forall b, In b before ->
       exists p, run (generate_pay_slip b (spec_units m (st b))) st = Ok p) /\
    run (generate_pay_slip a (spec_units m (st a))) st = Raise x.
Proof.
  rewrite process_monthly_payroll_run. split.
  - apply map_result_raise_inv.
  - intros (before & a & after & -> & Hb & Ha).
    apply (map_result_raise
             (fun e => run (generate_pay_slip e (spec_units m (st e))) st));
      assumption.
Qed.

(** *** The exceptions of a batch *)

Lemma bind_fix_raises (x : Decimal) (k : Decimal -> result Decimal) (e : exn) :
  (forall y, k y = Raise e -> e = Overflow) ->
  (y <-- _fix x ;; k y) = Raise e -> e = Overflow.
Proof.
  intros Hk. destruct (_fix x) as [y|e'] eqn:Hx; cbn [rbind].
  - apply Hk.
  - intros [= <-]. eapply fix_raises, Hx.
Qed.

Lemma tax_before_rounding_raises (g : Decimal) (e : exn) :
  tax_before_rounding g = Raise e -> e = Overflow.
Proof.
  unfold tax_before_rounding, sub, add, mul.
  destruct (leb g _); [discriminate|].
  destruct (leb g _).
  { apply bind_fix_raises. intros y. apply fix_raises. }
  destruct (leb g _).
  { apply bind_fix_raises. intros y. apply bind_fix_raises. intros z. apply fix_raises. }
  apply bind_fix_raises. intros y. apply bind_fix_raises. intros z. apply fix_raises.
Qed.

Lemma calculate_tax_raises (g : Decimal) (e : exn) :
  calculate_tax g = Raise e -> arithmetic e.
Proof.
  rewrite calculate_tax_unfold.
  destruct (tax_before_rounding g) as [s|e'] eqn:Hs; cbn [rbind].
  - intros H. left. eapply round_currency_raises, H.
  - intros [= <-]. right. eapply tax_before_rounding_raises, Hs.
Qed.

Lemma py_sum_raises (l : list Decimal) (e : exn) : py_sum l = Raise e -> e = Overflow.
Proof.
  unfold py_sum.
  assert (H : forall acc : result Decimal,
            (forall e', acc = Raise e' -> e' = Overflow) ->
            fold_left (fun acc v => a <-- acc ;; add a v) l acc = Raise e ->
            e = Overflow).
  { induction l as [|v l IH]; intros acc Hacc; cbn [fold_left].
    - apply Hacc.
    - apply IH. intros e'. destruct acc as [a|e0]; cbn [rbind].
      + apply fix_raises.
      + intros [= <-]. apply Hacc. reflexivity. }
  apply H. discriminate.
Qed.

(** What makes [calculate_gross_pay] raise. *)
Lemma calculate_gross_pay_raises (st : Store) (e : ref) (h : Decimal) (x : exn) :
  run (calculate_gross_pay e h) st = Raise x ->
  (x = ValueError HoursExceeded /\ employee_type (st e) = Some PART_TIME /\
   gtb h (of_Z MAX_PART_TIME_HOURS) = true) \/
  (x = ValueError UnknownEmployeeType /\ employee_type (st e) = None) \/
  arithmetic x.
Proof.
  destruct (employee_type (st e)) as [[| |]|] eqn:Ht.
  - rewrite gross_full_time by exact Ht. intros H. right. right. left.
    eapply round_currency_raises, H.
  - rewrite gross_part_time by exact Ht. destruct (gtb h _) eqn:Hh.
    + intros [= <-]. left. auto.
    + intros H. right. right. eapply mul_then_round_raises, H.
  - rewrite gross_contractor by exact Ht. intros H. right. right.
    eapply mul_then_round_raises, H.
  - rewrite gross_unknown by exact Ht. intros [= <-]. right. left. auto.
Qed.

Lemma generate_pay_slip_raises (st : Store) (e : ref) (h : Decimal) (x : exn) :
  run (generate_pay_slip e h) st = Raise x ->
  run (calculate_gross_pay e h) st = Raise x \/ arithmetic x.
Proof.
  rewrite generate_run.
  destruct (run (calculate_gross_pay e h) st) as [g|x'] eqn:Hg; cbn [rbind];
    [|intros [= <-]; left; reflexivity].
  intros H. right. revert H.
  destruct (calculate_tax g) as [t|x'] eqn:Ht; cbn [rbind];
    [|intros [= <-]; eapply calculate_tax_raises, Ht].
  rewrite deductions_run.
  assert (Hd : forall d : result (dict string Decimal),
            d = (if has_retirement (st e)
                 then v <-- (p <-- mul g RETIREMENT_RATE ;; _round_currency p) ;;
                      Ok (health_entry st e ++ retirement_entry st e v ++ union_entry st e)
                 else Ok (health_entry st e ++ union_entry st e)) ->
            forall x', d = Raise x' -> arithmetic x').
  { intros d -> x'. destruct (has_retirement (st e)); [|discriminate].
    destruct (p <-- mul g RETIREMENT_RATE ;; _round_currency p) as [v|x''] eqn:Hv;
      cbn [rbind]; [discriminate|].
    intros [= <-]. eapply mul_then_round_raises, Hv. }
  specialize (Hd _ eq_refl).
  destruct (if has_retirement (st e) then _ else _) as [d|x'] eqn:Hded; cbn [rbind];
    [|intros [= <-]; apply Hd; reflexivity].
  destruct (py_sum (dict_values d)) as [total|x'] eqn:Hsum; cbn [rbind];
    [|intros [= <-]; right; eapply py_sum_raises, Hsum].
  destruct (sub g t) as [d1|x'] eqn:Hd1; cbn [rbind];
    [|intros [= <-]; right; eapply fix_raises, Hd1].
  destruct (sub d1 total) as [d2|x'] eqn:Hd2; cbn [rbind];
    [|intros [= <-]; right; eapply fix_raises, Hd2].
  destruct (_round_currency d2) as [n|x'] eqn:Hn; cbn [rbind]; [discriminate|].
  intros [= <-]. left. eapply round_currency_raises, Hn.
Qed.

(** X12 -- the exceptions of a batch.  [process_monthly_payroll] never
    raises [KeyError]: the lookup in the mapping is guarded by the membership
    test.  It raises the [ValueError] of the hours limit only for a
    [PART_TIME] employee of the list whose id is a key of the mapping with a
    value above 120 (so never without a mapping: the default of 80 is within
    the limit), the [ValueError] of an unknown type only for an employee of
    the list whose type is not in the enum, and otherwise a signal of the
    decimal arithmetic. *)
Theorem process_monthly_payroll_exceptions (st : Store) (l : list ref)
    (m : option (dict EmployeeId Decimal)) (x : exn) :
  run (process_monthly_payroll l m) st = Raise x ->
  arithmetic x \/
  (x = ValueError UnknownEmployeeType /\
   exists a, In a l /\ employee_type (st a) = None) \/
  (x = ValueError HoursExceeded /\
   exists a mapping h,
     In a l /\ employee_type (st a) = Some PART_TIME /\
     m = Some mapping /\ dict_get mapping (id (st a)) = Some h /\
     gtb h (of_Z MAX_PART_TIME_HOURS) = true).
Proof.
  rewrite process_monthly_payroll_run. intros H.
  apply map_result_raise_inv in H as (before & a & after & -> & _ & Ha).
  assert (Hin : In a (before ++ a :: after)) by (apply in_elt).
  apply generate_pay_slip_raises in Ha as [Ha|Ha]; [|left; exact Ha].
  apply calculate_gross_pay_raises in Ha as [(-> & Ht & Hh)|[(-> & Ht)|Ha]].
  - right. right. split; [reflexivity|].
    unfold spec_units in Hh. rewrite Ht in Hh.
    destruct m as [mapping|].
    + destruct (dict_get mapping (id (st a))) as [h|] eqn:Hget.
      * exists a, mapping, h. auto.
      * discriminate Hh.
    + discriminate Hh.
  - right. left. split; [reflexivity|]. exists a. auto.
  - left. exact Ha.
Qed.

(** David Brown with 121 hours in the mapping. *)
Lemma process_monthly_payroll_exceptions_witness :
  let st := store_of demo in
  let m := Some [(IntId 104, of_Z 121)] in
  arithmetic (ValueError HoursExceeded) \/
  (ValueError HoursExceeded = ValueError UnknownEmployeeType /\
   exists a, In a [0; 3]%nat /\ employee_type (st a) = None) \/
  (ValueError HoursExceeded = ValueError HoursExceeded /\
   exists a mapping h,
     In a [0; 3]%nat /\ employee_type (st a) = Some PART_TIME /\
     m = Some mapping /\ dict_get mapping (id (st a)) = Some h /\
     gtb h (of_Z MAX_PART_TIME_HOURS) = true).
Proof.
  apply (process_monthly_payroll_exceptions (store_of demo) [0; 3]%nat
           (Some [(IntId 104, of_Z 121)]) (ValueError HoursExceeded)).
  vm_compute. reflexivity.
Defined.

(** *** Keys of the mapping *)

Lemma EmployeeId_eqb_eq (a b : EmployeeId) : key_eqb a b = true <-> a = b.
Proof.
  destruct a as [n|s], b as [n'|s']; unfold key_eqb, EmployeeId_KeyEq; split;
    try discriminate; intros H.
  - apply Z.eqb_eq in H. congruence.
  - injection H as ->. apply Z.eqb_refl.
  - apply String.eqb_eq in H. congruence.
  - injection H as ->. apply String.eqb_refl.
Qed.

Lemma dict_get_set_other {V : Type} (d : dict EmployeeId V) (k q : EmployeeId) (v : V) :
  q <> k -> dict_get (dict_set d k v) q = dict_get d q.
Proof.
  intros Hne.
  assert (Hk : key_eqb k q = false).
  { destruct (key_eqb k q) eqn:E; [|reflexivity].
    apply EmployeeId_eqb_eq in E. congruence. }
  induction d as [|[k' v'] d IH]; cbn [dict_set dict_get].
  - rewrite Hk. reflexivity.
  - destruct (key_eqb k' k) eqn:E; cbn [dict_get].
    + apply EmployeeId_eqb_eq in E. subst k'. rewrite Hk. reflexivity.
    + destruct (key_eqb k' q); [reflexivity|exact IH].
Qed.

Lemma map_result_ext_in {A B : Type} (f g : A -> result B) (l : list A) :
  (forall a, In a l -> f a = g a) -> map_result f l = map_result g l.
Proof.
  induction l as [|a l IH]; intros Hfg; cbn [map_result]; [reflexivity|].
  rewrite (Hfg a (or_introl eq_refl)), IH by (intros b Hb; apply Hfg; right; exact Hb).
  reflexivity.
Qed.

(** X13 -- an entry of the mapping under a key that is the id of no
    employee of the list has no effect on the batch: setting it, or
    changing its value, gives the same payslips or the same exception. *)
Theorem process_monthly_payroll_unused_key (st : Store) (l : list ref)
    (m : dict EmployeeId Decimal) (k : EmployeeId) (v : Decimal) :
  (forall e, In e l -> id (st e) <> k) ->
  run (process_monthly_payroll l (Some (dict_set m k v))) st
    = run (process_monthly_payroll l (Some m)) st.
Proof.
  intros Hk. rewrite !process_monthly_payroll_run.
  apply map_result_ext_in. intros e He. unfold spec_units.
  rewrite dict_get_set_other by (apply Hk, He). reflexivity.
Qed.

(** The demonstration with 500 hours under the id 999 of nobody. *)
Lemma process_monthly_payroll_unused_key_witness :
  run (process_monthly_payroll [0; 1; 2; 3; 4; 5]%nat
         (Some (dict_set demo_hours (IntId 999) (of_Z 500)))) (store_of demo)
    = run (process_monthly_payroll [0; 1; 2; 3; 4; 5]%nat (Some demo_hours)) (store_of demo).
Proof.
  apply (process_monthly_payroll_unused_key (store_of demo) [0; 1; 2; 3; 4; 5]%nat
           demo_hours (IntId 999) (of_Z 500)).
  intros e [<-|[<-|[<-|[<-|[<-|[<-|[]]]]]]]; discriminate.
Defined.

(** ** [calculate_deductions]: the order of the keys *)

(** X14 -- the keys of the dictionary [calculate_deductions] returns are
    pairwise distinct and always in the order health_insurance, retirement,
    union_dues, which is the order [sum] and the printing of a payslip
    follow; there are at most three. *)
Theorem calculate_deductions_key_order (st : Store) (e : ref) (gross : Decimal)
    (d : dict string Decimal) :
  run (calculate_deductions e gross) st = Ok d ->
  dict_keys d
    = filter (fun k => dict_mem d k) ["health_insurance"; "retirement"; "union_dues"]%string /\
  NoDup (dict_keys d) /\
  (List.length d <= 3)%nat.
Proof.
  intros Hd. apply deductions_inv in Hd as (v & -> & _).
  unfold health_entry, retirement_entry, union_entry.
  destruct (type_is _ FULL_TIME), (has_retirement (st e)), (is_union_member (st e));
    cbn [app dict_keys map fst List.length];
    (split; [reflexivity|split; [|lia]]);
    repeat (constructor; [cbn [In]; intuition discriminate|]); constructor.
Qed.

Lemma calculate_deductions_key_order_witness :
  let d := [("health_insurance"%string, of_Z 150); ("union_dues"%string, of_Z 50)] in
  dict_keys d
    = filter (fun k => dict_mem d k) ["health_insurance"; "retirement"; "union_dues"]%string /\
  NoDup (dict_keys d) /\
  (List.length d <= 3)%nat.
Proof.
  apply (calculate_deductions_key_order
           (store_of [emp 1 "Alice" FULL_TIME (of_Z 5000) true false]) 0%nat (of_Z 5000)).
  vm_compute. reflexivity.
Defined.

(** ** The net pay is at least 65% of the gross pay less the flat amounts *)

Lemma retirement_round_div (g : Z) (v : Decimal) :
  Z.abs g < 10 ^ 26 ->
  (p <-- mul (mk g (-2)) RETIREMENT_RATE ;; _round_currency p) = Ok v ->
  v = mk (round_div ROUND_HALF_UP (g * 5) 100) (-2).
Proof.
  intros Hg. unfold RETIREMENT_RATE. rewrite mul_cents_rate by lia. cbn [rbind].
  rewrite round_currency_eval. unfold half_up_2, round_cents. cbn [coef expo].
  change (-2 <=? -4) with false. cbv iota. change (10 ^ (-2 - -4)) with 100.
  destruct (_ <? _); [|discriminate]. intros [= <-]. reflexivity.
Qed.

(** X15 -- in a payslip whose gross pay is [g] cents, from 0.00 up to
    [10 ^ 24], the net pay [n] is at most the gross pay and at least 65% of
    it less 200.00 and half a cent of rounding: what is withheld is at most
    30% of tax, 5% of retirement, 150 of health insurance and 50 of union
    dues. *)
Theorem net_pay_at_least (st : Store) (e : ref) (h : Decimal) (p : PaySlip) (g : Z) :
  run (generate_pay_slip e h) st = Ok p ->
  gross_pay p = mk g (-2) ->
  0 <= g < 10 ^ 26 ->
  exists n : Z,
    net_pay p = mk n (-2) /\ n <= g /\ 13 * g - 400010 <= 20 * n.
Proof.
  intros Hp Hgp Hg.
  destruct (generate_inv _ _ _ _ Hp) as (_ & _ & _ & _ & _ & Ht & Hd & _).
  destruct (payslip_in_cents _ _ _ _ Hp)
    as (g' & t & total & Eg & Et & _ & _ & Hc & En).
  rewrite Hgp in Eg. injection Eg as <-. rewrite Hgp in Ht, Hd.
  destruct (calculate_tax_round_div g ltac:(lia)) as (Ht' & _ & _ & Hclose & Hpos).
  set (t0 := round_div ROUND_HALF_UP (coef (schedule_tax g)) 100) in *.
  assert (Htt : t = t0) by (rewrite Ht', Et in Ht; congruence).
  subst t.
  unfold schedule_tax, amount_between in Hclose. cbn [coef] in Hclose.
  destruct (deductions_inv _ _ _ _ Hd) as (v & Ed & Hv).
  rewrite Ed, sum_cents_entries in Hc.
  assert (Hr : has_retirement (st e) = true ->
               0 <= cents v /\ 20 * cents v <= g + 10).
  { intros Hret. rewrite (retirement_round_div g v ltac:(lia) (Hv Hret)).
    unfold cents. cbn [coef expo]. change (10 ^ (-2 + 2)) with 1.
    destruct (round_div_spec ROUND_HALF_UP (g * 5) 100 ltac:(lia)) as (Hcl & Hp0 & _).
    specialize (Hp0 ltac:(lia)).
    set (r := round_div ROUND_HALF_UP (g * 5) 100) in *. lia. }
  exists (g - t0 - cents total). split; [exact En|].
  rewrite Hc.
  destruct (type_is _ FULL_TIME), (has_retirement (st e)), (is_union_member (st e));
    try (destruct (Hr eq_refl) as [Hr0 Hr1]); clear Hr; split; lia.
Qed.

Lemma net_pay_at_least_witness :
  exists n : Z,
    net_pay carol_payslip = mk n (-2) /\ n <= 600000 /\ 13 * 600000 - 400010 <= 20 * n.
Proof.
  apply (net_pay_at_least (store_of demo) 2%nat (of_Z 0) carol_payslip 600000);
    [vm_compute; reflexivity|reflexivity|lia].
Defined.

(** * The text analyzer *)

(** ** Characters *)

Ltac each_char c :=
  destruct c as [[] [] [] [] [] [] [] []]; vm_compute; try reflexivity; try discriminate.

Lemma a_z_0_9_not_space (c : ascii) : is_a_z_0_9 c = true -> isspace c = false.
Proof. each_char c. Qed.

Lemma a_z_0_9_not_the_space (c : ascii) : is_a_z_0_9 c = true -> Ascii.eqb c " " = false.
Proof. each_char c. Qed.

Lemma lower_char_a_z_0_9 (c : ascii) : is_a_z_0_9 c = true -> lower_char c = c.
Proof. each_char c. Qed.

Lemma lower_char_idempotent (c : ascii) : lower_char (lower_char c) = lower_char c.
Proof. each_char c. Qed.

Lemma lower_char_space (c : ascii) : isspace (lower_char c) = isspace c.
Proof. each_char c. Qed.

Lemma chars_String (c : ascii) (s : string) : chars (String c s) = c :: chars s.
Proof. reflexivity. Qed.

Lemma chars_append (s t : string) : chars (s ++ t) = chars s ++ chars t.
Proof. induction s as [|c s IH]; cbn; [reflexivity|]. fold (chars (s ++ t)). fold (chars s). rewrite IH. reflexivity. Qed.

Lemma chars_inj (s t : string) : chars s = chars t -> s = t.
Proof.
  intros H. rewrite <- (string_of_list_ascii_of_string s), <- (string_of_list_ascii_of_string t).
  unfold chars in H. rewrite H. reflexivity.
Qed.

(** ** [normalize_text] *)

Lemma space_facts :
  isspace " " = true /\ is_a_z_0_9 " " = false /\ lower_char " " = " "%char.
Proof. repeat split. Qed.

Lemma eqb_space (c : ascii) : Ascii.eqb c " " = true -> c = " "%char.
Proof. apply Ascii.eqb_eq. Qed.

(** After the two substitutions a text is [clean]. *)
Lemma clean_sub_runs (b : bool) (s : string) :
  clean b (sub_runs_by_space b (sub_other_by_space (lower s))) = true.
Proof.
  revert b. induction s as [|c s IH]; intros b; [reflexivity|].
  cbn [lower sub_other_by_space map_chars sub_runs_by_space].
  fold (lower s). fold (sub_other_by_space (lower s)).
  destruct (is_a_z_0_9 (lower_char c)) eqn:Ha.
  - cbn [orb]. rewrite (a_z_0_9_not_space _ Ha). cbn [clean]. rewrite Ha. apply IH.
  - cbn [orb]. destruct (isspace (lower_char c)) eqn:Hs.
    + rewrite Hs. destruct b; [apply IH|]. cbn [clean]. rewrite IH. reflexivity.
    + change (isspace " ") with true. cbv iota.
      destruct b; [apply IH|]. cbn [clean]. rewrite IH. reflexivity.
Qed.

Lemma clean_weaken (s : string) : clean true s = true -> clean false s = true.
Proof.
  destruct s as [|c s]; [reflexivity|]. cbn [clean].
  destruct (is_a_z_0_9 c); [auto|]. rewrite andb_false_r. discriminate.
Qed.

Lemma clean_lstrip (s : string) : clean false s = true -> clean true (lstrip s) = true.
Proof.
  destruct s as [|c s]; [reflexivity|]. cbn [clean lstrip].
  destruct (is_a_z_0_9 c) eqn:Ha.
  - rewrite (a_z_0_9_not_space _ Ha). cbn [clean]. rewrite Ha. auto.
  - intros H. apply andb_prop in H as [H Hs]. apply andb_prop in H as [Hc _].
    apply eqb_space in Hc. subst c. change (isspace " ") with true. cbv iota.
    destruct s as [|c s]; [reflexivity|]. revert Hs. cbn [clean lstrip].
    destruct (is_a_z_0_9 c) eqn:Ha'.
    + rewrite (a_z_0_9_not_space _ Ha'). cbn [clean]. rewrite Ha'. auto.
    + rewrite andb_false_r. discriminate.
Qed.

Lemma clean_rstrip (b : bool) (s : string) :
  clean b s = true ->
  clean b (rstrip s) = true /\ ends_with_space (rstrip s) = false.
Proof.
  revert b. induction s as [|c s IH]; intros b; [auto|].
  cbn [clean rstrip]. destruct (is_a_z_0_9 c) eqn:Ha.
  - intros H. destruct (IH _ H) as [Hc He].
    destruct (rstrip s) as [|c' r] eqn:Hr.
    + rewrite (a_z_0_9_not_space _ Ha). cbn [clean ends_with_space]. rewrite Ha.
      split; [reflexivity|apply a_z_0_9_not_the_space, Ha].
    + split; [cbn [clean]; rewrite Ha; exact Hc|exact He].
  - intros H. apply andb_prop in H as [H Hs]. apply andb_prop in H as [Hc Hb].
    apply eqb_space in Hc. subst c. destruct (IH _ Hs) as [Hc He].
    destruct (rstrip s) as [|c' r] eqn:Hr.
    + change (isspace " ") with true. auto.
    + split; [|exact He]. cbn [clean]. rewrite Ha. change (Ascii.eqb " " " ") with true.
      rewrite Hb. exact Hc.
Qed.

(** On a clean text that does not end with a space each step of
    [normalize_text] changes nothing. *)
Lemma clean_lower (b : bool) (s : string) : clean b s = true -> lower s = s.
Proof.
  revert b. induction s as [|c s IH]; intros b; [reflexivity|].
  cbn [clean lower map_chars]. fold (lower s). destruct (is_a_z_0_9 c) eqn:Ha.
  - intros H. rewrite (lower_char_a_z_0_9 _ Ha), (IH _ H). reflexivity.
  - intros H. apply andb_prop in H as [H Hs]. apply andb_prop in H as [Hc _].
    apply eqb_space in Hc. subst c. rewrite (IH _ Hs). reflexivity.
Qed.

Lemma clean_sub_other (b : bool) (s : string) : clean b s = true -> sub_other_by_space s = s.
Proof.
  revert b. induction s as [|c s IH]; intros b; [reflexivity|].
  cbn [clean sub_other_by_space map_chars]. fold (sub_other_by_space s).
  destruct (is_a_z_0_9 c) eqn:Ha.
  - intros H. cbn [orb]. rewrite (IH _ H). reflexivity.
  - intros H. apply andb_prop in H as [H Hs]. apply andb_prop in H as [Hc _].
    apply eqb_space in Hc. subst c. rewrite (IH _ Hs). reflexivity.
Qed.

Lemma clean_sub_runs_id (b : bool) (s : string) :
  clean b s = true -> sub_runs_by_space b s = s.
Proof.
  revert b. induction s as [|c s IH]; intros b; [reflexivity|].
  cbn [clean sub_runs_by_space]. destruct (is_a_z_0_9 c) eqn:Ha.
  - intros H. rewrite (a_z_0_9_not_space _ Ha), (IH _ H). reflexivity.
  - intros H. apply andb_prop in H as [H Hs]. apply andb_prop in H as [Hc Hb].
    apply eqb_space in Hc. subst c. change (isspace " ") with true. cbv iota.
    destruct b; [discriminate|]. rewrite (IH _ Hs). reflexivity.
Qed.

Lemma clean_lstrip_id (s : string) : clean true s = true -> lstrip s = s.
Proof.
  destruct s as [|c s]; [reflexivity|]. cbn [clean lstrip].
  destruct (is_a_z_0_9 c) eqn:Ha.
  - rewrite (a_z_0_9_not_space _ Ha). reflexivity.
  - rewrite andb_false_r. discriminate.
Qed.

Lemma clean_rstrip_id (b : bool) (s : string) :
  clean b s = true -> ends_with_space s = false -> rstrip s = s.
Proof.
  revert b. induction s as [|c s IH]; intros b; [reflexivity|].
  cbn [clean rstrip]. intros Hc He.
  assert (Hs : exists b', clean b' s = true).
  { destruct (is_a_z_0_9 c); [eauto|].
    apply andb_prop in Hc as [_ Hc]. eauto. }
  destruct Hs as [b' Hs].
  destruct s as [|c' s'].
  - cbn [rstrip]. cbn [ends_with_space] in He.
    destruct (is_a_z_0_9 c) eqn:Ha.
    + rewrite (a_z_0_9_not_space _ Ha). reflexivity.
    + apply andb_prop in Hc as [Hc _]. apply andb_prop in Hc as [Hc _]. congruence.
  - rewrite (IH _ Hs) by exact He. reflexivity.
Qed.

Lemma normalize_text_clean (self : TextReader.t) (text : string) :
  let out := snd (TextReader.normalize_text self text) in
  clean true out = true /\ ends_with_space out = false.
Proof.
  cbn [TextReader.normalize_text snd]. unfold strip.
  apply clean_rstrip, clean_lstrip, clean_sub_runs.
Qed.

Lemma clean_chars (b : bool) (s : string) :
  clean b s = true ->
  Forall (fun c => is_a_z_0_9 c = true \/ c = " "%char) (chars s).
Proof.
  revert b. induction s as [|c s IH]; intros b; [constructor|].
  cbn [clean]. rewrite chars_String. destruct (is_a_z_0_9 c) eqn:Ha.
  - intros H. constructor; [left; exact Ha|apply (IH _ H)].
  - intros H. apply andb_prop in H as [H Hs]. apply andb_prop in H as [Hc _].
    constructor; [right; apply eqb_space, Hc|apply (IH _ Hs)].
Qed.

Lemma clean_no_leading_space (s : string) (l : list ascii) :
  clean true s = true -> chars s <> " "%char :: l.
Proof.
  destruct s as [|c s]; [discriminate|]. cbn [clean]. rewrite chars_String.
  intros H [= -> _]. revert H. change (is_a_z_0_9 " ") with false. cbv iota.
  rewrite andb_false_r. discriminate.
Qed.

Lemma clean_no_double_space (b : bool) (s : string) (l1 l2 : list ascii) :
  clean b s = true -> chars s <> l1 ++ " "%char :: " "%char :: l2.
Proof.
  revert b s. induction l1 as [|c1 l1 IH]; intros b s Hc Heq.
  - destruct s as [|c s]; [discriminate|]. rewrite chars_String in Heq.
    cbn [app] in Heq. injection Heq as -> Heq.
    revert Hc. cbn [clean]. change (is_a_z_0_9 " ") with false. cbv iota.
    intros H. apply andb_prop in H as [_ H].
    exact (clean_no_leading_space s l2 H Heq).
  - destruct s as [|c s]; [discriminate|]. rewrite chars_String in Heq.
    cbn [app] in Heq. injection Heq as -> Heq.
    assert (Hs : exists b', clean b' s = true).
    { revert Hc. cbn [clean]. destruct (is_a_z_0_9 c1); [eauto|].
      intros H. apply andb_prop in H as [_ H]. eauto. }
    destruct Hs as [b' Hs]. exact (IH b' s Hs Heq).
Qed.

Lemma no_trailing_space (s : string) (l : list ascii) :
  ends_with_space s = false -> chars s <> l ++ [" "%char].
Proof.
  revert l. induction s as [|c s IH]; intros l He Heq.
  - destruct l; discriminate.
  - rewrite chars_String in Heq. destruct l as [|c' l]; cbn [app] in Heq.
    + injection Heq as -> Heq. destruct s; [discriminate He|discriminate Heq].
    + injection Heq as -> Heq. destruct s as [|c2 s2].
      * destruct l; discriminate.
      * exact (IH l He Heq).
Qed.

(** X16 -- the text [normalize_text] returns holds only the characters a to
    z, 0 to 9 and the space, never two spaces in a row, and no space at
    either end.  The method stores it as [normalized_content] and leaves
    the other attributes of the reader as they were. *)
Theorem normalize_text_shape (self : TextReader.t) (text : string) :
  let out := snd (TextReader.normalize_text self text) in
  let self' := fst (TextReader.normalize_text self text) in
  Forall (fun c => is_a_z_0_9 c = true \/ c = " "%char) (chars out) /\
  (forall l1 l2, chars out <> l1 ++ " "%char :: " "%char :: l2) /\
  (forall l, chars out <> " "%char :: l) /\
  (forall l, chars out <> l ++ [" "%char]) /\
  TextReader.normalized_content self' = out /\
  TextReader.raw_content self' = TextReader.raw_content self /\
  TextReader.file_path self' = TextReader.file_path self.
Proof.
  intros out self'. destruct (normalize_text_clean self text) as [Hc He].
  fold out in Hc, He.
  split; [exact (clean_chars _ _ Hc)|].
  split; [intros l1 l2; exact (clean_no_double_space _ _ l1 l2 Hc)|].
  split; [intros l; exact (clean_no_leading_space _ l Hc)|].
  split; [intros l; exact (no_trailing_space _ l He)|].
  repeat split.
Qed.

(** X17 -- [normalize_text] is idempotent: normalizing a text that is
    already normalized returns it unchanged. *)
Theorem normalize_text_idempotent (self self' : TextReader.t) (text : string) :
  snd (TextReader.normalize_text self' (snd (TextReader.normalize_text self text)))
    = snd (TextReader.normalize_text self text).
Proof.
  destruct (normalize_text_clean self text) as [Hc He].
  set (out := snd (TextReader.normalize_text self text)) in *.
  cbn [TextReader.normalize_text snd]. unfold strip.
  rewrite (clean_lower _ _ Hc), (clean_sub_other _ _ Hc).
  rewrite (clean_sub_runs_id _ _ (clean_weaken _ Hc)).
  rewrite (clean_lstrip_id _ Hc). exact (clean_rstrip_id _ _ Hc He).
Qed.

(** ** [tokenize] *)

Lemma split_from_words (P : ascii -> Prop) (word s : string) :
  Forall (fun c => isspace c = false /\ P c) (chars word) ->
  Forall (fun c => isspace c = false -> P c) (chars s) ->
  Forall (fun w => w <> EmptyString /\
                   Forall (fun c => isspace c = false /\ P c) (chars w))
         (split_from word s).
Proof.
  revert word. induction s as [|c s IH]; intros word Hw Hs; cbn [split_from].
  - destruct word; [constructor|]. constructor; [|constructor].
    split; [discriminate|exact Hw].
  - rewrite chars_String in Hs. inversion Hs as [|c' l' Hc Hs']; subst.
    destruct (isspace c) eqn:Hsp.
    + destruct word as [|a word'].
      * apply IH; [constructor|exact Hs'].
      * constructor; [split; [discriminate|exact Hw]|].
        apply IH; [constructor|exact Hs'].
    + apply IH; [|exact Hs'].
      rewrite chars_append. apply Forall_app. split; [exact Hw|].
      constructor; [|constructor]. split; [exact Hsp|apply Hc; reflexivity].
Qed.

Lemma split_words (P : ascii -> Prop) (s : string) :
  Forall (fun c => isspace c = false -> P c) (chars s) ->
  Forall (fun w => w <> EmptyString /\
                   Forall (fun c => isspace c = false /\ P c) (chars w))
         (split s).
Proof. apply split_from_words. constructor. Qed.

Lemma split_whitespace (s : string) :
  Forall (fun c => isspace c = true) (chars s) -> split s = [].
Proof.
  unfold split. induction s as [|c s IH]; [reflexivity|].
  rewrite chars_String. intros H. inversion H as [|c' l' Hc Hs]; subst.
  cbn [split_from]. rewrite Hc. apply IH, Hs.
Qed.

Lemma occurrences_filter (f : string -> bool) (w : string) (l : list string) :
  occurrences w (filter f l) = if f w then occurrences w l else 0.
Proof.
  induction l as [|x l IH]; cbn [filter occurrences]; [destruct (f w); reflexivity|].
  destruct (String.eqb_spec x w) as [->|Hne].
  - destruct (f w); cbn [occurrences]; [rewrite String.eqb_refl|]; rewrite IH; reflexivity.
  - destruct (f x); cbn [occurrences]; rewrite IH.
    + destruct (String.eqb_spec x w); [contradiction|]. destruct (f w); reflexivity.
    + destruct (f w); reflexivity.
Qed.

Lemma append_empty_r (s : string) : (s ++ EmptyString)%string = s.
Proof. induction s as [|c s IH]; [reflexivity|]. cbn [append]. rewrite IH. reflexivity. Qed.

Lemma append_assoc (s1 s2 s3 : string) :
  ((s1 ++ s2) ++ s3)%string = (s1 ++ (s2 ++ s3))%string.
Proof. induction s1 as [|c s1 IH]; [reflexivity|]. cbn [append]. rewrite IH. reflexivity. Qed.

(** [split_from] cuts the text into its runs: the word being read and the
    rest of the text are the runs found, each followed by whitespace. *)
Lemma split_from_runs (s word : string) :
  no_whitespace word ->
  exists (sep0 : string) (seps : list string),
    (word ++ s)%string = (sep0 ++ weave (split_from word s) seps)%string /\
    (word <> EmptyString -> sep0 = EmptyString) /\
    List.length seps = List.length (split_from word s) /\
    whitespace sep0 /\
    Forall whitespace seps /\
    Forall (fun sep => sep <> EmptyString) (removelast seps) /\
    Forall (fun w => w <> EmptyString /\ no_whitespace w) (split_from word s).
Proof.
  revert word. induction s as [|c s IH]; intros word Hw; cbn [split_from].
  - destruct word as [|a word'].
    + exists EmptyString, []. repeat split; constructor.
    + exists EmptyString, [EmptyString]. cbn [weave removelast].
      rewrite !append_empty_r. repeat split; try (constructor; fail).
      * constructor; [constructor|constructor].
      * constructor; [|constructor]. split; [discriminate|exact Hw].
  - destruct (isspace c) eqn:Hsp.
    + destruct (IH EmptyString) as (sep0 & seps & Heq & _ & Hlen & Hs0 & Hs & Hne & Hr);
        [constructor|].
      cbn [append] in Heq.
      assert (Hc : whitespace (String c sep0)).
      { unfold whitespace. rewrite chars_String. constructor; assumption. }
      destruct word as [|a word'].
      * exists (String c sep0), seps. cbn [append]. rewrite Heq at 1.
        repeat split; try assumption. intros H. contradiction H. reflexivity.
      * exists EmptyString, (String c sep0 :: seps). cbn [weave].
        repeat split.
        -- change (EmptyString ++ ?x)%string with x. rewrite Heq at 1. reflexivity.
        -- cbn [List.length]. rewrite Hlen. reflexivity.
        -- constructor.
        -- constructor; assumption.
        -- cbn [removelast]. destruct seps; [constructor|].
           constructor; [discriminate|exact Hne].
        -- constructor; [|exact Hr]. split; [discriminate|exact Hw].
    + destruct (IH (word ++ String c EmptyString)%string)
        as (sep0 & seps & Heq & Hnil & Hlen & Hs0 & Hs & Hne & Hr).
      { unfold no_whitespace. rewrite chars_append. apply Forall_app.
        split; [exact Hw|]. constructor; [exact Hsp|constructor]. }
      rewrite append_assoc in Heq. cbn [append] in Heq.
      exists sep0, seps. repeat split; try assumption.
      intros _. apply Hnil. destruct word; discriminate.
Qed.

Lemma split_runs (s : string) : runs_of s (split s).
Proof.
  destruct (split_from_runs s EmptyString) as (sep0 & seps & Heq & _ & H);
    [constructor|].
  exists sep0, seps. split; [exact Heq|]. exact H.
Qed.

(** Reading on: a word without whitespace joins the word being read, and
    whitespace ends it. *)
Lemma split_from_word (w s word : string) :
  no_whitespace w -> split_from word (w ++ s) = split_from (word ++ w) s.
Proof.
  revert word. induction w as [|c w IH]; intros word Hw.
  - rewrite append_empty_r. reflexivity.
  - unfold no_whitespace in Hw. rewrite chars_String in Hw.
    inversion Hw as [|c' l' Hc Hw']; subst.
    cbn [append split_from]. rewrite Hc. rewrite IH by exact Hw'.
    rewrite append_assoc. reflexivity.
Qed.

Lemma split_from_whitespace (sep s : string) :
  whitespace sep -> split_from EmptyString (sep ++ s) = split_from EmptyString s.
Proof.
  induction sep as [|c sep IH]; intros Hs; [reflexivity|].
  unfold whitespace in Hs. rewrite chars_String in Hs.
  inversion Hs as [|c' l' Hc Hs']; subst.
  cbn [append split_from]. rewrite Hc. apply IH, Hs'.
Qed.

Lemma split_from_end (sep word : string) :
  whitespace sep -> word <> EmptyString -> split_from word sep = [word].
Proof.
  intros Hs Hw. destruct sep as [|c sep].
  - cbn [split_from]. destruct word; [contradiction Hw; reflexivity|reflexivity].
  - unfold whitespace in Hs. rewrite chars_String in Hs.
    inversion Hs as [|c' l' Hc Hs']; subst.
    cbn [split_from]. rewrite Hc.
    rewrite <- (append_empty_r sep), split_from_whitespace by exact Hs'.
    destruct word; [contradiction Hw; reflexivity|reflexivity].
Qed.

Lemma split_from_separator (sep s word : string) :
  whitespace sep -> sep <> EmptyString -> word <> EmptyString ->
  split_from word (sep ++ s) = word :: split_from EmptyString s.
Proof.
  intros Hs Hne Hw. destruct sep as [|c sep]; [contradiction Hne; reflexivity|].
  unfold whitespace in Hs. rewrite chars_String in Hs.
  inversion Hs as [|c' l' Hc Hs']; subst.
  cbn [append split_from]. rewrite Hc. rewrite split_from_whitespace by exact Hs'.
  destruct word; [contradiction Hw; reflexivity|reflexivity].
Qed.

Lemma split_weave (runs seps : list string) :
  List.length seps = List.length runs ->
  Forall whitespace seps ->
  Forall (fun sep => sep <> EmptyString) (removelast seps) ->
  Forall (fun w => w <> EmptyString /\ no_whitespace w) runs ->
  split_from EmptyString (weave runs seps) = runs.
Proof.
  revert seps. induction runs as [|w runs IH]; intros seps Hlen Hs Hne Hr.
  - destruct seps; reflexivity.
  - destruct seps as [|sep seps]; [discriminate|].
    inversion Hs as [|x l Hsep Hs']; subst.
    inversion Hr as [|x l [Hwne Hw] Hr']; subst.
    cbn [weave]. rewrite split_from_word by exact Hw.
    change (EmptyString ++ w)%string with w.
    destruct runs as [|w' runs].
    + destruct seps; [|discriminate]. cbn [weave]. rewrite append_empty_r.
      apply split_from_end; assumption.
    + destruct seps as [|sep' seps]; [discriminate|].
      cbn [removelast] in Hne. inversion Hne as [|x l Hsne Hne']; subst.
      rewrite split_from_separator by assumption. f_equal.
      apply IH; [injection Hlen as Hlen; cbn [List.length]; f_equal; exact Hlen
               |exact Hs'|exact Hne'|exact Hr'].
Qed.

(** The runs of a text are those that [split] returns, and no others. *)
Lemma runs_of_split (s : string) (runs : list string) : runs_of s runs -> runs = split s.
Proof.
  intros (sep0 & seps & -> & Hlen & Hs0 & Hs & Hne & Hr).
  unfold split. rewrite split_from_whitespace by exact Hs0.
  symmetry. apply split_weave; assumption.
Qed.

(** X18 -- [tokenize] stores and returns, in the order of the text, the
    maximal runs of characters that are not whitespace, but the runs of
    fewer than 3 characters and the stop words: every word kept has at
    least 3 characters, none of them whitespace, and is no stop word, and
    every other run of the text is kept as many times as it occurs.  The
    text and the frequencies of the counter are left as they were; a text
    of whitespace only has no word.  The order: the text has its runs
    ([runs_of]), and the words are the runs that are kept, one after the
    other as they stand in the text. *)
Theorem tokenize_words (self : WordCounter.t) :
  let self' := fst (WordCounter.tokenize self) in
  let ws := snd (WordCounter.tokenize self) in
  WordCounter.words self' = ws /\
  WordCounter.text self' = WordCounter.text self /\
  WordCounter.word_frequencies self' = WordCounter.word_frequencies self /\
  Forall (fun w => 3 <= len w /\ in_set w WordCounter.STOP_WORDS = false /\
                   Forall (fun c => isspace c = false) (chars w)) ws /\
  (forall w, occurrences w ws
             = if kept w then occurrences w (split (WordCounter.text self)) else 0) /\
  (Forall (fun c => isspace c = true) (chars (WordCounter.text self)) -> ws = []) /\
  (exists runs, runs_of (WordCounter.text self) runs) /\
  (forall runs, runs_of (WordCounter.text self) runs -> ws = filter kept runs).
Proof.
  cbn [WordCounter.tokenize fst snd WordCounter.words WordCounter.text
       WordCounter.word_frequencies].
  split; [reflexivity|]. split; [reflexivity|]. split; [reflexivity|].
  split; [|split; [|split; [|split]]].
  - apply Forall_forall. intros w Hw. apply filter_In in Hw as [Hin Hk].
    apply andb_prop in Hk as [Hlen Hstop].
    split; [apply Z.leb_le, Hlen|]. split; [apply negb_true_iff, Hstop|].
    assert (H : Forall (fun w => w <> EmptyString /\
                         Forall (fun c => isspace c = false /\ True) (chars w))
                       (split (WordCounter.text self))).
    { apply (split_words (fun _ => True)). apply Forall_forall. auto. }
    rewrite Forall_forall in H. destruct (H w Hin) as [_ Hc].
    eapply Forall_impl; [|exact Hc]. intros c [Hsp _]. exact Hsp.
  - intros w. apply (occurrences_filter kept).
  - intros Hws. rewrite (split_whitespace _ Hws). reflexivity.
  - exists (split (WordCounter.text self)). apply split_runs.
  - intros runs Hruns. rewrite (runs_of_split _ _ Hruns). reflexivity.
Qed.

(** ** [Counter] and [count_frequencies] *)

Lemma dict_get_set_string {V : Type} (d : dict string V) (k w : string) (v : V) :
  dict_get (dict_set d k v) w = if String.eqb k w then Some v else dict_get d w.
Proof.
  induction d as [|[k' v'] d IH]; cbn [dict_set dict_get]; unfold key_eqb, string_KeyEq.
  - reflexivity.
  - destruct (String.eqb_spec k' k) as [->|Hne]; cbn [dict_get]; unfold key_eqb, string_KeyEq.
    + destruct (String.eqb k w); reflexivity.
    + destruct (String.eqb_spec k' w) as [->|Hne'].
      * destruct (String.eqb_spec k w); [congruence|reflexivity].
      * exact IH.
Qed.

Lemma dict_keys_set (d : dict string Z) (k : string) (v : Z) :
  dict_keys (dict_set d k v)
    = if in_set k (dict_keys d) then dict_keys d else dict_keys d ++ [k].
Proof.
  unfold in_set, dict_keys.
  induction d as [|[k' v'] d IH]; cbn [dict_set map fst existsb app]; [reflexivity|].
  change (key_eqb k' k) with (String.eqb k' k). rewrite (String.eqb_sym k k').
  destruct (String.eqb k' k); cbn [map fst orb]; [reflexivity|].
  rewrite IH. destruct (existsb _ _); reflexivity.
Qed.

Lemma sum_values_set (d : dict string Z) (k : string) (v : Z) :
  sum_values (dict_set d k v)
    = sum_values d - match dict_get d k with Some n => n | None => 0 end + v.
Proof.
  unfold sum_values, dict_values.
  induction d as [|[k' v'] d IH]; cbn [dict_set dict_get map snd fold_right]; [lia|].
  destruct (key_eqb k' k); cbn [map snd fold_right]; [lia|]. rewrite IH. lia.
Qed.

Lemma occurrences_nonneg (w : string) (l : list string) : 0 <= occurrences w l.
Proof.
  induction l as [|x l IH]; cbn [occurrences]; [lia|]. destruct (String.eqb x w); lia.
Qed.

Lemma occurrences_pos (w : string) (l : list string) : In w l <-> 0 < occurrences w l.
Proof.
  induction l as [|x l IH]; cbn [occurrences In]; [lia|].
  assert (H := occurrences_nonneg w l).
  destruct (String.eqb_spec x w) as [->|Hne]; [split; [lia|auto]|].
  split; [intros [Hx|Hl]; [contradiction|apply IH in Hl; lia]|].
  intros Hp. right. apply IH. lia.
Qed.

(** The counting loop of [Counter], from a dictionary [d]. *)
Lemma counter_loop_get (l : list string) (d : dict string Z) (w : string) :
  dict_get
    (fold_left
       (fun mapping elem =>
          dict_set mapping elem
            (match dict_get mapping elem with Some n => n | None => 0 end + 1))
       l d) w
  = match dict_get d w with
    | Some n => Some (n + occurrences w l)
    | None => if occurrences w l =? 0 then None else Some (occurrences w l)
    end.
Proof.
  revert d. induction l as [|x l IH]; intros d; cbn [fold_left occurrences].
  - destruct (dict_get d w); [f_equal; lia|reflexivity].
  - rewrite IH, dict_get_set_string. assert (Ho := occurrences_nonneg w l).
    destruct (String.eqb_spec x w) as [->|Hne].
    + destruct (dict_get d w) as [n|]; [f_equal; lia|].
      destruct (Z.eqb_spec (1 + occurrences w l) 0); [lia|f_equal; lia].
    + destruct (dict_get d w); [f_equal; lia|]. reflexivity.
Qed.

Lemma counter_loop_keys (l : list string) (d : dict string Z) :
  dict_keys
    (fold_left
       (fun mapping elem =>
          dict_set mapping elem
            (match dict_get mapping elem with Some n => n | None => 0 end + 1))
       l d)
  = first_occurrences_after (dict_keys d) l.
Proof.
  unfold first_occurrences_after.
  revert d. induction l as [|x l IH]; intros d; cbn [fold_left]; [reflexivity|].
  rewrite IH, dict_keys_set. reflexivity.
Qed.

Lemma counter_loop_sum (l : list string) (d : dict string Z) :
  sum_values
    (fold_left
       (fun mapping elem =>
          dict_set mapping elem
            (match dict_get mapping elem with Some n => n | None => 0 end + 1))
       l d)
  = sum_values d + len_list l.
Proof.
  unfold len_list.
  revert d. induction l as [|x l IH]; intros d; cbn [fold_left List.length]; [lia|].
  rewrite IH, sum_values_set. lia.
Qed.

Lemma in_set_In (x : string) (s : list string) : in_set x s = true <-> In x s.
Proof.
  unfold in_set. rewrite existsb_exists. split.
  - intros (y & Hy & He). apply String.eqb_eq in He. subst. exact Hy.
  - intros H. exists x. split; [exact H|apply String.eqb_refl].
Qed.

Lemma first_occurrences_after_NoDup (l seen : list string) :
  NoDup seen -> NoDup (first_occurrences_after seen l).
Proof.
  unfold first_occurrences_after.
  revert seen. induction l as [|x l IH]; intros seen Hs; cbn [fold_left]; [exact Hs|].
  apply IH. destruct (in_set x seen) eqn:Hx; [exact Hs|].
  apply NoDup_app; [exact Hs|repeat constructor; intros []|].
  intros a Ha [<-|[]]. apply in_set_In in Ha. congruence.
Qed.

(** X19 -- [count_frequencies] tokenizes first when the counter holds no
    word, then stores and returns a dictionary in which each word of the
    counter is a key, once, mapped to the number of its occurrences, and
    nothing else is a key; the keys are in the order of the first
    occurrences and the counts add up to the number of words. *)
Theorem count_frequencies_counts (self : WordCounter.t) :
  let self' := fst (WordCounter.count_frequencies self) in
  let frequencies := snd (WordCounter.count_frequencies self) in
  let ws := WordCounter.words self' in
  ws = match WordCounter.words self with
       | [] => snd (WordCounter.tokenize self)
       | _ => WordCounter.words self
       end /\
  WordCounter.word_frequencies self' = frequencies /\
  WordCounter.text self' = WordCounter.text self /\
  (forall w, dict_get frequencies w
             = if occurrences w ws =? 0 then None else Some (occurrences w ws)) /\
  dict_keys frequencies = first_occurrences ws /\
  NoDup (dict_keys frequencies) /\
  sum_values frequencies = len_list ws.
Proof.
  cbv zeta. unfold WordCounter.count_frequencies.
  cbn [fst snd WordCounter.words WordCounter.word_frequencies WordCounter.text].
  set (self1 := match WordCounter.words self with
                | [] => fst (WordCounter.tokenize self)
                | _ => self
                end).
  assert (Hw : WordCounter.words self1
               = match WordCounter.words self with
                 | [] => snd (WordCounter.tokenize self)
                 | _ => WordCounter.words self
                 end).
  { unfold self1. destruct (WordCounter.words self) eqn:E; [reflexivity|exact E]. }
  assert (Ht : WordCounter.text self1 = WordCounter.text self).
  { unfold self1. destruct (WordCounter.words self); reflexivity. }
  split; [exact Hw|]. split; [reflexivity|]. split; [exact Ht|].
  unfold Counter. split; [|split; [|split]].
  - intros w. rewrite counter_loop_get. reflexivity.
  - rewrite counter_loop_keys. reflexivity.
  - rewrite counter_loop_keys. apply first_occurrences_after_NoDup. constructor.
  - rewrite counter_loop_sum. reflexivity.
Qed.

Lemma Counter_nil_inv (ws : list string) : Counter ws = [] -> ws = [].
Proof.
  intros H. assert (Hs := counter_loop_sum ws []). fold (Counter ws) in Hs.
  rewrite H in Hs. unfold sum_values, len_list in Hs. cbn in Hs.
  destruct ws; [reflexivity|cbn in Hs; lia].
Qed.

Lemma tokenize_again (self : WordCounter.t) :
  WordCounter.tokenize (fst (WordCounter.tokenize self))
    = WordCounter.tokenize self.
Proof. reflexivity. Qed.

(** ** [get_word_frequencies] *)

Lemma count_frequencies_eq (self : WordCounter.t) :
  WordCounter.count_frequencies self =
    let ws := match WordCounter.words self with
              | [] => filter kept (split (WordCounter.text self))
              | _ => WordCounter.words self
              end in
    ({| WordCounter.text := WordCounter.text self;
        WordCounter.words := ws;
        WordCounter.word_frequencies := Counter ws |}, Counter ws).
Proof.
  unfold WordCounter.count_frequencies.
  destruct (WordCounter.words self) eqn:E; [reflexivity|]. rewrite E. reflexivity.
Qed.

Lemma get_word_frequencies_eq (self : WordCounter.t) :
  WordCounter.get_word_frequencies self =
    match WordCounter.word_frequencies self with
    | [] => WordCounter.count_frequencies self
    | _ => (self, WordCounter.word_frequencies self)
    end.
Proof.
  unfold WordCounter.get_word_frequencies.
  destruct (WordCounter.word_frequencies self) eqn:E; [|rewrite E; reflexivity].
  rewrite count_frequencies_eq. reflexivity.
Qed.

(** X20 -- [get_word_frequencies] computes the frequencies at most once: a
    dictionary that is stored and not empty is returned as it is, with no
    look at the text or the words; otherwise the result is that of
    [count_frequencies]; and a second call returns the same dictionary and
    leaves the counter as the first call left it. *)
Theorem get_word_frequencies_cached (self : WordCounter.t) :
  let self' := fst (WordCounter.get_word_frequencies self) in
  let frequencies := snd (WordCounter.get_word_frequencies self) in
  WordCounter.get_word_frequencies self' = (self', frequencies) /\
  (WordCounter.word_frequencies self <> [] ->
     self' = self /\ frequencies = WordCounter.word_frequencies self) /\
  (WordCounter.word_frequencies self = [] ->
     (self', frequencies) = WordCounter.count_frequencies self).
Proof.
  cbv zeta. rewrite (get_word_frequencies_eq self).
  destruct (WordCounter.word_frequencies self) as [|p d] eqn:Hf.
  - split; [|split; [contradiction|intros _; symmetry; apply surjective_pairing]].
    rewrite count_frequencies_eq. cbv zeta. cbn [fst snd].
    set (ws := match WordCounter.words self with
               | [] => filter kept (split (WordCounter.text self))
               | _ => WordCounter.words self
               end).
    rewrite get_word_frequencies_eq. cbn [WordCounter.word_frequencies].
    destruct (Counter ws) as [|p d] eqn:Hc; [|reflexivity].
    apply Counter_nil_inv in Hc.
    rewrite count_frequencies_eq. cbv zeta. cbn [WordCounter.words WordCounter.text].
    rewrite Hc.
    assert (Ht : filter kept (split (WordCounter.text self)) = []).
    { revert Hc. unfold ws. destruct (WordCounter.words self); [auto|discriminate]. }
    rewrite Ht. reflexivity.
  - cbn [fst snd]. split; [|split; [auto|discriminate]].
    rewrite get_word_frequencies_eq, Hf. reflexivity.
Qed.

(** ** The report of a text *)

Lemma StatisticsReport_init_eq (text : string) :
  let ws := filter kept (split text) in
  let report :=
    {| StatisticsReport.word_counter :=
         {| WordCounter.text := text;
            WordCounter.words := ws;
            WordCounter.word_frequencies := Counter ws |};
       StatisticsReport.word_frequencies := Counter ws;
       StatisticsReport.all_words := ws |} in
  StatisticsReport.init (WordCounter.init text) = report /\
  StatisticsReport.init
    (fst (WordCounter.count_frequencies
            (fst (WordCounter.tokenize (WordCounter.init text))))) = report.
Proof.
  cbv zeta. unfold StatisticsReport.init. split.
  - rewrite get_word_frequencies_eq. cbn [WordCounter.init WordCounter.word_frequencies].
    rewrite count_frequencies_eq. reflexivity.
  - assert (Hm : forall l : list string, match l with [] => l | _ :: _ => l end = l)
      by (intros []; reflexivity).
    rewrite get_word_frequencies_eq, count_frequencies_eq. cbv zeta.
    cbn [fst snd WordCounter.tokenize WordCounter.init WordCounter.words
         WordCounter.text WordCounter.word_frequencies].
    change (filter (fun word => (3 <=? len word)
                                 && negb (in_set word WordCounter.STOP_WORDS))
                   (split text)) with (filter kept (split text)).
    rewrite Hm.
    destruct (Counter (filter kept (split text))) as [|p d] eqn:Hc; [|reflexivity].
    rewrite count_frequencies_eq. cbv zeta. cbn [WordCounter.words WordCounter.text].
    rewrite Hm, Hc. reflexivity.
Qed.

Lemma first_occurrences_after_length (l seen : list string) :
  (List.length (first_occurrences_after seen l) <= List.length seen + List.length l)%nat.
Proof.
  unfold first_occurrences_after.
  revert seen. induction l as [|x l IH]; intros seen; cbn [fold_left List.length]; [lia|].
  specialize (IH (if in_set x seen then seen else seen ++ [x])).
  destruct (in_set x seen); [lia|]. rewrite length_app in IH. cbn [List.length] in IH. lia.
Qed.

(** X21 -- the report of a text, as [analyze_text_file] builds it once the
    file is read: its words are the tokens of the normalized text, each of
    at least 3 characters, all in a to z and 0 to 9, and no stop word; its
    frequencies are the counts of these words; the number of unique words
    is at most the number of words, zero exactly when that is zero, and the
    counts add up to the number of words.  The report is the same when the
    counter is handed over without the calls of [tokenize] and
    [count_frequencies]. *)
Theorem analyze_text_report (content : string) :
  let normalized := snd (TextReader.normalize_text (TextReader.init "") content) in
  let report := analyze_text content in
  StatisticsReport.all_words report
    = snd (WordCounter.tokenize (WordCounter.init normalized)) /\
  StatisticsReport.word_frequencies report = Counter (StatisticsReport.all_words report) /\
  report = StatisticsReport.init (WordCounter.init normalized) /\
  Forall (fun w => 3 <= len w /\ in_set w WordCounter.STOP_WORDS = false /\
                   Forall (fun c => is_a_z_0_9 c = true) (chars w))
         (StatisticsReport.all_words report) /\
  StatisticsReport.get_unique_word_count report
    <= StatisticsReport.get_total_word_count report /\
  (StatisticsReport.get_unique_word_count report = 0 <->
   StatisticsReport.get_total_word_count report = 0) /\
  sum_values (StatisticsReport.word_frequencies report)
    = StatisticsReport.get_total_word_count report.
Proof.
  intros normalized report.
  destruct (StatisticsReport_init_eq normalized) as [Hlazy Heager].
  cbv zeta in Hlazy, Heager.
  assert (Hr : report = StatisticsReport.init (WordCounter.init normalized))
    by (rewrite Hlazy; exact Heager).
  set (ws := filter kept (split normalized)) in *.
  assert (Hall : StatisticsReport.all_words report = ws)
    by (rewrite Hr, Hlazy; reflexivity).
  assert (Hfreq : StatisticsReport.word_frequencies report = Counter ws)
    by (rewrite Hr, Hlazy; reflexivity).
  unfold StatisticsReport.get_unique_word_count, StatisticsReport.get_total_word_count.
  rewrite Hall, Hfreq.
  split; [reflexivity|]. split; [reflexivity|]. split; [exact Hr|].
  assert (Hkeys : List.length (Counter ws) = List.length (first_occurrences ws)).
  { assert (H := counter_loop_keys ws []). fold (Counter ws) in H.
    unfold first_occurrences. change (dict_keys (@nil (string * Z))) with (@nil string) in H.
    rewrite <- H. unfold dict_keys. rewrite length_map. reflexivity. }
  split; [|split; [|split]].
  - apply Forall_forall. intros w Hw. apply filter_In in Hw as [Hin Hk].
    apply andb_prop in Hk as [Hlen Hstop].
    split; [apply Z.leb_le, Hlen|]. split; [apply negb_true_iff, Hstop|].
    destruct (normalize_text_clean (TextReader.init "") content) as [Hc _].
    fold normalized in Hc. apply clean_chars in Hc.
    assert (H : Forall (fun w => w <> EmptyString /\
                  Forall (fun c => isspace c = false /\
                                   (is_a_z_0_9 c = true \/ c = " "%char)) (chars w))
                       (split normalized)).
    { apply (split_words (fun c => is_a_z_0_9 c = true \/ c = " "%char)).
      eapply Forall_impl; [|exact Hc]. auto. }
    rewrite Forall_forall in H. destruct (H w Hin) as [_ Hchars].
    eapply Forall_impl; [|exact Hchars].
    intros c [Hsp [Ha| ->]]; [exact Ha|discriminate Hsp].
  - unfold len_list. rewrite Hkeys.
    assert (H := first_occurrences_after_length ws []). cbn [List.length] in H.
    unfold first_occurrences. lia.
  - unfold len_list. split; intros H.
    + destruct (Counter ws) eqn:Hc; [|cbn [List.length] in H; lia].
      apply Counter_nil_inv in Hc. rewrite Hc. reflexivity.
    + destruct ws; [reflexivity|cbn [List.length] in H; lia].
  - assert (H := counter_loop_sum ws []). exact H.
Qed.

(** ** [max] with a key *)

Lemma max_from_spec {A : Type} (key : A -> Z) (l : list A) (best : A) :
  exists l1 l2,
    best :: l = l1 ++ max_from key best l :: l2 /\
    (forall x, In x l1 -> key x < key (max_from key best l)) /\
    (forall x, In x l2 -> key x <= key (max_from key best l)).
Proof.
  revert best. induction l as [|x l IH]; intros best; cbn [max_from].
  - exists [], []. split; [reflexivity|]. split; intros y [].
  - destruct (Z.ltb_spec (key best) (key x)) as [Hlt|Hge].
    + destruct (IH x) as (l1 & l2 & Heq & H1 & H2).
      exists (best :: l1), l2. split; [cbn [app]; rewrite Heq; reflexivity|].
      split; [|exact H2]. intros y [<-|Hy]; [|apply H1, Hy].
      destruct l1 as [|a l1]; cbn [app] in Heq; injection Heq as Ha Heq.
      * rewrite <- Ha. exact Hlt.
      * subst a. specialize (H1 x (or_introl eq_refl)). lia.
    + destruct (IH best) as (l1 & l2 & Heq & H1 & H2).
      destruct l1 as [|a l1]; cbn [app] in Heq; injection Heq as Ha Heq.
      * exists [], (x :: l2). split; [cbn [app]; congruence|].
        split; [intros y []|]. intros y [<-|Hy]; [rewrite <- Ha; lia|apply H2, Hy].
      * subst a. exists (best :: x :: l1), l2.
        split; [cbn [app]; do 2 f_equal; exact Heq|]. split; [|exact H2].
        intros y [<-|[<-|Hy]].
        -- apply H1. left. reflexivity.
        -- specialize (H1 best (or_introl eq_refl)). lia.
        -- apply H1. right. exact Hy.
Qed.

(** X22 -- [get_longest_word] never fails: it returns the empty string
    when the report has no word, and otherwise the first of the longest
    words: every word before it is shorter and no word after it is
    longer. *)
Theorem get_longest_word_first_longest (self : StatisticsReport.t) :
  exists w : string,
    StatisticsReport.get_longest_word self = Some w /\
    (StatisticsReport.all_words self = [] -> w = EmptyString) /\
    (StatisticsReport.all_words self <> [] ->
     exists l1 l2,
       StatisticsReport.all_words self = l1 ++ w :: l2 /\
       (forall x, In x l1 -> len x < len w) /\
       (forall x, In x l2 -> len x <= len w)).
Proof.
  unfold StatisticsReport.get_longest_word.
  destruct (StatisticsReport.all_words self) as [|x l].
  - exists EmptyString. split; [reflexivity|]. split; [reflexivity|contradiction].
  - cbn [py_max]. exists (max_from len x l). split; [reflexivity|].
    split; [discriminate|]. intros _. apply max_from_spec.
Qed.

(** X23 -- [get_most_frequent_word] never fails: it returns [("", 0)] when
    the dictionary is empty, and otherwise the first entry, in the order of
    the dictionary, with the highest count: every entry before it has a
    lower count and no entry after it a higher one. *)
Theorem get_most_frequent_word_first_highest (self : StatisticsReport.t) :
  exists (w : string) (n : Z),
    StatisticsReport.get_most_frequent_word self = Some (w, n) /\
    (StatisticsReport.word_frequencies self = [] -> w = EmptyString /\ n = 0) /\
    (StatisticsReport.word_frequencies self <> [] ->
     exists l1 l2,
       StatisticsReport.word_frequencies self = l1 ++ (w, n) :: l2 /\
       (forall x, In x l1 -> snd x < n) /\
       (forall x, In x l2 -> snd x <= n)).
Proof.
  unfold StatisticsReport.get_most_frequent_word.
  destruct (StatisticsReport.word_frequencies self) as [|x l].
  - exists EmptyString, 0. split; [reflexivity|]. split; [auto|contradiction].
  - cbn [py_max]. destruct (max_from snd x l) as [w n] eqn:Hm.
    exists w, n. split; [reflexivity|]. split; [discriminate|]. intros _.
    destruct (max_from_spec snd l x) as (l1 & l2 & Heq & H1 & H2).
    rewrite Hm in Heq, H1, H2. exists l1, l2. auto.
Qed.

(** ** [sorted] *)

Lemma insert_sorted_perm {A : Type} (lt : A -> A -> bool) (x : A) (l : list A) :
  Permutation (insert_sorted lt x l) (x :: l).
Proof.
  induction l as [|y l IH]; cbn [insert_sorted]; [reflexivity|].
  destruct (lt y x); [|reflexivity].
  rewrite IH. apply perm_swap.
Qed.

Lemma sorted_perm {A : Type} (lt : A -> A -> bool) (l : list A) :
  Permutation (sorted lt l) l.
Proof.
  induction l as [|x l IH]; cbn [sorted]; [reflexivity|].
  rewrite insert_sorted_perm, IH. reflexivity.
Qed.

Lemma insert_sorted_Sorted {A : Type} (lt : A -> A -> bool) (x : A) (l : list A) :
  (forall a b, lt a b = true -> lt b a = false) ->
  Sorted (fun a b => lt b a = false) l ->
  Sorted (fun a b => lt b a = false) (insert_sorted lt x l).
Proof.
  intros Hasym. induction l as [|y l IH]; intros Hs; cbn [insert_sorted].
  - repeat constructor.
  - destruct (lt y x) eqn:Hyx.
    + inversion Hs as [|y' l' Hs' Hhd]; subst. constructor; [apply IH, Hs'|].
      destruct l as [|z l]; cbn [insert_sorted].
      * constructor. apply Hasym, Hyx.
      * destruct (lt z x); constructor.
        -- inversion Hhd; assumption.
        -- apply Hasym, Hyx.
    + constructor; [exact Hs|]. constructor. exact Hyx.
Qed.

Lemma sorted_Sorted {A : Type} (lt : A -> A -> bool) (l : list A) :
  (forall a b, lt a b = true -> lt b a = false) ->
  Sorted (fun a b => lt b a = false) (sorted lt l).
Proof.
  intros Hasym. induction l as [|x l IH]; cbn [sorted]; [constructor|].
  apply insert_sorted_Sorted; assumption.
Qed.

Lemma Sorted_ascending {A : Type} (lt : A -> A -> bool) (l : list A) :
  Sorted (fun a b => lt b a = false) l -> ascending lt l.
Proof.
  intros Hs l1. revert l Hs. induction l1 as [|a l1 IH]; intros l Hs x y l2 ->.
  - cbn [app] in Hs. inversion Hs as [|? ? _ Hhd]; subst. inversion Hhd; assumption.
  - cbn [app] in Hs. inversion Hs as [|? ? Hs' _]; subst.
    exact (IH _ Hs' x y l2 eq_refl).
Qed.

Lemma sorted_ascending {A : Type} (lt : A -> A -> bool) (l : list A) :
  (forall a b, lt a b = true -> lt b a = false) -> ascending lt (sorted lt l).
Proof. intros H. apply Sorted_ascending, sorted_Sorted, H. Qed.

Lemma ascending_firstn {A : Type} (lt : A -> A -> bool) (l : list A) (n : nat) :
  ascending lt l -> ascending lt (firstn n l).
Proof.
  intros H l1 x y l2 Heq. apply (H l1 x y (l2 ++ skipn n l)).
  rewrite <- (firstn_skipn n l) at 1. rewrite Heq, <- app_assoc. reflexivity.
Qed.

Lemma ltb_asym (s t : string) : String.ltb s t = true -> String.ltb t s = false.
Proof.
  unfold String.ltb. rewrite (String.compare_antisym t s).
  destruct (String.compare s t); cbn; congruence.
Qed.

Lemma top_key_lt_asym (x y : string * Z) :
  StatisticsReport.top_key_lt x y = true -> StatisticsReport.top_key_lt y x = false.
Proof.
  unfold StatisticsReport.top_key_lt.
  destruct (Z.eqb_spec (- snd x) (- snd y)) as [He|Hne].
  - rewrite <- He, Z.eqb_refl. apply ltb_asym.
  - destruct (Z.eqb_spec (- snd y) (- snd x)); [lia|].
    intros H. apply Z.ltb_lt in H. apply Z.ltb_ge. lia.
Qed.

Lemma In_firstn {A : Type} (n : nat) (l : list A) (x : A) : In x (firstn n l) -> In x l.
Proof.
  intros H. rewrite <- (firstn_skipn n l). apply in_or_app. left. exact H.
Qed.

Lemma top_key_order (x y : string * Z) :
  StatisticsReport.top_key_lt y x = false ->
  snd y <= snd x /\ (snd y = snd x -> String.ltb (fst y) (fst x) = false).
Proof.
  unfold StatisticsReport.top_key_lt.
  destruct (Z.eqb_spec (- snd y) (- snd x)) as [He|Hne].
  - intros H. split; [lia|auto].
  - intros H. apply Z.ltb_ge in H. split; [lia|lia].
Qed.

Lemma Sorted_head_highest (l : list (string * Z)) (x : string * Z) :
  Sorted (fun a b => StatisticsReport.top_key_lt b a = false) (x :: l) ->
  forall y, In y l -> snd y <= snd x.
Proof.
  revert x. induction l as [|z l IH]; intros x Hs y; [intros []|].
  inversion Hs as [|? ? Hs' Hhd]; subst. inversion Hhd as [|? ? Hxz]; subst.
  apply top_key_order in Hxz as [Hzx _].
  intros [<-|Hy]; [exact Hzx|]. specialize (IH z Hs' y Hy). lia.
Qed.

(** ** [get_top_n_words] *)

(** X24 -- [get_top_n_words] never fails, whatever [n].  Its entries are
    entries of the dictionary, in the order of decreasing counts and, among
    equal counts, of increasing words; its first entry has the highest
    count of all.  For [n >= 0] there are [n] of them, or all when the
    dictionary has fewer, each once; a negative [n] does not give an empty
    list but all the entries except the last [-n]. *)
Theorem get_top_n_words_sorted (self : StatisticsReport.t) (n : Z) :
  let top := StatisticsReport.get_top_n_words self n in
  let unique := StatisticsReport.get_unique_word_count self in
  (forall l1 x y l2, top = l1 ++ x :: y :: l2 ->
     snd y <= snd x /\ (snd y = snd x -> String.ltb (fst y) (fst x) = false)) /\
  (forall x, In x top -> In x (StatisticsReport.word_frequencies self)) /\
  (forall x rest, top = x :: rest ->
     forall y, In y (StatisticsReport.word_frequencies self) -> snd y <= snd x) /\
  (0 <= n -> len_list top = Z.min n unique) /\
  (unique <= n -> Permutation top (StatisticsReport.word_frequencies self)) /\
  (n < 0 -> len_list top = Z.max 0 (unique + n)).
Proof.
  cbv zeta.
  unfold StatisticsReport.get_top_n_words, StatisticsReport.get_unique_word_count.
  set (freq := StatisticsReport.word_frequencies self).
  set (sorted_words := sorted StatisticsReport.top_key_lt freq).
  assert (Hperm : Permutation sorted_words freq) by apply sorted_perm.
  assert (Hsorted := sorted_Sorted StatisticsReport.top_key_lt freq top_key_lt_asym).
  fold sorted_words in Hsorted.
  assert (Hlen : List.length sorted_words = List.length freq)
    by (apply Permutation_length, Hperm).
  assert (Hslice : exists k, slice_to sorted_words n = firstn k sorted_words).
  { unfold slice_to. destruct (n <? 0); eauto. }
  destruct Hslice as [k Hk].
  split; [|split; [|split; [|split; [|split]]]].
  - intros l1 x y l2 Heq. apply top_key_order.
    rewrite Hk in Heq.
    exact (ascending_firstn _ _ k (Sorted_ascending _ _ Hsorted) l1 x y l2 Heq).
  - intros x Hx. rewrite Hk in Hx. apply In_firstn in Hx.
    exact (Permutation_in _ Hperm Hx).
  - intros x rest Heq y Hy. rewrite Hk in Heq.
    destruct sorted_words as [|x' l'] eqn:Hsw.
    { destruct k; discriminate Heq. }
    destruct k as [|k]; [discriminate Heq|]. cbn [firstn] in Heq. injection Heq as -> _.
    assert (Hy' : In y (x :: l')) by exact (Permutation_in y (Permutation_sym Hperm) Hy).
    destruct Hy' as [<-|Hy']; [lia|]. exact (Sorted_head_highest _ _ Hsorted y Hy').
  - intros Hn. unfold slice_to. destruct (Z.ltb_spec n 0); [lia|].
    unfold len_list. rewrite length_firstn, Hlen. lia.
  - intros Hn. unfold slice_to. unfold len_list in Hn.
    destruct (Z.ltb_spec n 0); [lia|].
    rewrite firstn_all2 by lia. exact Hperm.
  - intros Hn. unfold slice_to. destruct (Z.ltb_spec n 0); [|lia].
    unfold len_list. rewrite length_firstn, Hlen. lia.
Qed.

(** ** [get_words_starting_with] *)

Lemma lower_idempotent (s : string) : lower (lower s) = lower s.
Proof.
  unfold lower. induction s as [|c s IH]; cbn [map_chars]; [reflexivity|].
  rewrite lower_char_idempotent, IH. reflexivity.
Qed.

Lemma filter_prefix_empty (l : list string) :
  filter (fun word => String.prefix EmptyString word) l = l.
Proof.
  induction l as [|k l IH]; cbn [filter]; [reflexivity|].
  destruct k; cbn [String.prefix]; rewrite IH; reflexivity.
Qed.

(** X25 -- [get_words_starting_with] returns the keys of the dictionary
    that start with the prefix put in lower case, each as often as it is a
    key, in increasing order; so the case of the prefix does not matter,
    and the empty prefix gives all the keys. *)
Theorem get_words_starting_with_sorted (self : StatisticsReport.t) (prefix : string) :
  let found := StatisticsReport.get_words_starting_with self prefix in
  let keys := dict_keys (StatisticsReport.word_frequencies self) in
  Permutation found (filter (fun word => String.prefix (lower prefix) word) keys) /\
  (forall w, In w found <-> In w keys /\ String.prefix (lower prefix) w = true) /\
  (forall l1 x y l2, found = l1 ++ x :: y :: l2 -> String.ltb y x = false) /\
  StatisticsReport.get_words_starting_with self (lower prefix) = found /\
  (prefix = EmptyString -> Permutation found keys).
Proof.
  cbv zeta. unfold StatisticsReport.get_words_starting_with.
  set (keys := dict_keys (StatisticsReport.word_frequencies self)).
  set (matching := filter (fun word => String.prefix (lower prefix) word) keys).
  assert (Hperm : Permutation (sorted String.ltb matching) matching) by apply sorted_perm.
  split; [exact Hperm|]. split; [|split; [|split]].
  - intros w. rewrite <- (filter_In (fun word => String.prefix (lower prefix) word)).
    fold matching. split; apply Permutation_in; [exact Hperm|apply Permutation_sym, Hperm].
  - apply sorted_ascending. exact ltb_asym.
  - rewrite lower_idempotent. reflexivity.
  - intros ->. rewrite Hperm. unfold matching. cbn [lower map_chars].
    rewrite filter_prefix_empty. reflexivity.
Qed.
